(** * PeekXtract: remote ZIP peek-and-extract engine

    A shallow embedding of the parts of [src/peekxtract.py] (the current
    engine) and [src/main.py] (its earlier duplicate) that the
    specification talks about: the ranged-read primitive, the ZIP / ZIP64
    trailer parser, the central-directory walk, the local-header probe,
    the chunk planner of [download_file], [parse_range] and [list_files];
    and of what stands around them in [src/peekxtract.py]: the rest of
    [download_file], [download_bulk], [search_files] and
    [decompress_data].

    Conventions.
    - Python [int] is [Z]; [bytes] is [list byte]; [str] is a list of
      Unicode code points.
    - Code that talks to the network runs in a small state-and-exception
      monad [M] over a [world] that records every ranged GET and every
      [time.sleep]; the remote server is an arbitrary deterministic
      function of the request history.  The HEAD request that
      [download_file] makes for the name of the archive is part of the
      operating system [system], which may change the world.
    - Python exceptions are values of [exn]; [try ... except Exception]
      is [catch].
    - The [re] module, the codecs, the file system and the clock are
      parameters: their answers, exceptions included, are whatever the
      environment gives.  Printing is not modelled: [print] is taken to
      raise nothing. *)

From Stdlib Require Import ZArith List String Ascii Bool Lia DecimalString DecimalPos.
From Stdlib.Strings Require Import Byte.
From stdpp Require Import base option list sorting gmap.
Import ListNotations.
Local Open Scope Z_scope.

(** ** Bytes, slices and [struct.unpack] *)

Abbreviation bytes := (list byte).

Definition byte_val (b : byte) : Z := Z.of_N (Byte.to_N b).

(** [len(data)] *)
Definition len {A} (l : list A) : Z := Z.of_nat (length l).

(** [data[i:j]] for non-negative [i], [j] (the only way the sources slice):
    the elements at positions [i .. min(j, len) - 1]. *)
Definition slice {A} (data : list A) (i j : Z) : list A :=
  take (Z.to_nat (j - i)) (drop (Z.to_nat i) data).

(** Little-endian unsigned integer held by a byte string. *)
Fixpoint le_uint (bs : bytes) : Z :=
  match bs with
  | [] => 0
  | b :: rest => byte_val b + 256 * le_uint rest
  end.

#[global] Instance byte_eq_dec : EqDecision byte := Byte.byte_eq_dec.

(** [range(n)] and [range(n, -1, -1)] *)
Definition py_range (n : Z) : list Z := map Z.of_nat (seq 0 (Z.to_nat n)).
Definition py_range_down (n : Z) : list Z := rev (py_range (n + 1)).

(** The first index, scanning in the given order, at which the 4 bytes
    [data[i:i+4]] equal [sig]. *)
Definition scan_signature (sig data : bytes) (indices : list Z) : option Z :=
  List.find (fun i => bool_decide (slice data i (i + 4) = sig)) indices.

(** The [k]-th value of an unpacked tuple. *)
Definition field (k : nat) (tuple : list Z) : Z := nth k tuple 0.

(** Python exceptions raised by the modelled code. *)
Inductive exn : Type :=
| RequestError                      (* session.get raised (connection, timeout) *)
| RangeRequestFailed (status : Z)   (* "Range request failed with status ..." *)
| ReadFailed (first last : Z) (cause : exn)
                                    (* "Failed to read bytes a-b ..." *)
| StructError                       (* struct.error: buffer of the wrong size *)
| TypeError                         (* an operation applied to None *)
| LocatorNegativeOffset             (* "ZIP64 locator would be at negative offset" *)
| LocatorReadFailed (cause : exn)   (* "Failed to read ZIP64 locator: ..." *)
| LocatorNotFound                   (* "ZIP64 End of Central Directory Locator not found" *)
| Zip64EocdFailed (cause : exn)     (* "Failed to read ZIP64 EOCD: ..." *)
| InvalidZip64EocdSignature (sig : Z)
| Zip64EocdTooShort
| EocdNotFound                      (* "End of Central Directory not found" *)
| InvalidLocalHeaderSignature (sig : Z)
| KeyError                          (* a dict indexed at a missing key *)
| ValueError                        (* int() of a malformed literal *)
| OverflowError                     (* re.compile: a repeat count too large *)
| OSError                           (* the file system refused a call *)
| ZeroDivisionError.                (* a division by an elapsed time of 0.0 *)

(** The result of running a piece of Python: a value, an exception, or
    (for the fuelled loops only) running out of fuel. *)
Inductive outcome (A : Type) : Type :=
| Done (a : A)
| Raised (e : exn)
| OutOfFuel.
Arguments Done {A} a.
Arguments Raised {A} e.
Arguments OutOfFuel {A}.

(** [struct.unpack] of one little-endian unsigned field of [n] bytes:
    [struct.error] unless the buffer has exactly [n] bytes. *)
Definition unpack_uint (n : Z) (buf : bytes) : outcome Z :=
  if len buf =? n then Done (le_uint buf) else Raised StructError.

(** [struct.unpack(fmt, buf)] for a format of unsigned little-endian
    fields with the given byte widths. *)
Fixpoint split_fields (widths : list Z) (buf : bytes) : list Z :=
  match widths with
  | [] => []
  | w :: ws => le_uint (slice buf 0 w) :: split_fields ws (slice buf w (len buf))
  end.

Definition struct_unpack (widths : list Z) (buf : bytes) : outcome (list Z) :=
  if len buf =? fold_right Z.add 0 widths
  then Done (split_fields widths buf)
  else Raised StructError.

(** Sequencing of pure computations that may raise. *)
Definition obind {A B} (o : outcome A) (k : A -> outcome B) : outcome B :=
  match o with
  | Done a => k a
  | Raised e => Raised e
  | OutOfFuel => OutOfFuel
  end.

Declare Scope py_scope.
Delimit Scope py_scope with py.
Notation "x <~ o ;; k" := (obind o (fun x => k))
  (at level 100, o at next level, right associativity) : py_scope.
Local Open Scope py_scope.

(** ** Python [str] *)

(** A [str] is its sequence of Unicode code points. *)
Abbreviation str := (list Z).

(** A string literal of the source. *)
Definition lit (s : string) : str :=
  map (fun a => Z.of_N (N_of_ascii a)) (list_ascii_of_string s).

(** [str(n)] for an [int]. *)
Definition str_of_int (n : Z) : str :=
  lit (DecimalString.NilZero.string_of_int (Z.to_int n)).

(** [s.endswith(c)] for a one-character [c]. *)
Definition endswith_char (s : str) (c : Z) : bool :=
  match last s with
  | Some x => x =? c
  | None => false
  end.

(** [Py_UNICODE_ISSPACE]: what [str.strip()] removes. *)
Definition is_space (c : Z) : bool :=
  ((9 <=? c) && (c <=? 13)) || ((28 <=? c) && (c <=? 32))
  || (c =? 0x85) || (c =? 0xA0) || (c =? 0x1680)
  || ((0x2000 <=? c) && (c <=? 0x200A))
  || (c =? 0x2028) || (c =? 0x2029) || (c =? 0x202F) || (c =? 0x205F)
  || (c =? 0x3000).

Fixpoint lstrip (s : str) : str :=
  match s with
  | c :: rest => if is_space c then lstrip rest else s
  | [] => []
  end.

(** [s.strip()] *)
Definition strip (s : str) : str := rev (lstrip (rev (lstrip s))).

(** [s.split(sep)] for a one-character [sep]. *)
Fixpoint split_char (sep : Z) (s : str) : list str :=
  match s with
  | [] => [[]]
  | c :: rest =>
      if c =? sep then [] :: split_char sep rest
      else match split_char sep rest with
           | p :: ps => (c :: p) :: ps
           | [] => [[c]]
           end
  end.

(** [c in s] followed by [s.split(c, 1)]: [None] when [c] does not occur,
    otherwise what stands before and after its first occurrence. *)
Fixpoint split_once (sep : Z) (s : str) : option (str * str) :=
  match s with
  | [] => None
  | c :: rest =>
      if c =? sep then Some ([], rest)
      else match split_once sep rest with
           | Some (before, after) => Some (c :: before, after)
           | None => None
           end
  end.

Fixpoint startswith (p s : str) : bool :=
  match p, s with
  | [], _ => true
  | a :: p', b :: s' => (a =? b) && startswith p' s'
  | _ :: _, [] => false
  end.

(** [needle in hay] *)
Fixpoint contains (needle hay : str) : bool :=
  startswith needle hay
  || match hay with
     | [] => false
     | _ :: rest => contains needle rest
     end.

(** *** [int(s)]

    Base 10: optional white space, an optional sign, decimal digits with
    single underscores between them, optional white space; anything else
    is a [ValueError].  White space inside [int] is the ASCII set
    [\t\n\v\f\r] and space, plus the non-ASCII Unicode spaces.  Only the
    ASCII digits are modelled: a string with another Unicode decimal digit
    is taken to be malformed, where [int] accepts it; and no limit is put
    on the number of digits, where [int] raises [ValueError] for more
    than 4300 of them. *)
Definition is_int_space (c : Z) : bool :=
  ((9 <=? c) && (c <=? 13)) || (c =? 32) || ((127 <=? c) && is_space c).

Definition is_digit (c : Z) : bool := (48 <=? c) && (c <=? 57).

Fixpoint int_digits (acc : Z) (after_underscore : bool) (s : str) : option Z :=
  match s with
  | [] => if after_underscore then None else Some acc
  | c :: rest =>
      if is_digit c then int_digits (acc * 10 + (c - 48)) false rest
      else if after_underscore then None
      else if c =? 95 then int_digits acc true rest
      else if forallb is_int_space s then Some acc else None
  end.

Fixpoint int_lstrip (s : str) : str :=
  match s with
  | c :: rest => if is_int_space c then int_lstrip rest else s
  | [] => []
  end.

Definition py_int (s : str) : outcome Z :=
  let s := int_lstrip s in
  let '(negative, s) :=
    match s with
    | 43 :: rest => (false, rest)
    | 45 :: rest => (true, rest)
    | _ => (false, s)
    end in
  match s with
  | c :: _ =>
      if is_digit c then
        match int_digits 0 false s with
        | Some n => Done (if negative : bool then - n else n)
        | None => Raised ValueError
        end
      else Raised ValueError
  | [] => Raised ValueError
  end.

(** [try: body except ValueError: handler] *)
Definition except_ValueError {A} (body : outcome A) (handler : outcome A) : outcome A :=
  match body with
  | Raised ValueError => handler
  | r => r
  end.

(** [range(a, b)] *)
Definition py_range2 (a b : Z) : list Z := map (fun i => a + i) (py_range (b - a)).

(** [sorted(set(l))] for a list of [int]. *)
Definition sorted_set (l : list Z) : list Z := merge_sort Z.le (remove_dups l).

(** *** [bytes.decode('utf-8', errors='ignore')]

    The decoder reads well-formed UTF-8 sequences (first byte [00..7F],
    [C2..DF] + 1, [E0..EF] + 2, [F0..F4] + 3 continuation bytes, the second
    byte restricted to [A0..BF] after [E0], [80..9F] after [ED], [90..BF]
    after [F0] and [80..8F] after [F4]) and emits one code point for each.
    With [errors='ignore'] an invalid first byte is skipped; a sequence cut
    short by a byte that cannot continue it is skipped up to that byte,
    which is then read again as a first byte; a sequence cut short by the
    end of the input is skipped.  Nothing is emitted for what is skipped. *)

Inductive utf8_state : Type :=
| Start
| Cont (need : nat) (acc lo hi : Z).
  (* [need] continuation bytes to come, the next one within [lo..hi];
     [acc] holds the payload bits read so far *)

Definition utf8_start (b : Z) : option Z * utf8_state :=
  if b <? 0x80 then (Some b, Start)
  else if b <? 0xC2 then (None, Start)
  else if b <? 0xE0 then (None, Cont 1 (b - 0xC0) 0x80 0xBF)
  else if b =? 0xE0 then (None, Cont 2 (b - 0xE0) 0xA0 0xBF)
  else if b =? 0xED then (None, Cont 2 (b - 0xE0) 0x80 0x9F)
  else if b <? 0xF0 then (None, Cont 2 (b - 0xE0) 0x80 0xBF)
  else if b =? 0xF0 then (None, Cont 3 (b - 0xF0) 0x90 0xBF)
  else if b <? 0xF4 then (None, Cont 3 (b - 0xF0) 0x80 0xBF)
  else if b =? 0xF4 then (None, Cont 3 (b - 0xF0) 0x80 0x8F)
  else (None, Start).

Definition utf8_step (st : utf8_state) (b : Z) : option Z * utf8_state :=
  match st with
  | Start => utf8_start b
  | Cont need acc lo hi =>
      if (lo <=? b) && (b <=? hi) then
        let acc' := acc * 64 + (b - 0x80) in
        match need with
        | S (S n) => (None, Cont (S n) acc' 0x80 0xBF)
        | _ => (Some acc', Start)
        end
      else utf8_start b
  end.

Fixpoint utf8_run (st : utf8_state) (bs : bytes) : str :=
  match bs with
  | [] => []
  | b :: rest =>
      match utf8_step st (byte_val b) with
      | (Some c, st') => c :: utf8_run st' rest
      | (None, st') => utf8_run st' rest
      end
  end.

Definition decode_utf8_ignore (bs : bytes) : str := utf8_run Start bs.

(** What [errors='replace'] would give on the same input: U+FFFD for each
    skipped stretch.  Only used to state what the code does not do. *)
Definition REPLACEMENT_CHARACTER : Z := 0xFFFD.

(** ** Insertion-ordered dictionaries *)

(** A Python [dict] as an association list in insertion order. *)
Definition dict_get {V} (d : list (Z * V)) (k : Z) : option V :=
  snd <$> List.find (fun kv => fst kv =? k) d.

(** [d[k] = v]: replaces in place, or appends a new key. *)
Fixpoint dict_set {V} (d : list (Z * V)) (k : Z) (v : V) : list (Z * V) :=
  match d with
  | [] => [(k, v)]
  | (k', v') :: rest =>
      if k' =? k then (k, v) :: rest else (k', v') :: dict_set rest k v
  end.

Definition dict_keys {V} (d : list (Z * V)) : list Z := map fst d.

(** One member of the catalog [self.files_info]. *)
Record file_info : Type := FileInfo {
  filename : str;
  compressed_size : Z;
  uncompressed_size : Z;
  compression_method : Z;
  local_header_offset : Z;
  crc32 : Z
}.

(** ** The world: a remote server, the request log and the sleep log *)

(** [Range: bytes=first-last] *)
Record request : Type := Range { range_first : Z; range_last : Z }.

(** What [session.get] does with a request: a response with a status code
    and a body, or an exception. *)
Inductive reply : Type :=
| Response (status_code : Z) (content : bytes)
| NoResponse.

(** A server answers a request knowing all earlier requests. *)
Definition server : Type := list request -> request -> reply.

Record world : Type := World { requests : list request; sleeps : list Z }.

Definition world0 : world := World [] [].

Definition M (A : Type) : Type := world -> outcome A * world.

Definition ret {A} (a : A) : M A := fun w => (Done a, w).
Definition raise {A} (e : exn) : M A := fun w => (Raised e, w).
Definition out_of_fuel {A} : M A := fun w => (OutOfFuel, w).

Definition bind {A B} (m : M A) (k : A -> M B) : M B :=
  fun w =>
    match m w with
    | (Done a, w') => k a w'
    | (Raised e, w') => (Raised e, w')
    | (OutOfFuel, w') => (OutOfFuel, w')
    end.

(** [try: m except Exception as e: handler e] *)
Definition catch {A} (m : M A) (handler : exn -> M A) : M A :=
  fun w =>
    match m w with
    | (Raised e, w') => handler e w'
    | r => r
    end.

(** Lift a pure computation that may raise. *)
Definition lift {A} (o : outcome A) : M A := fun w => (o, w).

Notation "x <- m ;; k" := (bind m (fun x => k))
  (at level 100, m at next level, right associativity) : py_scope.
Notation "m ;;; k" := (bind m (fun _ => k))
  (at level 100, right associativity) : py_scope.

(** [session.get(url, headers={'Range': 'bytes=first-last'})] *)
Definition session_get (srv : server) (first last : Z) : M (Z * bytes) :=
  fun w =>
    let rq := Range first last in
    let w' := World (requests w ++ [rq]) (sleeps w) in
    match srv (requests w) rq with
    | Response st body => (Done (st, body), w')
    | NoResponse => (Raised RequestError, w')
    end.

(** [time.sleep(t)] *)
Definition time_sleep (t : Z) : M unit :=
  fun w => (Done tt, World (requests w) (sleeps w ++ [t])).

(** A server that holds [file] and honours every range request with
    [206] and exactly the bytes asked for (fewer at the end of file). *)
Definition file_server (file : bytes) : server :=
  fun _ rq => Response 206 (slice file (range_first rq) (range_last rq + 1)).

(** ** peekxtract.py *)

Module Peekxtract.

(** The body of the [for attempt in range(max_retries)] loop of
    [_read_bytes], over the attempts still to come.  Falling off the end of
    the loop (only when [max_retries <= 0]) returns Python's [None]. *)
Fixpoint read_attempts (srv : server) (first last max_retries : Z)
    (attempts : list Z) : M (option bytes) :=
  match attempts with
  | [] => ret None
  | attempt :: later =>
      catch
        (response <- session_get srv first last ;;
         let '(status_code, content) := response in
         if negb ((status_code =? 206) || (status_code =? 200))
         then raise (RangeRequestFailed status_code)
         else ret (Some content))
        (fun e =>
           if attempt <? max_retries - 1
           then
             let wait_time := 2 ^ attempt in
             time_sleep wait_time ;;;
             read_attempts srv first last max_retries later
           else raise (ReadFailed first last e))
  end.

Definition _read_bytes_opt (srv : server) (start length max_retries : Z)
    : M (option bytes) :=
  let last := start + length - 1 in
  read_attempts srv start last max_retries (py_range max_retries).

(** Every call site uses the default [max_retries = 3] and goes on to
    slice or unpack the result, which raises [TypeError] on [None]. *)
Definition _read_bytes (srv : server) (start length : Z) : M bytes :=
  r <- _read_bytes_opt srv start length 3 ;;
  match r with
  | Some data => ret data
  | None => raise TypeError
  end.

(** The body of [if header_id == 0x0001:] in [_parse_zip64_extra_field]:
    the record starts at [offset] and declares [data_size] bytes of data. *)
Definition zip64_record (extra_data : bytes) (offset data_size : Z)
    (compressed_size uncompressed_size local_header_offset : Z)
    : outcome (Z * Z * Z) :=
  let field_offset := 0 in
  let result_uncompressed := uncompressed_size in
  let result_compressed := compressed_size in
  let result_offset := local_header_offset in
  p <~ (if (uncompressed_size =? 0xFFFFFFFF) && (field_offset + 8 <=? data_size)
        then v <~ unpack_uint 8 (slice extra_data (offset + 4 + field_offset)
                                                  (offset + 4 + field_offset + 8)) ;;
             Done (v, field_offset + 8)
        else Done (result_uncompressed, field_offset)) ;;
  let '(result_uncompressed, field_offset) := p in
  p <~ (if (compressed_size =? 0xFFFFFFFF) && (field_offset + 8 <=? data_size)
        then v <~ unpack_uint 8 (slice extra_data (offset + 4 + field_offset)
                                                  (offset + 4 + field_offset + 8)) ;;
             Done (v, field_offset + 8)
        else Done (result_compressed, field_offset)) ;;
  let '(result_compressed, field_offset) := p in
  result_offset <~
       (if (local_header_offset =? 0xFFFFFFFF) && (field_offset + 8 <=? data_size)
        then unpack_uint 8 (slice extra_data (offset + 4 + field_offset)
                                             (offset + 4 + field_offset + 8))
        else Done result_offset) ;;
  Done (result_uncompressed, result_compressed, result_offset).

(** The [while offset + 4 <= len(extra_data)] loop, from [offset] on. *)
Fixpoint zip64_extra_loop (fuel : nat) (extra_data : bytes)
    (compressed_size uncompressed_size local_header_offset offset : Z)
    : outcome (option (Z * Z * Z)) :=
  match fuel with
  | O => OutOfFuel
  | S fuel' =>
      if offset + 4 <=? len extra_data then
        header_id <~ unpack_uint 2 (slice extra_data offset (offset + 2)) ;;
        data_size <~ unpack_uint 2 (slice extra_data (offset + 2) (offset + 4)) ;;
        if header_id =? 0x0001 then
          r <~ zip64_record extra_data offset data_size
                 compressed_size uncompressed_size local_header_offset ;;
          Done (Some r)
        else
          zip64_extra_loop fuel' extra_data
            compressed_size uncompressed_size local_header_offset
            (offset + (4 + data_size))
      else Done None
  end.

(** Returns [(uncompressed, compressed, offset)], or [None] when the extra
    field has no ZIP64 record.  Every turn of the loop advances [offset] by
    at least 4, so [len(extra_data)] turns and one more test suffice. *)
Definition _parse_zip64_extra_field (extra_data : bytes)
    (compressed_size uncompressed_size local_header_offset : Z)
    : outcome (option (Z * Z * Z)) :=
  zip64_extra_loop (S (length extra_data)) extra_data
    compressed_size uncompressed_size local_header_offset 0.

(** How one turn of the central-directory loop ends. *)
Inductive cd_turn : Type :=
| CdBreak
| CdNext (offset file_count : Z) (files_info : list (Z * file_info)).

(** The [try:] block of one turn of the loop of [_parse_central_directory]. *)
Definition cd_entry (cd_data : bytes) (offset entry_count file_count : Z)
    (files_info : list (Z * file_info)) : outcome cd_turn :=
  let header_data := slice cd_data offset (offset + 46) in
  header <~ struct_unpack [4; 2; 2; 2; 2; 2; 2; 4; 4; 4; 2; 2; 2; 2; 2; 4; 4]
                          header_data ;;
  let signature := field 0 header in
  if negb (signature =? 0x02014b50) then Done CdBreak else
  let compression_method := field 4 header in
  let crc32 := field 7 header in
  let compressed_size := field 8 header in
  let uncompressed_size := field 9 header in
  let filename_len := field 10 header in
  let extra_len := field 11 header in
  let comment_len := field 12 header in
  let local_header_offset := field 16 header in
  let filename_start := offset + 46 in
  let filename_end := filename_start + filename_len in
  if filename_end >? len cd_data then Done CdBreak else
  let filename :=
    if filename_len >? 0
    then decode_utf8_ignore (slice cd_data filename_start filename_end)
    else lit "unnamed_file_" ++ str_of_int entry_count in
  let real_compressed_size := compressed_size in
  let real_uncompressed_size := uncompressed_size in
  let real_local_header_offset := local_header_offset in
  real <~
    (if extra_len >? 0 then
       let extra_start := filename_end in
       let extra_end := extra_start + extra_len in
       if extra_end <=? len cd_data then
         let extra_data := slice cd_data extra_start extra_end in
         zip64_info <~ _parse_zip64_extra_field extra_data
                         compressed_size uncompressed_size local_header_offset ;;
         match zip64_info with
         | Some info => Done info
         | None => Done (real_uncompressed_size, real_compressed_size,
                         real_local_header_offset)
         end
       else Done (real_uncompressed_size, real_compressed_size,
                  real_local_header_offset)
     else Done (real_uncompressed_size, real_compressed_size,
                real_local_header_offset)) ;;
  let '(real_uncompressed_size, real_compressed_size, real_local_header_offset) :=
    real in
  let '(files_info, file_count) :=
    if negb (endswith_char filename 47)
       && ((real_compressed_size >? 0) || (real_uncompressed_size >? 0))
    then (dict_set files_info file_count
            (FileInfo filename real_compressed_size real_uncompressed_size
                      compression_method real_local_header_offset crc32),
          file_count + 1)
    else (files_info, file_count) in
  Done (CdNext (offset + 46 + filename_len + extra_len + comment_len)
               file_count files_info).

(** The [while offset < len(cd_data)] loop.  An exception inside the
    [try:] block skips 46 bytes and goes on. *)
Fixpoint cd_walk (fuel : nat) (cd_data : bytes) (offset entry_count file_count : Z)
    (files_info : list (Z * file_info)) : outcome (list (Z * file_info)) :=
  match fuel with
  | O => OutOfFuel
  | S fuel' =>
      if offset <? len cd_data then
        let entry_count := entry_count + 1 in
        if offset + 46 >? len cd_data then Done files_info else
        match cd_entry cd_data offset entry_count file_count files_info with
        | Done CdBreak => Done files_info
        | Done (CdNext offset' file_count' files_info') =>
            cd_walk fuel' cd_data offset' entry_count file_count' files_info'
        | Raised _ =>
            cd_walk fuel' cd_data (offset + 46) entry_count file_count files_info
        | OutOfFuel => OutOfFuel
        end
      else Done files_info
  end.

(** One turn of the [for part in parts] loop of [parse_range]: the new
    value of [result]. *)
Definition parse_range_part (max_val : Z) (result : list Z) (part : str)
    : outcome (list Z) :=
  let part := strip part in
  match split_once 45 part with
  | Some (start, end_) =>
      except_ValueError
        (start_num <~ py_int (strip start) ;;
         end_num <~ py_int (strip end_) ;;
         if (start_num <=? end_num) && (start_num >=? 1) && (end_num <=? max_val)
         then Done (result ++ py_range2 start_num (end_num + 1))
         else Done result)
        (Done result)
  | None =>
      except_ValueError
        (num <~ py_int part ;;
         if (1 <=? num) && (num <=? max_val)
         then Done (result ++ [num])
         else Done result)
        (Done result)
  end.

Fixpoint parse_range_loop (max_val : Z) (result : list Z) (parts : list str)
    : outcome (list Z) :=
  match parts with
  | [] => Done result
  | part :: later =>
      result <~ parse_range_part max_val result part ;;
      parse_range_loop max_val result later
  end.

Definition parse_range (range_str : str) (max_val : Z) : outcome (list Z) :=
  let parts := split_char 44 range_str in
  result <~ parse_range_loop max_val [] parts ;;
  Done (sorted_set result).

Section Reader.

Variable srv : server.        (* the remote end of [self.session] *)
Variable file_size : Z.       (* [self.file_size] *)

Definition _fallback_find_zip64_locator : M (Z * Z) :=
  let zip64_locator_sig := [x50; x4b; x06; x07] in
  let search_size := Z.min 8192 file_size in
  let start_pos := Z.max 0 (file_size - search_size) in
  data <- _read_bytes srv start_pos search_size ;;
  match scan_signature zip64_locator_sig data (py_range_down (len data - 20)) with
  | None => raise LocatorNotFound
  | Some i =>
      let zip64_locator_pos := start_pos + i in
      locator_data <- _read_bytes srv zip64_locator_pos 20 ;;
      t <- lift (struct_unpack [4; 4; 8; 4] locator_data) ;;
      let zip64_eocd_offset := field 2 t in
      let total_disks := field 3 t in
      ret (zip64_eocd_offset, total_disks)
  end.

Definition _find_zip64_end_of_central_directory (eocd_offset : Z) : M (Z * Z) :=
  let zip64_locator_offset := eocd_offset - 20 in
  if zip64_locator_offset <? 0 then raise LocatorNegativeOffset else
  locator_data <- catch (_read_bytes srv zip64_locator_offset 20)
                        (fun e => raise (LocatorReadFailed e)) ;;
  signature <- lift (unpack_uint 4 (slice locator_data 0 4)) ;;
  if negb (signature =? 0x07064b50) then _fallback_find_zip64_locator else
  t <- lift (struct_unpack [4; 8; 4] (slice locator_data 4 20)) ;;
  let zip64_eocd_offset := field 1 t in
  let total_disks := field 2 t in
  ret (zip64_eocd_offset, total_disks).

(** The test that sends [_find_end_of_central_directory] to the ZIP64
    records: [cd_offset == 0xFFFFFFFF or cd_entries_total == 0xFFFF]. *)
Definition zip64_detected (cd_offset cd_size cd_entries_total : Z) : bool :=
  (cd_offset =? 0xFFFFFFFF) || (cd_entries_total =? 0xFFFF).

Definition _find_end_of_central_directory : M (Z * Z) :=
  let eocd_signature := [x50; x4b; x05; x06] in
  let search_size := Z.min 4096 file_size in
  let start_pos := file_size - search_size in
  data <- _read_bytes srv start_pos search_size ;;
  match scan_signature eocd_signature data (py_range_down (len data - 22)) with
  | Some i =>
      let eocd_offset := start_pos + i in
      let eocd_data := slice data i (i + 22) in
      t <- lift (struct_unpack [4; 2; 2; 2; 2; 4; 4; 2] eocd_data) ;;
      let cd_entries_total := field 4 t in
      let cd_size := field 5 t in
      let cd_offset := field 6 t in
      if zip64_detected cd_offset cd_size cd_entries_total then
        loc <- _find_zip64_end_of_central_directory eocd_offset ;;
        let '(zip64_eocd_offset, total_disks) := loc in
        zip64_eocd_data <- _read_bytes srv zip64_eocd_offset 56 ;;
        t64 <- lift (struct_unpack [4; 8; 2; 2; 4; 4; 8; 8; 8; 8]
                                   (slice zip64_eocd_data 0 56)) ;;
        let cd_size := field 8 t64 in
        let cd_offset := field 9 t64 in
        ret (cd_offset, cd_size)
      else ret (cd_offset, cd_size)
  | None => raise EocdNotFound
  end.

(** Returns the catalog [self.files_info], built from an empty one (the
    only call is guarded by [if not self.files_info]).  Every turn of the
    loop advances [offset] by at least 46. *)
Definition _parse_central_directory : M (list (Z * file_info)) :=
  cd <- _find_end_of_central_directory ;;
  let '(cd_offset, cd_size) := cd in
  cd_data <- _read_bytes srv cd_offset cd_size ;;
  lift (cd_walk (S (length cd_data)) cd_data 0 0 0 []).

(** The ZIP64 loop of [_get_local_file_header_info]; returns the
    (possibly replaced) [compressed_size]. *)
Fixpoint local_zip64_loop (fuel : nat) (extra_data : bytes)
    (compressed_size uncompressed_size offset : Z) : outcome Z :=
  match fuel with
  | O => OutOfFuel
  | S fuel' =>
      if offset + 4 <=? len extra_data then
        header_id <~ unpack_uint 2 (slice extra_data offset (offset + 2)) ;;
        data_size <~ unpack_uint 2 (slice extra_data (offset + 2) (offset + 4)) ;;
        if header_id =? 0x0001 then
          let field_offset := 0 in
          p <~ (if (uncompressed_size =? 0xFFFFFFFF) && (field_offset + 8 <=? data_size)
                then v <~ unpack_uint 8 (slice extra_data (offset + 4 + field_offset)
                                                 (offset + 4 + field_offset + 8)) ;;
                     Done (v, field_offset + 8)
                else Done (uncompressed_size, field_offset)) ;;
          let '(uncompressed_size, field_offset) := p in
          if (compressed_size =? 0xFFFFFFFF) && (field_offset + 8 <=? data_size)
          then unpack_uint 8 (slice extra_data (offset + 4 + field_offset)
                                               (offset + 4 + field_offset + 8))
          else Done compressed_size
        else
          local_zip64_loop fuel' extra_data compressed_size uncompressed_size
            (offset + (4 + data_size))
      else Done compressed_size
  end.

(** Returns [(data_offset, compressed_size, compression_method)]. *)
Definition _get_local_file_header_info (local_header_offset : Z) : M (Z * Z * Z) :=
  header_data <- _read_bytes srv local_header_offset 30 ;;
  signature <- lift (unpack_uint 4 (slice header_data 0 4)) ;;
  if negb (signature =? 0x04034b50)
  then raise (InvalidLocalHeaderSignature signature) else
  t <- lift (struct_unpack [2; 2; 2; 2; 2; 4; 4; 4; 2; 2] (slice header_data 4 30)) ;;
  let compression_method := field 2 t in
  let compressed_size := field 6 t in
  let uncompressed_size := field 7 t in
  let filename_len := field 8 t in
  let extra_len := field 9 t in
  variable_data <- _read_bytes srv (local_header_offset + 30) (filename_len + extra_len) ;;
  let data_offset := local_header_offset + 30 + filename_len + extra_len in
  compressed_size <-
    (if (extra_len >? 0)
        && ((compressed_size =? 0xFFFFFFFF) || (uncompressed_size =? 0xFFFFFFFF))
     then
       let extra_data := slice variable_data filename_len (filename_len + extra_len) in
       lift (local_zip64_loop (S (length extra_data)) extra_data
               compressed_size uncompressed_size 0)
     else ret compressed_size) ;;
  ret (data_offset, compressed_size, compression_method).

Variable files_info : list (Z * file_info).     (* [self.files_info] *)
Variable current_display_mapping : gmap Z Z.    (* [self.current_display_mapping] *)

Definition _get_actual_file_index (display_index : Z) : Z :=
  match current_display_mapping !! display_index with
  | Some actual => actual
  | None => display_index
  end.

(** What [download_file] has fixed when it starts its workers. *)
Record chunk_plan : Type := ChunkPlan {
  data_offset : Z;
  expected_size : Z;
  chunk_size : Z;
  max_workers : Z;
  total_chunks : Z
}.

(** [download_file] up to the creation of the worker pool.  [None] is the
    early [return False] for an invalid file number; an exception here is
    turned into [return False] by the enclosing [try].  The output
    directory and progress output are not modelled. *)
Definition download_file_plan (display_file_number max_workers : Z)
    : M (option chunk_plan) :=
  let actual_file_index := _get_actual_file_index (display_file_number - 1) in
  if (actual_file_index <? 0) || (actual_file_index >=? len files_info)
  then ret None else
  match dict_get files_info actual_file_index with
  | None => raise KeyError
  | Some file_info =>
      let local_header_offset := local_header_offset file_info in
      let expected_size := compressed_size file_info in
      probe <- _get_local_file_header_info local_header_offset ;;
      let '(data_offset, actual_compressed_size, _) := probe in
      let expected_size :=
        if actual_compressed_size >? expected_size
        then actual_compressed_size else expected_size in
      let '(chunk_size, max_workers) :=
        if expected_size >? 1024 * 1024 * 1024 then (16 * 1024 * 1024, 2)
        else if expected_size >? 100 * 1024 * 1024 then (8 * 1024 * 1024, 3)
        else (4 * 1024 * 1024, max_workers) in
      let total_chunks := (expected_size + chunk_size - 1) / chunk_size in
      ret (Some (ChunkPlan data_offset expected_size chunk_size max_workers
                           total_chunks))
  end.

(** The default of the [max_workers] parameter; no call site overrides it. *)
Definition default_max_workers : Z := 4.

(** The first and last byte [fetch_chunk(idx)] asks for. *)
Definition fetch_chunk_range (p : chunk_plan) (idx : Z) : Z * Z :=
  let start := data_offset p + idx * chunk_size p in
  let end_ := Z.min (start + chunk_size p - 1) (data_offset p + expected_size p - 1) in
  (start, end_).

Definition fetch_chunk (p : chunk_plan) (idx : Z) : M (Z * bytes) :=
  let '(start, end_) := fetch_chunk_range p idx in
  chunk <- _read_bytes srv start (end_ - start + 1) ;;
  ret (idx, chunk).

End Reader.

(** What [re.compile(p, re.IGNORECASE)] does: it returns a compiled
    pattern, raises [re.error], or raises another exception (an
    [OverflowError] for a repeat count that is too large, for one). *)
Inductive compiled (regex : Type) : Type :=
| Compiled (pattern : regex)
| ReError
| CompileRaised (e : exn).
Arguments Compiled {regex} pattern.
Arguments ReError {regex}.
Arguments CompileRaised {regex} e.

Section Listing.

(** The [re] module and [str.lower] are taken as given: [re_compile p] is
    [re.compile(p, re.IGNORECASE)]; [re_search r s] tells whether
    [r.search(s)] finds a match. *)
Variable regex : Type.
Variable re_compile : str -> compiled regex.
Variable re_search : regex -> str -> bool.
Variable lower : str -> str.

(** The two [for idx, info in self.files_info.items()] loops: entries
    accepted by [keep] are numbered in the order they are met. *)
Definition filter_entries (keep : str -> bool) (files_info : list (Z * file_info))
    : list (Z * file_info) * gmap Z Z :=
  fold_left
    (fun acc entry =>
       let '(files_to_display, current_display_mapping) := acc in
       let '(idx, info) := entry in
       if keep (filename info) then
         let display_idx := len files_to_display in
         (dict_set files_to_display display_idx info,
          <[display_idx := idx]> current_display_mapping)
       else acc)
    files_info ([], ∅).

(** [{i: i for i in self.files_info.keys()}] *)
Definition identity_mapping (files_info : list (Z * file_info)) : gmap Z Z :=
  list_to_map (map (fun i => (i, i)) (dict_keys files_info)).

(** The [if not files_to_display] that follows the two loops. *)
Definition shown_or_all (files_info : list (Z * file_info))
    (view : list (Z * file_info) * gmap Z Z)
    : outcome (list (Z * file_info)) * gmap Z Z :=
  let '(files_to_display, current_display_mapping) := view in
  match files_to_display with
  | [] => (Done files_info, identity_mapping files_info)
  | _ :: _ => (Done files_to_display, current_display_mapping)
  end.

(** [list_files] once the catalog is loaded, up to the printing: returns
    [files_to_display], or the exception that leaves [list_files], and
    [self.current_display_mapping] as it stands afterwards.  Only
    [re.error] is caught: another exception of [re.compile] leaves
    [list_files] with the mapping emptied by the assignment that
    precedes the [try]. *)
Definition list_files_view (files_info : list (Z * file_info))
    (filter_pattern : option str)
    : outcome (list (Z * file_info)) * gmap Z Z :=
  match filter_pattern with
  | Some (c :: p) =>
      let filter_pattern := c :: p in
      match re_compile filter_pattern with
      | Compiled pattern =>
          shown_or_all files_info (filter_entries (re_search pattern) files_info)
      | ReError =>
          let filter_lower := lower filter_pattern in
          shown_or_all files_info
            (filter_entries (fun name => contains filter_lower (lower name)) files_info)
      | CompileRaised e => (Raised e, ∅)
      end
  | _ => (Done files_info, identity_mapping files_info)
  end.

(** [list_files]: loads the catalog on first use.  Returns the catalog
    and what [list_files_view] gives for it. *)
Definition list_files (srv : server) (file_size : Z)
    (files_info : list (Z * file_info)) (filter_pattern : option str)
    : M (list (Z * file_info) * (outcome (list (Z * file_info)) * gmap Z Z)) :=
  files_info <- (match files_info with
                 | [] => _parse_central_directory srv file_size
                 | _ :: _ => ret files_info
                 end) ;;
  ret (files_info, list_files_view files_info filter_pattern).

(** [search_files] once the catalog is loaded: the keys of the entries
    whose name the pattern matches, in catalog order. *)
Definition search_files (files_info : list (Z * file_info)) (pattern : str)
    : outcome (list Z) :=
  match re_compile pattern with
  | Compiled regex_ =>
      Done (map fst (filter (fun entry => re_search regex_ (filename (snd entry)) = true)
                            files_info))
  | ReError =>
      let pattern_lower := lower pattern in
      Done (map fst (filter (fun entry =>
                               contains pattern_lower (lower (filename (snd entry))) = true)
                            files_info))
  | CompileRaised e => Raised e
  end.

End Listing.

(** [s.replace(a, b)] for one-character [a] and [b]. *)
Definition replace_char (a b : Z) (s : str) : str :=
  map (fun c => if c =? a then b else c) s.

(** One turn of the [for p in parts] loop of [download_file]: slash,
    backslash, colon, asterisk, question mark, double quote, angle
    brackets and bar become [_]. *)
Definition sanitize_part (p : str) : str :=
  replace_char 124 95 (replace_char 62 95 (replace_char 60 95 (replace_char 34 95
    (replace_char 63 95 (replace_char 42 95 (replace_char 58 95
      (replace_char 92 95 (replace_char 47 95 p)))))))).

(** [safe_parts] of [download_file], from the member name. *)
Definition safe_parts (internal_path : str) : list str :=
  map sanitize_part (split_char 47 internal_path).

(** [b''.join(downloaded_chunks)]: a slot still at [None] is a [TypeError]. *)
Fixpoint join_chunks (downloaded_chunks : list (option bytes)) : outcome bytes :=
  match downloaded_chunks with
  | [] => Done []
  | Some chunk :: later => rest <~ join_chunks later ;; Done (chunk ++ rest)
  | None :: _ => Raised TypeError
  end.

(** The [for future in as_completed(futures)] loop: each result
    [(idx, chunk_data)], in the order the futures complete, goes to slot
    [idx]. *)
Definition store_chunks (completed : list (Z * bytes))
    (downloaded_chunks : list (option bytes)) : list (option bytes) :=
  fold_left (fun slots result => <[Z.to_nat (fst result) := Some (snd result)]> slots)
            completed downloaded_chunks.

(** A task of a thread pool, run to its end: what its future holds. *)
Definition settle {A} (task : M A) : M (outcome A) :=
  fun w => let '(result, w') := task w in (Done result, w').

(** The calls of [future.result()] in the order the futures complete: the
    first exception ends the loop. *)
Fixpoint future_results {A} (futures : list (outcome A)) : outcome (list A) :=
  match futures with
  | [] => Done []
  | future :: later =>
      result <~ future ;;
      results <~ future_results later ;;
      Done (result :: results)
  end.

(** What [download_file] has written when it returns [True]. *)
Record artifact : Type := Artifact {
  art_path : str;                (* [output_path] *)
  art_parts : list str;          (* [safe_parts] *)
  art_data : bytes;              (* [final_data] *)
  art_crc_ok : option bool       (* result of the CRC check, if it ran *)
}.

(** What [download_file] asks of the operating system and of the clock.
    An answer may depend on what has happened so far (the [world]); an
    exception is an answer like another. *)
Record system : Type := System {
  (* [os.path.join(os.getcwd(),
      os.path.splitext(get_filename_from_headers(self.original_url))[0])]:
      a HEAD request on a session of its own, then the directory named
      after the archive; the directory or the exception raised on the
      way, and the world afterwards. *)
  default_output_dir : world -> (str + exn) * world;
  (* [os.path.join(output_dir, *safe_parts)] *)
  os_path_join : str -> list str -> str;
  (* [os.path.dirname(path)] *)
  os_path_dirname : str -> str;
  (* [os.makedirs(path, exist_ok=True)]: the exception it raises, if any *)
  os_makedirs : world -> str -> option exn;
  (* [with open(path, 'wb') as f: f.write(data)]: the exception raised,
      if any *)
  write_file : world -> str -> bytes -> option exn;
  (* [time.time() - start_time == 0.0] at the end of the download *)
  no_time_elapsed : world -> bool
}.

(** A call whose only result is the exception it may raise. *)
Definition call (answer : world -> option exn) : M unit :=
  fun w => match answer w with
           | None => (Done tt, w)
           | Some e => (Raised e, w)
           end.

Section Download.

Variable srv : server.
Variable files_info : list (Z * file_info).
Variable current_display_mapping : gmap Z Z.

(** The codecs and the checksum come from the Python library:
    [zlib.decompress(data, -15)], [bz2.decompress], [lzma.decompress]
    ([None] when they raise) and [binascii.crc32]. *)
Variable zlib_decompress : bytes -> option bytes.
Variable bz2_decompress : bytes -> option bytes.
Variable lzma_decompress : bytes -> option bytes.
Variable binascii_crc32 : bytes -> Z.

(** The order in which the futures of a pool of [n] tasks complete. *)
Variable schedule : Z -> list Z.

(** The file system and the clock. *)
Variable os : system.

(** [None] is Python's [None]: unsupported method, or the codec raised. *)
Definition decompress_data (data : bytes) (compression_method uncompressed_size : Z)
    : option bytes :=
  if compression_method =? 0 then Some data
  else if compression_method =? 8 then zlib_decompress data
  else if compression_method =? 12 then bz2_decompress data
  else if compression_method =? 14 then lzma_decompress data
  else None.

Definition _verify_crc32 (data : bytes) (expected_crc32 : Z) : bool :=
  let calculated_crc32 := Z.land (binascii_crc32 data) 0xFFFFFFFF in
  calculated_crc32 =? expected_crc32.

(** The tasks of the pool, run one after the other in the order [order];
    the interleaving of their requests is not modelled.  Every task runs
    to its end, also when an earlier one has raised: leaving the [with]
    block waits for all of them.  A future holds what [future.result()]
    will give, the value of the task or the exception it raised. *)
Fixpoint run_pool (p : chunk_plan) (order : list Z)
    : M (list (outcome (Z * bytes))) :=
  match order with
  | [] => ret []
  | idx :: later =>
      future <- settle (fetch_chunk srv p idx) ;;
      futures <- run_pool p later ;;
      ret (future :: futures)
  end.

(** [output_dir] as it stands after the [if output_dir is None]. *)
Definition resolve_output_dir (output_dir : option str) : M str :=
  match output_dir with
  | Some dir => ret dir
  | None =>
      fun w => match default_output_dir os w with
               | (inl dir, w') => (Done dir, w')
               | (inr e, w') => (Raised e, w')
               end
  end.

(** [download_file].  [None] is [return False], [Some] is [return True]
    with what was written.  The chunk geometry, which the source
    computes between the second [os.makedirs] and the pool, comes from
    [download_file_plan]: it depends on the probe only. *)
Definition download_file (display_file_number : Z) (output_dir : option str)
    (max_workers : Z) (verify_integrity : bool) : M (option artifact) :=
  catch
    (plan <- download_file_plan srv files_info current_display_mapping
               display_file_number max_workers ;;
     match plan with
     | None => ret None
     | Some p =>
         let actual_file_index :=
           _get_actual_file_index current_display_mapping (display_file_number - 1) in
         match dict_get files_info actual_file_index with
         | None => raise KeyError
         | Some file_info =>
             let uncompressed_size := uncompressed_size file_info in
             let expected_crc32 := crc32 file_info in
             let compression_method := compression_method file_info in
             output_dir <- resolve_output_dir output_dir ;;
             call (fun w => os_makedirs os w output_dir) ;;;
             let safe_parts := safe_parts (filename file_info) in
             let output_path := os_path_join os output_dir safe_parts in
             call (fun w => os_makedirs os w (os_path_dirname os output_path)) ;;;
             let downloaded_chunks := replicate (Z.to_nat (total_chunks p)) None in
             futures <- run_pool p (schedule (total_chunks p)) ;;
             completed <- lift (future_results futures) ;;
             let downloaded_chunks := store_chunks completed downloaded_chunks in
             compressed_data <- lift (join_chunks downloaded_chunks) ;;
             let final_data := compressed_data in
             let '(final_data, verify_integrity) :=
               if negb (compression_method =? 0) then
                 match decompress_data compressed_data compression_method
                         uncompressed_size with
                 | Some decompressed => (decompressed, verify_integrity)
                 | None => (final_data, false)
                 end
               else (final_data, verify_integrity) in
             let crc_ok :=
               if verify_integrity
               then Some (_verify_crc32 final_data expected_crc32)
               else None in
             call (fun w => write_file os w output_path final_data) ;;;
             (* [expected_size / elapsed_total] in the last message *)
             call (fun w => if no_time_elapsed os w
                            then Some ZeroDivisionError else None) ;;;
             ret (Some (Artifact output_path safe_parts final_data crc_ok))
         end
     end)
    (fun e => ret None).

(** The [for ... in enumerate(actual_file_numbers, 1)] loop of
    [download_bulk]. *)
Fixpoint download_bulk_loop (output_dir : option str) (verify_integrity : bool)
    (actual_file_numbers : list Z) (results : list (Z * bool)) : M (list (Z * bool)) :=
  match actual_file_numbers with
  | [] => ret results
  | actual_file_num :: later =>
      downloaded <- download_file (actual_file_num + 1) output_dir default_max_workers
                      verify_integrity ;;
      let success := match downloaded with Some _ => true | None => false end in
      download_bulk_loop output_dir verify_integrity later
        (dict_set results actual_file_num success)
  end.

(** The report of the failed files: [self.files_info[file_num]] for each
    failed [file_num]. *)
Fixpoint report_failed (results : list (Z * bool)) : outcome unit :=
  match results with
  | [] => Done tt
  | (file_num, success) :: later =>
      if negb success then
        match dict_get files_info file_num with
        | Some _ => report_failed later
        | None => Raised KeyError
        end
      else report_failed later
  end.

Definition download_bulk (display_file_numbers : list Z) (output_dir : option str)
    (verify_integrity : bool) : M (list (Z * bool)) :=
  let actual_file_numbers :=
    map (fun num => _get_actual_file_index current_display_mapping (num - 1))
        display_file_numbers in
  let total_files := len actual_file_numbers in
  results <- download_bulk_loop output_dir verify_integrity actual_file_numbers [] ;;
  let successful := len (filter (fun kv => snd kv = true) results) in
  let failed := total_files - successful in
  (if failed >? 0 then lift (report_failed results) else ret tt) ;;;
  ret results.

End Download.

End Peekxtract.

(** ** main.py *)

Module Main.

Definition _read_bytes (srv : server) (start length : Z) : M bytes :=
  let last := start + length - 1 in
  catch
    (response <- session_get srv start last ;;
     let '(status_code, content) := response in
     if negb ((status_code =? 206) || (status_code =? 200))
     then raise (RangeRequestFailed status_code)
     else ret content)
    (fun e => raise (ReadFailed start last e)).

Fixpoint zip64_extra_loop (fuel : nat) (extra_data : bytes)
    (compressed_size uncompressed_size local_header_offset offset : Z)
    : outcome (option (Z * Z * Z)) :=
  match fuel with
  | O => OutOfFuel
  | S fuel' =>
      if offset + 4 <=? len extra_data then
        header_id <~ unpack_uint 2 (slice extra_data offset (offset + 2)) ;;
        data_size <~ unpack_uint 2 (slice extra_data (offset + 2) (offset + 4)) ;;
        if header_id =? 0x0001 then
          let zip64_data := slice extra_data (offset + 4) (offset + 4 + data_size) in
          let zip64_offset := 0 in
          let real_uncompressed_size := uncompressed_size in
          let real_compressed_size := compressed_size in
          let real_local_header_offset := local_header_offset in
          p <~ (if (uncompressed_size =? 0xFFFFFFFF) && (zip64_offset + 8 <=? len zip64_data)
                then v <~ unpack_uint 8 (slice zip64_data zip64_offset (zip64_offset + 8)) ;;
                     Done (v, zip64_offset + 8)
                else Done (real_uncompressed_size, zip64_offset)) ;;
          let '(real_uncompressed_size, zip64_offset) := p in
          p <~ (if (compressed_size =? 0xFFFFFFFF) && (zip64_offset + 8 <=? len zip64_data)
                then v <~ unpack_uint 8 (slice zip64_data zip64_offset (zip64_offset + 8)) ;;
                     Done (v, zip64_offset + 8)
                else Done (real_compressed_size, zip64_offset)) ;;
          let '(real_compressed_size, zip64_offset) := p in
          p <~ (if (local_header_offset =? 0xFFFFFFFF) && (zip64_offset + 8 <=? len zip64_data)
                then v <~ unpack_uint 8 (slice zip64_data zip64_offset (zip64_offset + 8)) ;;
                     Done (v, zip64_offset + 8)
                else Done (real_local_header_offset, zip64_offset)) ;;
          let '(real_local_header_offset, zip64_offset) := p in
          Done (Some (real_uncompressed_size, real_compressed_size,
                      real_local_header_offset))
        else
          zip64_extra_loop fuel' extra_data
            compressed_size uncompressed_size local_header_offset
            (offset + (4 + data_size))
      else Done None
  end.

Definition _parse_zip64_extra_field (extra_data : bytes)
    (compressed_size uncompressed_size local_header_offset : Z)
    : outcome (option (Z * Z * Z)) :=
  zip64_extra_loop (S (length extra_data)) extra_data
    compressed_size uncompressed_size local_header_offset 0.

Section Reader.

Variable srv : server.
Variable file_size : Z.

(** Shared tail of both locator paths: read the ZIP64 EOCD at
    [zip64_eocd_offset] and return [(cd_offset, cd_size)] from it. *)
Definition read_zip64_eocd (zip64_eocd_offset : Z) : M (Z * Z) :=
  zip64_eocd_header <- _read_bytes srv zip64_eocd_offset 12 ;;
  t <- lift (struct_unpack [4; 8] zip64_eocd_header) ;;
  let signature := field 0 t in
  let eocd64_size := field 1 t in
  if negb (signature =? 0x06064b50) then raise (InvalidZip64EocdSignature signature) else
  full_zip64_eocd <- _read_bytes srv zip64_eocd_offset (Z.min (eocd64_size + 12) 1024) ;;
  if len full_zip64_eocd <? 56 then raise Zip64EocdTooShort else
  cd_size <- lift (unpack_uint 8 (slice full_zip64_eocd 40 48)) ;;
  cd_offset <- lift (unpack_uint 8 (slice full_zip64_eocd 48 56)) ;;
  ret (cd_offset, cd_size).

Definition _search_zip64_locator_fallback : M (Z * Z) :=
  let zip64_locator_sig := [x50; x4b; x07; x06] in
  let search_size := Z.min 8192 file_size in
  let start_pos := Z.max 0 (file_size - search_size) in
  data <- _read_bytes srv start_pos search_size ;;
  match scan_signature zip64_locator_sig data (py_range_down (len data - 20)) with
  | None => raise LocatorNotFound
  | Some i =>
      let zip64_locator_pos := start_pos + i in
      locator_data <- _read_bytes srv zip64_locator_pos 20 ;;
      t <- lift (struct_unpack [4; 4; 8; 4] locator_data) ;;
      let zip64_eocd_offset := field 2 t in
      read_zip64_eocd zip64_eocd_offset
  end.

Definition _find_zip64_end_of_central_directory (eocd_offset : Z) : M (Z * Z) :=
  let zip64_locator_offset := eocd_offset - 20 in
  if zip64_locator_offset <? 0 then raise LocatorNegativeOffset else
  locator_data <- catch (_read_bytes srv zip64_locator_offset 20)
                        (fun e => raise (LocatorReadFailed e)) ;;
  signature <- lift (unpack_uint 4 (slice locator_data 0 4)) ;;
  if negb (signature =? 0x07064b50) then _search_zip64_locator_fallback else
  t <- lift (struct_unpack [4; 4; 8; 4] locator_data) ;;
  let zip64_eocd_offset := field 2 t in
  catch (read_zip64_eocd zip64_eocd_offset)
        (fun e => raise (Zip64EocdFailed e)).

(** [cd_offset == 0xFFFFFFFF or cd_entries_total == 0xFFFF or
    cd_size == 0xFFFFFFFF] *)
Definition zip64_detected (cd_offset cd_size cd_entries_total : Z) : bool :=
  (cd_offset =? 0xFFFFFFFF) || (cd_entries_total =? 0xFFFF) || (cd_size =? 0xFFFFFFFF).

Definition _find_end_of_central_directory : M (Z * Z) :=
  let eocd_signature := [x50; x4b; x05; x06] in
  let search_size := Z.min 4096 file_size in
  let start_pos := file_size - search_size in
  data <- _read_bytes srv start_pos search_size ;;
  match scan_signature eocd_signature data (py_range_down (len data - 22)) with
  | Some i =>
      let eocd_offset := start_pos + i in
      let eocd_data := slice data i (i + 22) in
      t <- lift (struct_unpack [4; 2; 2; 2; 2; 4; 4; 2] eocd_data) ;;
      let cd_entries_total := field 4 t in
      let cd_size := field 5 t in
      let cd_offset := field 6 t in
      if zip64_detected cd_offset cd_size cd_entries_total
      then _find_zip64_end_of_central_directory eocd_offset
      else ret (cd_offset, cd_size)
  | None => raise EocdNotFound
  end.

End Reader.

End Main.

(** * Specification-level vocabulary and concrete inputs *)

(** ** The ranged read *)

(** The body [_read_bytes] returns for a reply it accepts. *)
Definition accepted (rp : reply) : option bytes :=
  match rp with
  | Response st body => if (st =? 206) || (st =? 200) then Some body else None
  | NoResponse => None
  end.

(** The exception a reply that is not accepted raises inside the [try]. *)
Definition cause_of (rp : reply) : exn :=
  match rp with
  | Response st _ => RangeRequestFailed st
  | NoResponse => RequestError
  end.

(** A server that is down. *)
Definition dead_server : server := fun _ _ => NoResponse.

(** A server that ignores [Range] and answers [200] with the whole file. *)
Definition whole_file_server (file : bytes) : server := fun _ _ => Response 200 file.

(** A server that fails the first [n] requests and then serves [file]. *)
Definition flaky_server (n : nat) (file : bytes) : server :=
  fun history rq =>
    if decide (length history < n)%nat then NoResponse else file_server file history rq.

Definition six_bytes : bytes := [x50; x4b; x03; x04; x14; x00].

(** ** Archives used as concrete inputs *)

(** A ZIP archive with one stored member [hello.txt] holding
    [hello world] (127 bytes: local header at 0, payload at 39, central
    directory at 50, EOCD at 105). *)
Definition hello_zip : bytes :=
  [x50; x4b; x03; x04; x14; x00; x00; x00; x00; x00; x00; x00;
   x21; x58; x85; x11; x4a; x0d; x0b; x00; x00; x00; x0b; x00;
   x00; x00; x09; x00; x00; x00; x68; x65; x6c; x6c; x6f; x2e;
   x74; x78; x74; x68; x65; x6c; x6c; x6f; x20; x77; x6f; x72;
   x6c; x64; x50; x4b; x01; x02; x14; x03; x14; x00; x00; x00;
   x00; x00; x00; x00; x21; x58; x85; x11; x4a; x0d; x0b; x00;
   x00; x00; x0b; x00; x00; x00; x09; x00; x00; x00; x00; x00;
   x00; x00; x00; x00; x00; x00; x80; x01; x00; x00; x00; x00;
   x68; x65; x6c; x6c; x6f; x2e; x74; x78; x74; x50; x4b; x05;
   x06; x00; x00; x00; x00; x01; x00; x01; x00; x37; x00; x00;
   x00; x32; x00; x00; x00; x00; x00].

(** A ZIP archive with one stored member whose file name is the three
    bytes [61 ff 62]: [a], a byte that is not UTF-8, [b] (109 bytes:
    local header at 0, central directory at 38, EOCD at 87). *)
Definition bad_name_zip : bytes :=
  [x50; x4b; x03; x04; x14; x00; x00; x00; x00; x00; x00; x00;
   x00; x00; x86; xa6; x10; x36; x05; x00; x00; x00; x05; x00;
   x00; x00; x03; x00; x00; x00; x61; xff; x62; x68; x65; x6c;
   x6c; x6f; x50; x4b; x01; x02; x14; x00; x14; x00; x00; x00;
   x00; x00; x00; x00; x00; x00; x86; xa6; x10; x36; x05; x00;
   x00; x00; x05; x00; x00; x00; x03; x00; x00; x00; x00; x00;
   x00; x00; x00; x00; x00; x00; x00; x00; x00; x00; x00; x00;
   x61; xff; x62; x50; x4b; x05; x06; x00; x00; x00; x00; x01;
   x00; x01; x00; x31; x00; x00; x00; x26; x00; x00; x00; x00;
   x00].

(** An archive tail: a central directory of one record (51 bytes) at
    0, a ZIP64 EOCD at 51 that says so, its locator at 107, and at 127 an
    EOCD whose [cd_size] alone is [0xFFFFFFFF] ([cd_offset] = 0,
    [cd_entries_total] = 1). *)
Definition trailer_cd_size_sentinel : bytes :=
  [x50; x4b; x01; x02; x14; x00; x14; x00; x00; x00; x00; x00;
   x00; x00; x00; x00; x78; x56; x34; x12; x05; x00; x00; x00;
   x05; x00; x00; x00; x05; x00; x00; x00; x00; x00; x00; x00;
   x00; x00; x00; x00; x00; x00; x00; x00; x00; x00; x61; x2e;
   x62; x69; x6e; x50; x4b; x06; x06; x2c; x00; x00; x00; x00;
   x00; x00; x00; x2d; x00; x2d; x00; x00; x00; x00; x00; x00;
   x00; x00; x00; x01; x00; x00; x00; x00; x00; x00; x00; x01;
   x00; x00; x00; x00; x00; x00; x00; x33; x00; x00; x00; x00;
   x00; x00; x00; x00; x00; x00; x00; x00; x00; x00; x00; x50;
   x4b; x06; x07; x00; x00; x00; x00; x33; x00; x00; x00; x00;
   x00; x00; x00; x01; x00; x00; x00; x50; x4b; x05; x06; x00;
   x00; x00; x00; x01; x00; x01; x00; xff; xff; xff; xff; x00;
   x00; x00; x00; x00; x00].

(** An archive tail of 153 bytes: a central directory of one record at
    0, a ZIP64 EOCD at 51, its locator at 107, four stray bytes, and at
    131 an EOCD with all three sentinels; the locator is not at
    [eocd_offset - 20]. *)
Definition displaced_locator_archive : bytes :=
  [x50; x4b; x01; x02; x14; x00; x14; x00; x00; x00; x00; x00;
   x00; x00; x00; x00; x78; x56; x34; x12; x05; x00; x00; x00;
   x05; x00; x00; x00; x05; x00; x00; x00; x00; x00; x00; x00;
   x00; x00; x00; x00; x00; x00; x00; x00; x00; x00; x61; x2e;
   x62; x69; x6e; x50; x4b; x06; x06; x2c; x00; x00; x00; x00;
   x00; x00; x00; x2d; x00; x2d; x00; x00; x00; x00; x00; x00;
   x00; x00; x00; x01; x00; x00; x00; x00; x00; x00; x00; x01;
   x00; x00; x00; x00; x00; x00; x00; x33; x00; x00; x00; x00;
   x00; x00; x00; x00; x00; x00; x00; x00; x00; x00; x00; x50;
   x4b; x06; x07; x00; x00; x00; x00; x33; x00; x00; x00; x00;
   x00; x00; x00; x01; x00; x00; x00; x00; x00; x00; x00; x50;
   x4b; x05; x06; x00; x00; x00; x00; xff; xff; xff; xff; xff;
   xff; xff; xff; xff; xff; xff; xff; x00; x00].

(** The catalog of [hello_zip]. *)
Definition hello_catalog : list (Z * file_info) :=
  [(0, FileInfo (lit "hello.txt") 11 11 0 0 0x0d4a1185)].

(** ** ZIP64 extra fields *)

(** [struct.pack] of one little-endian unsigned field of [n] bytes. *)
Definition byte_of_Z (v : Z) : byte :=
  match Byte.of_N (Z.to_N (v mod 256)) with
  | Some b => b
  | None => x00
  end.

Fixpoint le_bytes (n : nat) (v : Z) : bytes :=
  match n with
  | O => []
  | S n' => byte_of_Z v :: le_bytes n' (v / 256)
  end.

(** One record of an extra field: header ID, data size, data. *)
Definition extra_record (rec : Z * bytes) : bytes :=
  le_bytes 2 (fst rec) ++ le_bytes 2 (len (snd rec)) ++ snd rec.

(** A record the ZIP64 scan steps over. *)
Definition foreign_record (rec : Z * bytes) : Prop :=
  0 <= fst rec < 65536 /\ fst rec <> 0x0001 /\ len (snd rec) < 65536.

(** The three header fields a ZIP64 record can replace. *)
Inductive size_field : Type := CompressedSize | UncompressedSize | LocalHeaderOffset.

Record sizes : Type := Sizes {
  sz_compressed : Z;
  sz_uncompressed : Z;
  sz_local_header_offset : Z
}.

Definition get_size (f : size_field) (s : sizes) : Z :=
  match f with
  | CompressedSize => sz_compressed s
  | UncompressedSize => sz_uncompressed s
  | LocalHeaderOffset => sz_local_header_offset s
  end.

Definition set_size (f : size_field) (v : Z) (s : sizes) : sizes :=
  match f with
  | CompressedSize => Sizes v (sz_uncompressed s) (sz_local_header_offset s)
  | UncompressedSize => Sizes (sz_compressed s) v (sz_local_header_offset s)
  | LocalHeaderOffset => Sizes (sz_compressed s) (sz_uncompressed s) v
  end.

(** The rule of the specification, for a given order of the fields: each
    field that holds the sentinel, taken in that order, consumes the next
    8 bytes of the ZIP64 data. *)
Fixpoint fill_sentinels (order : list size_field) (data : bytes) (s : sizes) : sizes :=
  match order with
  | [] => s
  | f :: later =>
      if get_size f s =? 0xFFFFFFFF
      then fill_sentinels later (drop 8 data) (set_size f (le_uint (take 8 data)) s)
      else fill_sentinels later data s
  end.

Definition count_sentinels (s : sizes) : Z :=
  (if sz_compressed s =? 0xFFFFFFFF then 1 else 0)
  + (if sz_uncompressed s =? 0xFFFFFFFF then 1 else 0)
  + (if sz_local_header_offset s =? 0xFFFFFFFF then 1 else 0).

(** The order of the fields in the 46-byte central-directory header
    (compressed size at byte 20, uncompressed size at 24, local header
    offset at 42). *)
Definition header_order : list size_field :=
  [CompressedSize; UncompressedSize; LocalHeaderOffset].

(** The order of the fields inside the ZIP64 record. *)
Definition zip64_order : list size_field :=
  [UncompressedSize; CompressedSize; LocalHeaderOffset].

(** The tuple [_parse_zip64_extra_field] returns, as [sizes]. *)
Definition sizes_of_result (r : Z * Z * Z) : sizes :=
  let '(uncompressed, compressed, offset) := r in Sizes compressed uncompressed offset.

(** The ZIP64 data of a member of 4 GiB + 1 bytes stored as 8 GiB + 2. *)
Definition two_values : bytes :=
  le_bytes 8 0x100000001 ++ le_bytes 8 0x200000002.

(** ** Display indices *)

(** A number the listing shows next to an entry when it has [max_val]. *)
Definition display_index (max_val n : Z) : Prop := 1 <= n <= max_val.

(** An extra field with an extended-timestamp record (ID [0x5455]) before
    the ZIP64 record. *)
Definition timestamp_record : Z * bytes := (0x5455, [x01; x00; x00; x00; x00]).

(** ** Listing *)


(** [str.lower] on the ASCII letters. *)
Definition ascii_lower (s : str) : str :=
  map (fun c => if (65 <=? c) && (c <=? 90) then c + 32 else c) s.

(** A small stand-in for [re]: a pattern with a bracket does not compile
    ([re.error]); a pattern that asks for 4294967296 repetitions makes
    [re.compile] raise [OverflowError], as it does in Python; any other
    pattern matches where it occurs literally, case ignored. *)
Definition literal_compile (p : str) : Peekxtract.compiled str :=
  if existsb (fun c => (c =? 91) || (c =? 93)) p then Peekxtract.ReError
  else if contains (lit "{4294967296}") p then Peekxtract.CompileRaised OverflowError
  else Peekxtract.Compiled (ascii_lower p).

Definition literal_search (r : str) (s : str) : bool := contains r (ascii_lower s).

(** The catalog of an archive with three members. *)
Definition img_catalog : list (Z * file_info) :=
  [(0, FileInfo (lit "boot.img") 100 200 8 0 1);
   (1, FileInfo (lit "system.img") 300 400 8 150 2);
   (2, FileInfo (lit "notes.txt") 10 10 0 500 3)].

(** ** UTF-8 *)

(** A byte that occurs in no well-formed UTF-8 sequence. *)
Definition never_utf8 (x : byte) : bool :=
  (byte_val x =? 0xC0) || (byte_val x =? 0xC1) || (0xF5 <=? byte_val x).

(** What the decoder knows about the bytes of the sequence it is in the
    middle of; enough to tell when U+FFFD is about to come out. *)
Definition utf8_inv (st : utf8_state) (pending : bytes) : Prop :=
  match st with
  | Start => pending = []
  | Cont 1 acc lo hi =>
      0x80 <= lo /\ hi <= 0xBF /\ (acc = 1023 -> pending = [xef; xbf])
  | Cont 2 acc lo hi =>
      0x80 <= lo /\ hi <= 0xBF
      /\ ((0 <= acc <= 15 /\ exists b0, pending = [b0] /\ byte_val b0 = 0xE0 + acc)
          \/ 16 <= acc)
  | Cont 3 acc lo hi =>
      0x80 <= lo /\ hi <= 0xBF /\ 0 <= acc /\ (acc = 0 -> 0x90 <= lo)
  | Cont _ _ _ _ => False
  end.

(** [pat] occurs somewhere in [data]. *)
Definition occurs_in (pat data : bytes) : Prop :=
  exists pre post, data = pre ++ pat ++ post.

(** A catalog entry whose name has U+FFFD only if the central directory
    [cd_data] holds the bytes [EF BF BD]. *)
Definition no_replacement_added (cd_data : bytes) (entry : Z * file_info) : Prop :=
  In REPLACEMENT_CHARACTER (filename (snd entry)) ->
  occurs_in [xef; xbf; xbd] cd_data.

(** The [need] continuation bytes a sequence still waits for are all
    there: the next byte within [lo..hi], those after it within
    [80..BF]. *)
Fixpoint completes (need : nat) (lo hi : Z) (bs : bytes) : bool :=
  match need, bs with
  | O, _ => true
  | S n, b :: rest =>
      (lo <=? byte_val b) && (byte_val b <=? hi) && completes n 0x80 0xBF rest
  | S _, [] => false
  end.

(** Whether a well-formed UTF-8 sequence begins the byte string: the
    lead byte and the ranges of the bytes after it, as the Unicode
    standard lists them (table 3-7). *)
Definition well_formed_at (bs : bytes) : bool :=
  match bs with
  | [] => false
  | b :: rest =>
      let v := byte_val b in
      if v <? 0x80 then true
      else if v <? 0xC2 then false
      else if v <? 0xE0 then completes 1 0x80 0xBF rest
      else if v =? 0xE0 then completes 2 0xA0 0xBF rest
      else if v =? 0xED then completes 2 0x80 0x9F rest
      else if v <? 0xF0 then completes 2 0x80 0xBF rest
      else if v =? 0xF0 then completes 3 0x90 0xBF rest
      else if v <? 0xF4 then completes 3 0x80 0xBF rest
      else if v =? 0xF4 then completes 3 0x80 0x8F rest
      else false
  end.

(** ** Member paths *)

(** The characters [download_file] does not let into a path component. *)
Definition forbidden_char (c : Z) : bool :=
  (c =? 47) || (c =? 92) || (c =? 58) || (c =? 42) || (c =? 63)
  || (c =? 34) || (c =? 60) || (c =? 62) || (c =? 124).

Definition clean_part (part : str) : Prop :=
  Forall (fun c => forbidden_char c = false) part.

(** ** Downloads *)

(** The range [fetch_chunk(idx)] asks for, as a request. *)
Definition chunk_request (p : Peekxtract.chunk_plan) (idx : Z) : request :=
  Range (fst (Peekxtract.fetch_chunk_range p idx)) (snd (Peekxtract.fetch_chunk_range p idx)).

(** A pool that completes its tasks in the order they were submitted. *)
Definition in_order_schedule (n : Z) : list Z := py_range n.

(** A pool that completes its tasks in the reverse order. *)
Definition reverse_schedule (n : Z) : list Z := py_range_down (n - 1).

(** Codecs that always fail and a checksum that is always zero: enough
    for members that are stored. *)
Definition no_codec (data : bytes) : option bytes := None.
Definition zero_crc (data : bytes) : Z := 0.

(** A codec that returns its input reversed. *)
Definition toy_codec (data : bytes) : option bytes := Some (rev data).

(** The catalog of [hello_zip] with the member marked as deflated. *)
Definition deflated_catalog : list (Z * file_info) :=
  [(0, FileInfo (lit "hello.txt") 11 11 8 0 0x0d4a1185)].

(** The view of a catalog whose second and third members are kept
    by a filter: display index 0 is catalog entry 1 and display index 1 is
    catalog entry 2. *)
Definition img_view : gmap Z Z := <[0 := 1]> (<[1 := 2]> ∅).

(** Whether [download_file] returned [True]. *)
Definition succeeded {A} (downloaded : option A) : bool :=
  match downloaded with Some _ => true | None => false end.

(** The plan [download_file] makes for a payload of [C] bytes that
    starts at offset [P]. *)
Definition planned (P C max_workers : Z) : Peekxtract.chunk_plan :=
  let '(k, workers) :=
    if C >? 1024 * 1024 * 1024 then (16 * 1024 * 1024, 2)
    else if C >? 100 * 1024 * 1024 then (8 * 1024 * 1024, 3)
    else (4 * 1024 * 1024, max_workers) in
  Peekxtract.ChunkPlan P C k workers ((C + k - 1) / k).

(** ** Operating systems used as concrete inputs *)

(** [os.path.join] and [os.path.dirname] for relative components and the
    separator [/]. *)
Definition plain_join (dir : str) (parts : list str) : str :=
  fold_left (fun path part => path ++ 47 :: part) parts dir.

Definition plain_dirname (path : str) : str :=
  match split_once 47 (rev path) with
  | Some (_, before) => rev before
  | None => []
  end.

(** A system that refuses nothing and whose clock runs; the directory
    named after the archive is [archive]. *)
Definition willing_system : Peekxtract.system :=
  Peekxtract.System (fun w => (inl (lit "archive"), w)) plain_join plain_dirname
    (fun _ _ => None) (fun _ _ _ => None) (fun _ => false).

(** A system on which directories can be made but no file written. *)
Definition read_only_system : Peekxtract.system :=
  Peekxtract.System (fun w => (inl (lit "archive"), w)) plain_join plain_dirname
    (fun _ _ => None) (fun _ _ _ => Some OSError) (fun _ => false).

(** A system whose clock gives the same time at the end of a download as
    at its start. *)
Definition coarse_clock_system : Peekxtract.system :=
  Peekxtract.System (fun w => (inl (lit "archive"), w)) plain_join plain_dirname
    (fun _ _ => None) (fun _ _ _ => None) (fun _ => true).

(** A catalog that gives the member of [hello_zip] a compressed size of
    9 MiB: its download is planned in three chunks. *)
Definition nine_mib_catalog : list (Z * file_info) :=
  [(0, FileInfo (lit "hello.txt") (9 * 1024 * 1024) 11 0 0 0x0d4a1185)].

(** ** Records of a ZIP archive, as [struct.pack] writes them *)

(** [struct.pack] of unsigned little-endian fields with the given byte
    widths. *)
Fixpoint struct_pack (widths values : list Z) : bytes :=
  match widths, values with
  | w :: ws, v :: vs => le_bytes (Z.to_nat w) v ++ struct_pack ws vs
  | _, _ => []
  end.

(** Each value fits the width of its field. *)
Definition fits (widths values : list Z) : Prop :=
  Forall2 (fun w v => 0 <= w /\ 0 <= v < 256 ^ w) widths values.

(** A local file header: the fixed fields after the signature, then the
    name and the extra field. *)
Record local_header : Type := LocalHeader {
  lh_version : Z;
  lh_flags : Z;
  lh_method : Z;
  lh_time : Z;
  lh_date : Z;
  lh_crc32 : Z;
  lh_compressed_size : Z;
  lh_uncompressed_size : Z;
  lh_name : bytes;
  lh_extra : bytes
}.

Definition local_header_widths : list Z := [4; 2; 2; 2; 2; 2; 4; 4; 4; 2; 2].

Definition local_header_fields (h : local_header) : list Z :=
  [0x04034b50; lh_version h; lh_flags h; lh_method h; lh_time h; lh_date h;
   lh_crc32 h; lh_compressed_size h; lh_uncompressed_size h;
   len (lh_name h); len (lh_extra h)].

Definition encode_local_header (h : local_header) : bytes :=
  struct_pack local_header_widths (local_header_fields h) ++ lh_name h ++ lh_extra h.

(** The header of [hello.txt] in [hello_zip]. *)
Definition hello_header : local_header :=
  LocalHeader 20 0 0 0 0x5821 0x0d4a1185 11 11
    [x68; x65; x6c; x6c; x6f; x2e; x74; x78; x74] [].

(** The fields of a local header fit their widths. *)
Definition local_header_ok (h : local_header) : Prop :=
  fits local_header_widths (local_header_fields h).

(** The probe of a local header has no ZIP64 record to look for. *)
Definition plain_sizes (h : local_header) : Prop :=
  lh_extra h = []
  \/ (lh_compressed_size h <> 0xFFFFFFFF /\ lh_uncompressed_size h <> 0xFFFFFFFF).

(** A local header of a member larger than 4 GiB: both sizes at the
    sentinel, the true sizes in a ZIP64 record behind a time stamp
    record. *)
Definition big_header : local_header :=
  LocalHeader 45 0 0 0 0x5821 0 0xFFFFFFFF 0xFFFFFFFF
    [x62; x69; x67]
    (extra_record timestamp_record ++ extra_record (0x0001, two_values)).

(** ** Catalogs *)

(** What holds of every entry the central-directory walk lists: its name
    does not end in a slash, its sizes and the offset of its local header
    are not negative, and one of its sizes is not zero. *)
Definition listed_entry (info : file_info) : Prop :=
  endswith_char (filename info) 47 = false
  /\ 0 <= compressed_size info
  /\ 0 <= uncompressed_size info
  /\ 0 <= local_header_offset info
  /\ (0 < compressed_size info \/ 0 < uncompressed_size info).

(** The keys of a catalog are [0 .. n - 1], in this order. *)
Definition well_numbered {V} (catalog : list (Z * V)) : Prop :=
  dict_keys catalog = py_range (len catalog).

(** What the walk keeps true of [file_count] and [self.files_info]. *)
Definition catalog_inv (file_count : Z) (files_info : list (Z * file_info)) : Prop :=
  file_count = len files_info
  /\ well_numbered files_info
  /\ Forall (fun entry => listed_entry (snd entry)) files_info.

(** A record of the central directory: the fixed fields after the
    signature, then the name, the extra field and the comment. *)
Record cd_record : Type := CdRecord {
  cd_version_made : Z;
  cd_version_needed : Z;
  cd_flags : Z;
  cd_method : Z;
  cd_time : Z;
  cd_date : Z;
  cd_crc32 : Z;
  cd_compressed_size : Z;
  cd_uncompressed_size : Z;
  cd_disk_start : Z;
  cd_internal_attr : Z;
  cd_external_attr : Z;
  cd_local_header_offset : Z;
  cd_name : bytes;
  cd_extra : bytes;
  cd_comment : bytes
}.

Definition cd_record_widths : list Z :=
  [4; 2; 2; 2; 2; 2; 2; 4; 4; 4; 2; 2; 2; 2; 2; 4; 4].

Definition cd_record_fields (r : cd_record) : list Z :=
  [0x02014b50; cd_version_made r; cd_version_needed r; cd_flags r; cd_method r;
   cd_time r; cd_date r; cd_crc32 r; cd_compressed_size r; cd_uncompressed_size r;
   len (cd_name r); len (cd_extra r); len (cd_comment r);
   cd_disk_start r; cd_internal_attr r; cd_external_attr r;
   cd_local_header_offset r].

Definition encode_cd_record (r : cd_record) : bytes :=
  struct_pack cd_record_widths (cd_record_fields r)
  ++ cd_name r ++ cd_extra r ++ cd_comment r.

(** A central directory: its records end to end. *)
Definition encode_central_directory (records : list cd_record) : bytes :=
  concat (map encode_cd_record records).

Definition cd_record_ok (r : cd_record) : Prop :=
  fits cd_record_widths (cd_record_fields r).

(** No field of the record is at the ZIP64 sentinel (or there is no extra
    field to look into). *)
Definition cd_plain (r : cd_record) : Prop :=
  cd_extra r = []
  \/ (cd_compressed_size r <> 0xFFFFFFFF
      /\ cd_uncompressed_size r <> 0xFFFFFFFF
      /\ cd_local_header_offset r <> 0xFFFFFFFF).

(** The sizes and the offset as the 46-byte header has them. *)
Definition cd_sizes (r : cd_record) : sizes :=
  Sizes (cd_compressed_size r) (cd_uncompressed_size r) (cd_local_header_offset r).

(** The sizes and the offset of a record, read the ZIP64 way: what the
    header says when the record is plain; otherwise, when the extra field
    holds (behind records with other header IDs) a ZIP64 record with 8
    bytes for each field at the sentinel, what that record makes of
    them. *)
Definition cd_real (r : cd_record) (real : sizes) : Prop :=
  (cd_plain r /\ real = cd_sizes r)
  \/ (exists others data rest,
        cd_extra r = concat (map extra_record others) ++ extra_record (0x0001, data)
                     ++ rest
        /\ Forall foreign_record others
        /\ len data < 65536
        /\ 8 * count_sentinels (cd_sizes r) <= len data
        /\ real = fill_sentinels zip64_order data (cd_sizes r)).

(** A record with the sizes it stands for. *)
Definition well_formed_record (member : cd_record * sizes) : Prop :=
  cd_record_ok (fst member) /\ cd_real (fst member) (snd member).

(** The catalog entry a record stands for; [entry_count] is the number of
    the record in the directory, from 1. *)
Definition cd_record_info (r : cd_record) (real : sizes) (entry_count : Z)
    : file_info :=
  FileInfo (if len (cd_name r) >? 0
            then decode_utf8_ignore (cd_name r)
            else lit "unnamed_file_" ++ str_of_int entry_count)
           (sz_compressed real) (sz_uncompressed real) (cd_method r)
           (sz_local_header_offset real) (cd_crc32 r).

(** Directories and members with both sizes zero are left out. *)
Definition cd_record_listed (r : cd_record) (real : sizes) (entry_count : Z) : bool :=
  negb (endswith_char (filename (cd_record_info r real entry_count)) 47)
  && ((sz_compressed real >? 0) || (sz_uncompressed real >? 0)).

(** The catalog of a directory: the entries of the listed records,
    numbered from 0 in the order of the records. *)
Fixpoint catalog_from (records : list (cd_record * sizes)) (entry_count : Z)
    (catalog : list (Z * file_info)) : list (Z * file_info) :=
  match records with
  | [] => catalog
  | (r, real) :: later =>
      let entry_count := entry_count + 1 in
      catalog_from later entry_count
        (if cd_record_listed r real entry_count
         then catalog ++ [(len catalog, cd_record_info r real entry_count)]
         else catalog)
  end.

Definition catalog_of (records : list (cd_record * sizes)) : list (Z * file_info) :=
  catalog_from records 0 [].

(** The record of [hello.txt] in the central directory of [hello_zip]. *)
Definition hello_record : cd_record :=
  CdRecord 0x0314 20 0 0 0 0x5821 0x0d4a1185 11 11 0 0 0x01800000 0
    [x68; x65; x6c; x6c; x6f; x2e; x74; x78; x74] [] [].

(** The record of a member larger than 4 GiB: both sizes at the
    sentinel, the true sizes in a ZIP64 record behind a time stamp
    record. *)
Definition big_record : cd_record :=
  CdRecord 0x0314 45 0 0 0 0x5821 0 0xFFFFFFFF 0xFFFFFFFF 0 0 0 55
    [x62; x69; x67]
    (extra_record timestamp_record ++ extra_record (0x0001, two_values)) [].

(** The End of Central Directory record: the fixed fields after the
    signature, then the archive comment. *)
Record eocd_record : Type := EocdRecord {
  eocd_disk : Z;
  eocd_cd_disk : Z;
  eocd_entries_disk : Z;
  eocd_entries_total : Z;
  eocd_cd_size : Z;
  eocd_cd_offset : Z;
  eocd_comment : bytes
}.

Definition eocd_widths : list Z := [4; 2; 2; 2; 2; 4; 4; 2].

Definition eocd_fields (e : eocd_record) : list Z :=
  [0x06054b50; eocd_disk e; eocd_cd_disk e; eocd_entries_disk e;
   eocd_entries_total e; eocd_cd_size e; eocd_cd_offset e; len (eocd_comment e)].

Definition encode_eocd (e : eocd_record) : bytes :=
  struct_pack eocd_widths (eocd_fields e) ++ eocd_comment e.

Definition eocd_ok (e : eocd_record) : Prop := fits eocd_widths (eocd_fields e).

Definition eocd_signature : bytes := [x50; x4b; x05; x06].

(** The four signature bytes do not show again inside the record, at a
    place the backward scan visits before it reaches the record. *)
Definition eocd_unambiguous (e : eocd_record) : Prop :=
  forall j, 0 < j <= len (eocd_comment e) ->
            slice (encode_eocd e) j (j + 4) <> eocd_signature.

(** The record and its comment lie within the 4096 bytes that are
    searched. *)
Definition eocd_in_reach (e : eocd_record) : Prop :=
  22 + len (eocd_comment e) <= 4096.

(** The record sends nobody to the ZIP64 records. *)
Definition eocd_plain (e : eocd_record) : Prop :=
  eocd_cd_offset e <> 0xFFFFFFFF /\ eocd_entries_total e <> 0xFFFF.

(** The EOCD of [hello_zip]. *)
Definition hello_eocd : eocd_record := EocdRecord 0 0 1 1 55 50 [].

(** The ZIP64 End of Central Directory record (its first 56 bytes) and
    its locator. *)
Record zip64_eocd_record : Type := Zip64Eocd {
  z64_signature : Z;
  z64_size : Z;
  z64_version_made : Z;
  z64_version_needed : Z;
  z64_disk : Z;
  z64_cd_disk : Z;
  z64_entries_disk : Z;
  z64_entries_total : Z;
  z64_cd_size : Z;
  z64_cd_offset : Z
}.

Definition zip64_eocd_widths : list Z := [4; 8; 2; 2; 4; 4; 8; 8; 8; 8].

Definition zip64_eocd_fields (z : zip64_eocd_record) : list Z :=
  [z64_signature z; z64_size z; z64_version_made z; z64_version_needed z;
   z64_disk z; z64_cd_disk z; z64_entries_disk z; z64_entries_total z;
   z64_cd_size z; z64_cd_offset z].

Definition encode_zip64_eocd (z : zip64_eocd_record) : bytes :=
  struct_pack zip64_eocd_widths (zip64_eocd_fields z).

Definition zip64_eocd_ok (z : zip64_eocd_record) : Prop :=
  fits zip64_eocd_widths (zip64_eocd_fields z).

Record zip64_locator : Type := Zip64Locator {
  loc_disk : Z;
  loc_eocd_offset : Z;
  loc_total_disks : Z
}.

Definition zip64_locator_widths : list Z := [4; 4; 8; 4].

Definition zip64_locator_fields (l : zip64_locator) : list Z :=
  [0x07064b50; loc_disk l; loc_eocd_offset l; loc_total_disks l].

Definition encode_zip64_locator (l : zip64_locator) : bytes :=
  struct_pack zip64_locator_widths (zip64_locator_fields l).

Definition zip64_locator_ok (l : zip64_locator) : Prop :=
  fits zip64_locator_widths (zip64_locator_fields l).

(** The ZIP64 records of [trailer_cd_size_sentinel], and an EOCD whose
    offset is at the sentinel. *)
Definition trailer_zip64_eocd : zip64_eocd_record :=
  Zip64Eocd 0x06064b50 44 45 45 0 0 1 1 51 0.
Definition trailer_locator : zip64_locator := Zip64Locator 0 51 1.
Definition sentinel_eocd : eocd_record := EocdRecord 0 0 1 1 51 0xFFFFFFFF [].

(** The same ZIP64 record with four zero bytes for a signature. *)
Definition unsigned_zip64_eocd : zip64_eocd_record :=
  Zip64Eocd 0 44 45 45 0 0 1 1 51 0.

(** The EOCD of [displaced_locator_archive], all fields at their
    sentinels, and the four stray bytes before it. *)
Definition all_sentinels_eocd : eocd_record :=
  EocdRecord 0 0 0xFFFF 0xFFFF 0xFFFFFFFF 0xFFFFFFFF [].
Definition stray_bytes : bytes := [x00; x00; x00; x00].

(** ** Views *)

(** A list numbered from 0, as [list_files] numbers what it shows. *)
Definition numbered {V} (l : list V) : list (Z * V) :=
  imap (fun i v => (Z.of_nat i, v)) l.

(** The test [list_files] and [search_files] apply to a name: the regular
    expression if the pattern compiles, the lowercase substring test if
    [re.compile] raises [re.error]; no test at all if it raises another
    exception. *)
Definition name_matches {regex : Type} (re_compile : str -> Peekxtract.compiled regex)
    (re_search : regex -> str -> bool) (lower : str -> str)
    (pattern : str) (name : str) : bool :=
  match re_compile pattern with
  | Peekxtract.Compiled r => re_search r name
  | Peekxtract.ReError => contains (lower pattern) (lower name)
  | Peekxtract.CompileRaised _ => false
  end.

(** A catalog that begins with a member the filter [img] does not keep. *)
Definition docs_catalog : list (Z * file_info) :=
  [(0, FileInfo (lit "notes.txt") 10 10 0 500 3);
   (1, FileInfo (lit "boot.img") 100 200 8 0 1);
   (2, FileInfo (lit "system.img") 300 400 8 150 2)].

(** ** UTF-8, the other way *)

(** The UTF-8 encoding of a code point: what [str.encode('utf-8')] writes
    for one character. *)
Definition utf8_encode (c : Z) : bytes :=
  if c <? 0x80 then [byte_of_Z c]
  else if c <? 0x800 then
    [byte_of_Z (0xC0 + c / 64); byte_of_Z (0x80 + c mod 64)]
  else if c <? 0x10000 then
    [byte_of_Z (0xE0 + c / 4096); byte_of_Z (0x80 + (c / 64) mod 64);
     byte_of_Z (0x80 + c mod 64)]
  else
    [byte_of_Z (0xF0 + c / 262144); byte_of_Z (0x80 + (c / 4096) mod 64);
     byte_of_Z (0x80 + (c / 64) mod 64); byte_of_Z (0x80 + c mod 64)].

Definition encode_utf8 (s : str) : bytes := flat_map utf8_encode s.

(** A Unicode scalar value: a code point that is not a surrogate. *)
Definition unicode_scalar (c : Z) : Prop :=
  0 <= c < 0xD800 \/ 0xE000 <= c < 0x110000.

(** ** Selections *)

(** [sep.join(parts)] for a one-character [sep]. *)
Fixpoint join (sep : Z) (parts : list str) : str :=
  match parts with
  | [] => []
  | [part] => part
  | part :: later => part ++ sep :: join sep later
  end.

(** One item of a selection: a number, or a span of numbers. *)
Inductive selector : Type :=
| Single (n : Z)
| Span (first last : Z).

(** The item as one writes it: [7], [10-12]. *)
Definition render (sel : selector) : str :=
  match sel with
  | Single n => str_of_int n
  | Span first last => str_of_int first ++ 45 :: str_of_int last
  end.

(** The numbers in an item are not negative. *)
Definition natural (sel : selector) : Prop :=
  match sel with
  | Single n => 0 <= n
  | Span first last => 0 <= first /\ 0 <= last
  end.

(** The display number [x] is chosen by the item, given that the view
    shows [max_val] entries: an item that reaches outside [1 .. max_val]
    chooses nothing. *)
Definition selects (max_val : Z) (sel : selector) (x : Z) : Prop :=
  match sel with
  | Single n => x = n /\ 1 <= n <= max_val
  | Span first last => first <= x <= last /\ 1 <= first /\ last <= max_val
  end.

(** What the item adds to [result] in [parse_range]. *)
Definition selected (max_val : Z) (sel : selector) : list Z :=
  match sel with
  | Single n => if (1 <=? n) && (n <=? max_val) then [n] else []
  | Span first last =>
      if (first <=? last) && (first >=? 1) && (last <=? max_val)
      then py_range2 first (last + 1) else []
  end.

(** ** Code that always ends *)

(** A computation that never runs out of fuel: it returns or raises. *)
Definition finishes {A} (m : M A) : Prop := forall w, fst (m w) <> OutOfFuel.

(** * Theorems *)

(** ** Bytes and slices *)

Lemma byte_val_range b : 0 <= byte_val b < 256.
Proof.
  unfold byte_val. pose proof (Byte.to_N_bounded b). lia.
Qed.

Lemma byte_val_inj a b : byte_val a = byte_val b -> a = b.
Proof.
  unfold byte_val. intros H. apply Z2N.inj_iff in H; try lia.
  rewrite !N2Z.id in H.
  pose proof (Byte.of_to_N a) as Ha. rewrite H, Byte.of_to_N in Ha. congruence.
Qed.

Lemma byte_val_of_Z v : byte_val (byte_of_Z v) = v mod 256.
Proof.
  unfold byte_val, byte_of_Z.
  pose proof (Z.mod_pos_bound v 256 ltac:(lia)) as Hm.
  destruct (Byte.of_N (Z.to_N (v mod 256))) as [b|] eqn:E.
  - apply Byte.to_of_N in E. rewrite E. lia.
  - apply Byte.of_N_None_iff in E. lia.
Qed.

Lemma le_uint_nonneg bs : 0 <= le_uint bs.
Proof.
  induction bs as [|b bs IH]; cbn [le_uint]; [lia|].
  pose proof (byte_val_range b). lia.
Qed.

Lemma length_le_bytes n v : length (le_bytes n v) = n.
Proof. revert v. induction n as [|n IH]; intros v; cbn; [reflexivity|]. now rewrite IH. Qed.

Lemma le_uint_le_bytes n v :
  0 <= v < 256 ^ Z.of_nat n -> le_uint (le_bytes n v) = v.
Proof.
  revert v. induction n as [|n IH]; intros v Hv.
  - cbn in *. lia.
  - cbn [le_bytes le_uint]. rewrite byte_val_of_Z.
    rewrite Nat2Z.inj_succ, Z.pow_succ_r in Hv by lia.
    rewrite IH.
    + pose proof (Z.div_mod v 256 ltac:(lia)). lia.
    + split; [apply Z.div_pos; lia|apply Z.div_lt_upper_bound; lia].
Qed.

Lemma len_app {A} (a b : list A) : len (a ++ b) = len a + len b.
Proof. unfold len. rewrite length_app. lia. Qed.

Lemma len_nonneg {A} (a : list A) : 0 <= len a.
Proof. unfold len. lia. Qed.

Lemma len_le_bytes n v : len (le_bytes n v) = Z.of_nat n.
Proof. unfold len. now rewrite length_le_bytes. Qed.

(** Slicing past a prefix. *)
Lemma slice_app_r {A} (pre l : list A) i j :
  0 <= i -> slice (pre ++ l) (len pre + i) (len pre + j) = slice l i j.
Proof.
  intros Hi. unfold slice, len.
  replace (Z.of_nat (length pre) + j - (Z.of_nat (length pre) + i)) with (j - i) by lia.
  replace (Z.to_nat (Z.of_nat (length pre) + i)) with (length pre + Z.to_nat i)%nat by lia.
  now rewrite drop_app_add.
Qed.

(** Slicing within the first part. *)
Lemma slice_app_l {A} (l post : list A) i j :
  0 <= i -> j <= len l -> slice (l ++ post) i j = slice l i j.
Proof.
  intros Hi Hj. unfold slice, len in *.
  destruct (decide (i <= j)) as [Hij|Hij].
  - rewrite drop_app_le by lia. rewrite take_app_le; [reflexivity|].
    rewrite length_drop. lia.
  - replace (Z.to_nat (j - i)) with 0%nat by lia. reflexivity.
Qed.

Lemma slice_all {A} (l : list A) : slice l 0 (len l) = l.
Proof.
  unfold slice, len. rewrite Z.sub_0_r, Nat2Z.id. cbn. apply firstn_all.
Qed.

Lemma slice_prefix {A} (l post : list A) : slice (l ++ post) 0 (len l) = l.
Proof. rewrite slice_app_l by (pose proof (len_nonneg l); lia). apply slice_all. Qed.

Lemma slice_take_drop {A} (l : list A) i n :
  0 <= i -> 0 <= n ->
  slice l i (i + n) = take (Z.to_nat n) (drop (Z.to_nat i) l).
Proof. intros. unfold slice. now replace (i + n - i) with n by lia. Qed.

Lemma slice_app_mid {A} (a b c : list A) i j :
  i = len a -> j = len a + len b -> slice (a ++ b ++ c) i j = b.
Proof.
  intros -> ->. replace (len a) with (len a + 0) at 1 by lia.
  rewrite slice_app_r by lia. apply slice_prefix.
Qed.

(** ** The ranged read ([_read_bytes]) *)

Lemma attempt_eq srv first last w :
  bind (session_get srv first last)
       (fun response => let '(status_code, content) := response in
          if negb ((status_code =? 206) || (status_code =? 200))
          then raise (RangeRequestFailed status_code)
          else ret (Some content)) w
  = (match accepted (srv (requests w) (Range first last)) with
     | Some body => Done (Some body)
     | None => Raised (cause_of (srv (requests w) (Range first last)))
     end,
     World (requests w ++ [Range first last]) (sleeps w)).
Proof.
  unfold bind, session_get, accepted, cause_of.
  destruct (srv (requests w) (Range first last)) as [st body|]; [|reflexivity].
  cbn. destruct ((st =? 206) || (st =? 200)); reflexivity.
Qed.

(** One turn of the retry loop, whatever the attempts still to come. *)
Lemma read_attempts_cons srv first last max_retries attempt later w :
  Peekxtract.read_attempts srv first last max_retries (attempt :: later) w =
  match accepted (srv (requests w) (Range first last)) with
  | Some body =>
      (Done (Some body), World (requests w ++ [Range first last]) (sleeps w))
  | None =>
      if attempt <? max_retries - 1
      then Peekxtract.read_attempts srv first last max_retries later
             (World (requests w ++ [Range first last]) (sleeps w ++ [2 ^ attempt]))
      else (Raised (ReadFailed first last
                      (cause_of (srv (requests w) (Range first last)))),
            World (requests w ++ [Range first last]) (sleeps w))
  end.
Proof.
  cbn [Peekxtract.read_attempts]. unfold catch at 1. rewrite attempt_eq.
  destruct (accepted _); [reflexivity|].
  destruct (attempt <? max_retries - 1); reflexivity.
Qed.

(** C5 (as amended).  With the default three attempts, [_read_bytes] asks
    at most three times for the same range; it sleeps 1s after a first
    failure and 2s after a second one, and never longer (no 4s sleep);
    it returns the first accepted body, and raises the read error only
    when the third attempt has failed too. *)
Theorem read_bytes_backoff srv start length w :
  let rq := Range start (start + length - 1) in
  let h := requests w in
  let s := sleeps w in
  Peekxtract._read_bytes srv start length w =
  match accepted (srv h rq) with
  | Some body => (Done body, World (h ++ [rq]) s)
  | None =>
      match accepted (srv (h ++ [rq]) rq) with
      | Some body => (Done body, World (h ++ [rq; rq]) (s ++ [1]))
      | None =>
          match accepted (srv (h ++ [rq; rq]) rq) with
          | Some body => (Done body, World (h ++ [rq; rq; rq]) (s ++ [1; 2]))
          | None =>
              (Raised (ReadFailed start (start + length - 1)
                         (cause_of (srv (h ++ [rq; rq]) rq))),
               World (h ++ [rq; rq; rq]) (s ++ [1; 2]))
          end
      end
  end.
Proof.
  intros rq h s. subst rq h s.
  unfold Peekxtract._read_bytes, Peekxtract._read_bytes_opt, bind at 1.
  change (py_range 3) with [0; 1; 2].
  rewrite read_attempts_cons.
  destruct (accepted (srv (requests w) _)); [reflexivity|].
  change (0 <? 3 - 1) with true. cbv iota.
  rewrite read_attempts_cons. cbn [requests sleeps].
  destruct (accepted (srv (requests w ++ [_]) _));
    [rewrite <- !app_assoc; reflexivity|].
  change (1 <? 3 - 1) with true. cbv iota.
  rewrite read_attempts_cons. cbn [requests sleeps].
  rewrite <- !app_assoc. cbn [app].
  destruct (accepted (srv (requests w ++ [_; _]) _)); reflexivity.
Qed.

(** C5, the claim as stated fails: against a server that never answers,
    the three attempts are separated by sleeps of 1s and 2s; no 4s sleep
    takes place before the error surfaces. *)
Lemma read_bytes_no_third_sleep :
  Peekxtract._read_bytes dead_server 0 4 world0
  = (Raised (ReadFailed 0 3 RequestError),
     World [Range 0 3; Range 0 3; Range 0 3] [1; 2])
  /\ ~ In 4 (sleeps (snd (Peekxtract._read_bytes dead_server 0 4 world0)))
  /\ sleeps (snd (Peekxtract._read_bytes dead_server 0 4 world0)) <> [1; 2; 4].
Proof.
  split; [reflexivity|]. split.
  - vm_compute. intros [H|[H|[]]]; discriminate H.
  - vm_compute. discriminate.
Qed.

(** C8 (as amended).  A reply with status 200 or 206 is accepted at once
    and its body returned as it is, whatever its length: no attempt is
    counted as failed, nothing is retried. *)
Theorem read_bytes_accepts_any_body srv start length w st body :
  srv (requests w) (Range start (start + length - 1)) = Response st body ->
  st = 200 \/ st = 206 ->
  Peekxtract._read_bytes srv start length w
    = (Done body, World (requests w ++ [Range start (start + length - 1)]) (sleeps w))
  /\ Main._read_bytes srv start length w
    = (Done body, World (requests w ++ [Range start (start + length - 1)]) (sleeps w)).
Proof.
  intros Hrp Hst.
  assert (Hacc : accepted (srv (requests w) (Range start (start + length - 1)))
                 = Some body).
  { rewrite Hrp. destruct Hst as [-> | ->]; reflexivity. }
  split.
  - unfold Peekxtract._read_bytes, Peekxtract._read_bytes_opt, bind at 1.
    change (py_range 3) with [0; 1; 2].
    rewrite read_attempts_cons, Hacc. reflexivity.
  - unfold Main._read_bytes, catch, bind, session_get. rewrite Hrp.
    destruct Hst as [-> | ->]; reflexivity.
Qed.

Lemma read_bytes_accepts_any_body_witness :
  Peekxtract._read_bytes (whole_file_server six_bytes) 0 4 world0
    = (Done six_bytes, World [Range 0 3] [])
  /\ Main._read_bytes (whole_file_server six_bytes) 0 4 world0
    = (Done six_bytes, World [Range 0 3] []).
Proof.
  apply (read_bytes_accepts_any_body (whole_file_server six_bytes) 0 4 world0
           200 six_bytes).
  - reflexivity.
  - left. reflexivity.
Defined.

(** C8, the claim as stated fails: asked for 4 bytes, a server that
    answers 200 with a 6-byte body gets all 6 bytes returned as the read. *)
Lemma read_bytes_200_length_unchecked :
  fst (Peekxtract._read_bytes (whole_file_server six_bytes) 0 4 world0)
    = Done six_bytes
  /\ fst (Main._read_bytes (whole_file_server six_bytes) 0 4 world0)
    = Done six_bytes
  /\ len six_bytes <> 4.
Proof.
  split; [vm_compute; reflexivity|].
  split; [vm_compute; reflexivity|].
  vm_compute. discriminate.
Qed.

(** The retry loop for any number of attempts: when [m + 1] attempts
    remain, the first of them numbered [a], the loop repeats the request
    until a reply is accepted or the attempts are used up.  With [k] the
    number of replies it turned down before the one that ended it, it
    has made [k + 1] requests and slept [2^a], [2^(a+1)], ... after each
    of the [k]; it returns the body of reply [k] if that one is
    accepted, and raises for it otherwise, which happens only at the
    last attempt. *)
Lemma read_attempts_trace srv first last max_retries : forall m a w,
  Z.of_nat (a + S m) = max_retries ->
  let rq := Range first last in
  let reply (i : nat) := srv (requests w ++ repeat rq i) rq in
  exists k,
    (k <= m)%nat
    /\ (forall i, (i < k)%nat -> accepted (reply i) = None)
    /\ Peekxtract.read_attempts srv first last max_retries
         (map Z.of_nat (seq a (S m))) w
       = (match accepted (reply k) with
          | Some body => Done (Some body)
          | None => Raised (ReadFailed first last (cause_of (reply k)))
          end,
          World (requests w ++ repeat rq (S k))
                (sleeps w ++ map (fun i => 2 ^ Z.of_nat i) (seq a k)))
    /\ (accepted (reply k) = None -> k = m).
Proof.
  induction m as [|m IH]; intros a w Hn rq reply; cbn [seq map];
    rewrite read_attempts_cons.
  - exists 0%nat. unfold reply, rq. cbn [repeat seq map]. rewrite !app_nil_r.
    split; [lia|]. split; [intros i Hi; lia|].
    destruct (accepted (srv (requests w) (Range first last))) as [body|].
    + split; [reflexivity|discriminate].
    + assert ((Z.of_nat a <? max_retries - 1) = false) as -> by (apply Z.ltb_ge; lia).
      split; reflexivity.
  - destruct (accepted (srv (requests w) (Range first last))) as [body|] eqn:Efirst.
    + exists 0%nat. unfold reply, rq. cbn [repeat seq map]. rewrite !app_nil_r.
      rewrite Efirst. split; [lia|]. split; [intros i Hi; lia|].
      split; [reflexivity|discriminate].
    + assert ((Z.of_nat a <? max_retries - 1) = true) as -> by (apply Z.ltb_lt; lia).
      destruct (IH (S a) (World (requests w ++ [Range first last])
                                (sleeps w ++ [2 ^ Z.of_nat a])))
        as (k & Hk & Hrejected & Heq & Hlast); [lia|].
      cbn [requests sleeps] in Hrejected, Heq, Hlast.
      assert (Hshift : forall i,
                 srv ((requests w ++ [Range first last]) ++ repeat (Range first last) i)
                     (Range first last)
                 = reply (S i)).
      { intros i. unfold reply, rq. rewrite <- app_assoc. reflexivity. }
      rewrite Hshift in Heq, Hlast.
      exists (S k). split; [lia|]. split; [|split].
      * intros [|i] Hi.
        -- unfold reply, rq. cbn [repeat]. rewrite app_nil_r. exact Efirst.
        -- rewrite <- Hshift. apply Hrejected. lia.
      * cbn [seq map] in Heq. rewrite Heq. f_equal. f_equal.
        -- unfold rq. rewrite <- app_assoc. reflexivity.
        -- rewrite <- app_assoc. reflexivity.
      * intros Hnone. f_equal. exact (Hlast Hnone).
Qed.

(** ** The archive trailer *)

(** C2, where the code departs from the claim.  An EOCD whose [cd_size]
    alone is [0xFFFFFFFF] does not send [peekxtract.py] to the ZIP64
    records: its test looks at [cd_offset] and [cd_entries_total] only, and
    the sentinel comes back as the size of the central directory after a
    single read.  [main.py] tests all three fields and returns the size
    held by the ZIP64 EOCD. *)
Theorem eocd_cd_size_sentinel_not_promoted :
  (forall cd_offset cd_entries_total,
     cd_offset <> 0xFFFFFFFF -> cd_entries_total <> 0xFFFF ->
     Peekxtract.zip64_detected cd_offset 0xFFFFFFFF cd_entries_total = false
     /\ Main.zip64_detected cd_offset 0xFFFFFFFF cd_entries_total = true)
  /\ Peekxtract._find_end_of_central_directory
       (file_server trailer_cd_size_sentinel) (len trailer_cd_size_sentinel) world0
     = (Done (0, 0xFFFFFFFF), World [Range 0 148] [])
  /\ Main._find_end_of_central_directory
       (file_server trailer_cd_size_sentinel) (len trailer_cd_size_sentinel) world0
     = (Done (0, 51),
        World [Range 0 148; Range 107 126; Range 51 62; Range 51 106] []).
Proof.
  split; [|split; vm_compute; reflexivity].
  intros cd_offset cd_entries_total Ho He.
  unfold Peekxtract.zip64_detected, Main.zip64_detected.
  apply Z.eqb_neq in Ho, He. rewrite Ho, He. split; reflexivity.
Qed.

(** Both reads append the range they are asked for to the request log. *)
Lemma peekxtract_read_requests srv start length w :
  exists later,
    requests (snd (Peekxtract._read_bytes srv start length w))
    = requests w ++ Range start (start + length - 1) :: later.
Proof.
  unfold Peekxtract._read_bytes, Peekxtract._read_bytes_opt, bind at 1.
  change (py_range 3) with [0; 1; 2].
  set (rq := Range start (start + length - 1)).
  rewrite read_attempts_cons. fold rq.
  destruct (accepted _); [exists []; reflexivity|].
  change (0 <? 3 - 1) with true. cbv iota. rewrite read_attempts_cons.
  cbn [requests sleeps]. fold rq.
  destruct (accepted _); [exists [rq]; cbn; rewrite <- app_assoc; reflexivity|].
  change (1 <? 3 - 1) with true. cbv iota. rewrite read_attempts_cons.
  cbn [requests sleeps]. fold rq.
  destruct (accepted _); cbn; exists [rq; rq]; rewrite <- !app_assoc; reflexivity.
Qed.

Lemma main_read_requests srv start length w :
  requests (snd (Main._read_bytes srv start length w))
  = requests w ++ [Range start (start + length - 1)].
Proof.
  unfold Main._read_bytes, catch, bind, session_get.
  destruct (srv _ _) as [st body|]; [|reflexivity].
  destruct (negb _); reflexivity.
Qed.

(** What follows a computation only adds to the request log. *)
Lemma bind_requests {A B} (m : M A) (k : A -> M B) w :
  (exists later, requests (snd (m w)) = requests w ++ later) ->
  (forall a w1, exists later, requests (snd (k a w1)) = requests w1 ++ later) ->
  exists later, requests (snd (bind m k w)) = requests w ++ later.
Proof.
  intros (l1 & H1) Hk. unfold bind. destruct (m w) as [[a|e|] w1]; cbn [snd] in *.
  - destruct (Hk a w1) as (l2 & H2). exists (l1 ++ l2).
    now rewrite H2, H1, <- app_assoc.
  - eauto.
  - eauto.
Qed.

Lemma pure_requests {A} (o : outcome A) w :
  exists later, requests (snd (lift o w)) = requests w ++ later.
Proof. exists []. cbn. now rewrite app_nil_r. Qed.

(** Solves "the request log only grows" for code built from reads,
    pure steps, tests and sequencing. *)
Ltac log_grows :=
  lazymatch goal with
  | |- exists later, requests (snd (bind _ _ _)) = _ =>
      apply bind_requests; [log_grows|intros ? ?; log_grows]
  | |- exists later, requests (snd (Peekxtract._read_bytes ?srv ?s ?l ?w)) = _ =>
      destruct (peekxtract_read_requests srv s l w) as (? & ->); eauto
  | |- exists later, requests (snd (Main._read_bytes ?srv ?s ?l ?w)) = _ =>
      rewrite (main_read_requests srv s l w); eauto
  | |- exists later, requests (snd (lift _ _)) = _ => apply pure_requests
  | |- exists later, requests (snd (ret _ _)) = _ => apply (pure_requests (Done _))
  | |- exists later, requests (snd (raise _ _)) = _ => apply (pure_requests (Raised _))
  | |- exists later, requests (snd ((if ?c then _ else _) _)) = _ =>
      destruct c; log_grows
  | |- exists later, requests (snd (match ?o with Some _ => _ | None => _ end _)) = _ =>
      destruct o; log_grows
  | |- exists later, requests (snd (Main.read_zip64_eocd _ _ _)) = _ =>
      unfold Main.read_zip64_eocd; log_grows
  end.

(** A computation that starts with a read asks for that range first. *)
Lemma read_first_requests {A} (read : M bytes) (k : bytes -> M A) w rq :
  (exists later, requests (snd (read w)) = requests w ++ rq :: later) ->
  (forall data w1, exists later, requests (snd (k data w1)) = requests w1 ++ later) ->
  exists later, requests (snd (bind read k w)) = requests w ++ rq :: later.
Proof.
  intros (l1 & H1) Hk. unfold bind. destruct (read w) as [[data|e|] w1]; cbn [snd] in *.
  - destruct (Hk data w1) as (l2 & H2). exists (l1 ++ l2).
    rewrite H2, H1, <- app_assoc. reflexivity.
  - eauto.
  - eauto.
Qed.

(** C6, where the code departs from the claim.  Both fallback scans
    start by asking for the last [min(8192, file_size)] bytes.  On an
    archive whose locator does not stand right before the EOCD, the
    fallback of [peekxtract.py] finds [50 4b 06 07] in them and returns
    what the locator holds; the fallback of [main.py] looks for
    [50 4b 07 06] and gives up, and so does its search for the central
    directory. *)
Theorem fallback_scan_signatures :
  (forall srv file_size w, 0 <= file_size ->
     (exists later,
        requests (snd (Peekxtract._fallback_find_zip64_locator srv file_size w))
        = requests w
          ++ Range (file_size - Z.min 8192 file_size) (file_size - 1) :: later)
     /\ (exists later,
        requests (snd (Main._search_zip64_locator_fallback srv file_size w))
        = requests w
          ++ Range (file_size - Z.min 8192 file_size) (file_size - 1) :: later))
  /\ Peekxtract._fallback_find_zip64_locator
       (file_server displaced_locator_archive) (len displaced_locator_archive) world0
     = (Done (51, 1), World [Range 0 152; Range 107 126] [])
  /\ Main._search_zip64_locator_fallback
       (file_server displaced_locator_archive) (len displaced_locator_archive) world0
     = (Raised LocatorNotFound, World [Range 0 152] [])
  /\ fst (Peekxtract._find_end_of_central_directory
            (file_server displaced_locator_archive) (len displaced_locator_archive)
            world0)
     = Done (0, 51)
  /\ fst (Main._find_end_of_central_directory
            (file_server displaced_locator_archive) (len displaced_locator_archive)
            world0)
     = Raised LocatorNotFound.
Proof.
  split; [|split; [vm_compute; reflexivity|];
           split; [vm_compute; reflexivity|];
           split; vm_compute; reflexivity].
  intros srv file_size w Hsize.
  set (start := file_size - Z.min 8192 file_size).
  assert (Hlast : start + Z.min 8192 file_size - 1 = file_size - 1) by (subst start; lia).
  assert (Hmax : Z.max 0 (file_size - Z.min 8192 file_size) = start) by (subst start; lia).
  split.
  - unfold Peekxtract._fallback_find_zip64_locator. rewrite Hmax.
    apply read_first_requests; [|intros data w1; log_grows].
    rewrite <- Hlast. apply peekxtract_read_requests.
  - unfold Main._search_zip64_locator_fallback. rewrite Hmax.
    apply read_first_requests; [|intros data w1; log_grows].
    rewrite <- Hlast. exists []. apply main_read_requests.
Qed.

(** ** The ZIP64 extra field ([_parse_zip64_extra_field]) *)

Lemma len_extra_record rec : len (extra_record rec) = 4 + len (snd rec).
Proof. unfold extra_record. rewrite !len_app, !len_le_bytes. lia. Qed.

(** The header of the record that starts right after [pre]. *)
Lemma record_header_at pre rec rest :
  0 <= fst rec < 65536 -> len (snd rec) < 65536 ->
  let buffer := pre ++ extra_record rec ++ rest in
  (len pre + 4 <=? len buffer) = true
  /\ unpack_uint 2 (slice buffer (len pre) (len pre + 2)) = Done (fst rec)
  /\ unpack_uint 2 (slice buffer (len pre + 2) (len pre + 4)) = Done (len (snd rec)).
Proof.
  intros Hid Hlen buffer. subst buffer.
  pose proof (len_nonneg (snd rec)) as Hd. pose proof (len_nonneg rest) as Hr.
  split; [|split].
  - apply Z.leb_le. rewrite !len_app, len_extra_record. lia.
  - replace (len pre) with (len pre + 0) at 1 by lia.
    rewrite slice_app_r by lia. unfold extra_record. rewrite <- !app_assoc.
    assert (Hs : forall X, slice (le_bytes 2 (fst rec) ++ X) 0 2 = le_bytes 2 (fst rec)).
    { intros X. apply (slice_app_mid [] (le_bytes 2 (fst rec)) X);
        rewrite ?len_le_bytes; reflexivity. }
    rewrite Hs.
    unfold unpack_uint. rewrite len_le_bytes. change (Z.of_nat 2 =? 2) with true.
    cbv iota. rewrite le_uint_le_bytes; [reflexivity|].
    change (256 ^ Z.of_nat 2) with 65536. lia.
  - rewrite slice_app_r by lia. unfold extra_record. rewrite <- !app_assoc.
    rewrite (slice_app_mid (le_bytes 2 (fst rec)) (le_bytes 2 (len (snd rec))))
      by (rewrite ?len_le_bytes; reflexivity).
    unfold unpack_uint. rewrite len_le_bytes. change (Z.of_nat 2 =? 2) with true.
    cbv iota. rewrite le_uint_le_bytes; [reflexivity|].
    change (256 ^ Z.of_nat 2) with 65536. lia.
Qed.

(** The 8 bytes at [field_offset] inside the data of that record. *)
Lemma record_data_at pre rec rest field_offset :
  0 <= field_offset -> field_offset + 8 <= len (snd rec) ->
  slice (pre ++ extra_record rec ++ rest)
        (len pre + 4 + field_offset) (len pre + 4 + field_offset + 8)
  = take 8 (drop (Z.to_nat field_offset) (snd rec)).
Proof.
  intros Hfo Hfit.
  replace (len pre + 4 + field_offset) with (len pre + (4 + field_offset)) by lia.
  replace (len pre + (4 + field_offset) + 8) with (len pre + (4 + (field_offset + 8))) by lia.
  rewrite slice_app_r by lia. unfold extra_record.
  rewrite (app_assoc (le_bytes 2 _)), <- (app_assoc (_ ++ _)).
  set (hdr := le_bytes 2 (fst rec) ++ le_bytes 2 (len (snd rec))).
  assert (len hdr = 4) as Hh by (subst hdr; rewrite len_app, !len_le_bytes; lia).
  rewrite <- Hh. rewrite slice_app_r by lia.
  rewrite slice_app_l by lia.
  apply (slice_take_drop (snd rec) field_offset 8); lia.
Qed.

Lemma unpack_u64_take data n :
  Z.of_nat n + 8 <= len data ->
  unpack_uint 8 (take 8 (drop n data)) = Done (le_uint (take 8 (drop n data))).
Proof.
  intros H. unfold unpack_uint.
  assert (len (take 8 (drop n data)) = 8) as ->; [|reflexivity].
  unfold len in *. rewrite length_take, length_drop. lia.
Qed.

Ltac zip64_step :=
  cbn [obind andb];
  match goal with
  | |- context [?a + 8 <=? len ?d] =>
      let H := fresh in
      assert ((a + 8 <=? len d) = true) as H by (apply Z.leb_le; lia);
      rewrite H; clear H
  | |- context [slice (?pre ++ extra_record ?rec ++ ?rest) (len ?pre + 4 + ?fo) _] =>
      rewrite (record_data_at pre rec rest fo) by (cbn [snd]; lia);
      cbn [snd]; rewrite unpack_u64_take by lia
  end.

Section Zip64Record.

Variables (pre data rest : bytes) (compressed uncompressed offset : Z).

Hypothesis data_fits :
  8 * count_sentinels (Sizes compressed uncompressed offset) <= len data.

Lemma peekxtract_zip64_record :
  exists r,
    Peekxtract.zip64_record (pre ++ extra_record (0x0001, data) ++ rest)
      (len pre) (len data) compressed uncompressed offset
      = Done r
    /\ sizes_of_result r
       = fill_sentinels zip64_order data (Sizes compressed uncompressed offset).
Proof.
  unfold Peekxtract.zip64_record.
  unfold count_sentinels in data_fits. cbn [sz_compressed sz_uncompressed sz_local_header_offset] in data_fits.
  unfold zip64_order. cbn [fill_sentinels get_size set_size sz_compressed sz_uncompressed sz_local_header_offset].
  pose proof (len_nonneg data) as Hd.
  destruct (uncompressed =? 4294967295) eqn:Eu;
  destruct (compressed =? 4294967295) eqn:Ec;
  destruct (offset =? 4294967295) eqn:Eo;
  repeat zip64_step; cbn [obind andb];
  eexists; (split; [reflexivity|]); cbn [sizes_of_result];
  rewrite ?drop_drop; reflexivity.
Qed.

End Zip64Record.

Lemma record_whole_data_at pre rec rest :
  slice (pre ++ extra_record rec ++ rest) (len pre + 4) (len pre + 4 + len (snd rec))
  = snd rec.
Proof.
  pose proof (len_nonneg (snd rec)).
  replace (len pre + 4 + len (snd rec)) with (len pre + (4 + len (snd rec))) by lia.
  rewrite slice_app_r by lia. unfold extra_record.
  rewrite (app_assoc (le_bytes 2 _)), <- (app_assoc (_ ++ _)).
  apply slice_app_mid; rewrite len_app, !len_le_bytes; lia.
Qed.

Ltac main_zip64_step :=
  cbn [obind andb];
  match goal with
  | |- context [?a + 8 <=? len ?d] =>
      let H := fresh in
      assert ((a + 8 <=? len d) = true) as H by (apply Z.leb_le; lia);
      rewrite H; clear H
  | |- context [slice ?d ?zo (?zo + 8)] =>
      rewrite (slice_take_drop d zo 8) by lia;
      change (Z.to_nat 8) with 8%nat;
      rewrite unpack_u64_take by lia
  end.

Section Zip64Scan.

Variables (data rest : bytes) (compressed uncompressed offset : Z).

Hypothesis data_short : len data < 65536.
Hypothesis data_fits :
  8 * count_sentinels (Sizes compressed uncompressed offset) <= len data.

(** Both parsers, standing at a ZIP64 record. *)
Lemma peekxtract_loop_found fuel pre :
  exists r,
    Peekxtract.zip64_extra_loop (S fuel) (pre ++ extra_record (0x0001, data) ++ rest)
      compressed uncompressed offset (len pre) = Done (Some r)
    /\ sizes_of_result r = fill_sentinels zip64_order data (Sizes compressed uncompressed offset).
Proof.
  destruct (peekxtract_zip64_record pre data rest compressed uncompressed offset
              data_fits) as (r & Hr & Hs).
  exists r. split; [|exact Hs].
  cbn [Peekxtract.zip64_extra_loop].
  destruct (record_header_at pre (1, data) rest) as (-> & -> & ->);
    [cbn; lia|exact data_short|].
  cbn [obind fst snd]. change (1 =? 1) with true. cbv iota.
  rewrite Hr. reflexivity.
Qed.

Lemma main_loop_found fuel pre :
  exists r,
    Main.zip64_extra_loop (S fuel) (pre ++ extra_record (0x0001, data) ++ rest)
      compressed uncompressed offset (len pre) = Done (Some r)
    /\ sizes_of_result r = fill_sentinels zip64_order data (Sizes compressed uncompressed offset).
Proof.
  cbn [Main.zip64_extra_loop].
  destruct (record_header_at pre (1, data) rest) as (-> & -> & ->);
    [cbn; lia|exact data_short|].
  cbn [obind fst snd]. change (1 =? 1) with true. cbv iota.
  pose proof (record_whole_data_at pre (1, data) rest) as Hw.
  cbn [snd] in Hw. rewrite Hw. clear Hw.
  unfold count_sentinels in data_fits.
  cbn [sz_compressed sz_uncompressed sz_local_header_offset] in data_fits.
  unfold zip64_order.
  cbn [fill_sentinels get_size set_size sz_compressed sz_uncompressed
       sz_local_header_offset].
  pose proof (len_nonneg data) as Hd.
  destruct (uncompressed =? 4294967295) eqn:Eu;
  destruct (compressed =? 4294967295) eqn:Ec;
  destruct (offset =? 4294967295) eqn:Eo;
  repeat main_zip64_step; cbn [obind andb];
  eexists; (split; [reflexivity|]); cbn [sizes_of_result];
  rewrite ?drop_drop; reflexivity.
Qed.

(** Both parsers step over a record with another header ID. *)
Lemma peekxtract_loop_skip fuel pre rec tail :
  foreign_record rec ->
  Peekxtract.zip64_extra_loop (S fuel) (pre ++ extra_record rec ++ tail)
    compressed uncompressed offset (len pre)
  = Peekxtract.zip64_extra_loop fuel ((pre ++ extra_record rec) ++ tail)
      compressed uncompressed offset (len (pre ++ extra_record rec)).
Proof.
  intros (Hid & Hne & Hlen). cbn [Peekxtract.zip64_extra_loop].
  destruct (record_header_at pre rec tail Hid Hlen) as (-> & -> & ->).
  cbn [obind]. apply Z.eqb_neq in Hne. rewrite Hne.
  rewrite len_app, len_extra_record, <- app_assoc. reflexivity.
Qed.

Lemma main_loop_skip fuel pre rec tail :
  foreign_record rec ->
  Main.zip64_extra_loop (S fuel) (pre ++ extra_record rec ++ tail)
    compressed uncompressed offset (len pre)
  = Main.zip64_extra_loop fuel ((pre ++ extra_record rec) ++ tail)
      compressed uncompressed offset (len (pre ++ extra_record rec)).
Proof.
  intros (Hid & Hne & Hlen). cbn [Main.zip64_extra_loop].
  destruct (record_header_at pre rec tail Hid Hlen) as (-> & -> & ->).
  cbn [obind]. apply Z.eqb_neq in Hne. rewrite Hne.
  rewrite len_app, len_extra_record, <- app_assoc. reflexivity.
Qed.

Lemma peekxtract_loop_scan others : forall fuel pre,
  Forall foreign_record others ->
  (length others < fuel)%nat ->
  exists r,
    Peekxtract.zip64_extra_loop fuel
      (pre ++ concat (map extra_record others) ++ extra_record (0x0001, data) ++ rest)
      compressed uncompressed offset (len pre) = Done (Some r)
    /\ sizes_of_result r = fill_sentinels zip64_order data (Sizes compressed uncompressed offset).
Proof.
  induction others as [|rec others IH]; intros fuel pre Hall Hfuel.
  - destruct fuel as [|fuel]; [cbn in Hfuel; lia|]. apply peekxtract_loop_found.
  - destruct fuel as [|fuel]; [cbn in Hfuel; lia|].
    apply Forall_cons in Hall as [Hrec Hall].
    cbn [map concat]. rewrite <- app_assoc.
    rewrite peekxtract_loop_skip by exact Hrec.
    apply IH; [exact Hall|cbn in Hfuel; lia].
Qed.

Lemma main_loop_scan others : forall fuel pre,
  Forall foreign_record others ->
  (length others < fuel)%nat ->
  exists r,
    Main.zip64_extra_loop fuel
      (pre ++ concat (map extra_record others) ++ extra_record (0x0001, data) ++ rest)
      compressed uncompressed offset (len pre) = Done (Some r)
    /\ sizes_of_result r = fill_sentinels zip64_order data (Sizes compressed uncompressed offset).
Proof.
  induction others as [|rec others IH]; intros fuel pre Hall Hfuel.
  - destruct fuel as [|fuel]; [cbn in Hfuel; lia|]. apply main_loop_found.
  - destruct fuel as [|fuel]; [cbn in Hfuel; lia|].
    apply Forall_cons in Hall as [Hrec Hall].
    cbn [map concat]. rewrite <- app_assoc.
    rewrite main_loop_skip by exact Hrec.
    apply IH; [exact Hall|cbn in Hfuel; lia].
Qed.

End Zip64Scan.

Lemma length_extra_records others :
  (length others <= length (concat (map extra_record others)))%nat.
Proof.
  induction others as [|rec others IH]; cbn [map concat length]; [lia|].
  rewrite length_app. unfold extra_record at 1. rewrite !length_app, !length_le_bytes. lia.
Qed.

(** C1 (as amended).  In an extra field made of records, of which the
    first with header ID [0x0001] carries at least 8 bytes for each header
    field that holds [0xFFFFFFFF], both parsers skip the records before
    it and give each such field the next 8-byte value of that record in
    the order uncompressed size, compressed size, local header offset
    (the order of the ZIP64 record, not the order of the fields in the
    46-byte header), leaving the other fields as they are. *)
Theorem zip64_extra_field_order others data rest compressed uncompressed offset :
  Forall foreign_record others ->
  len data < 65536 ->
  8 * count_sentinels (Sizes compressed uncompressed offset) <= len data ->
  let extra_data :=
    concat (map extra_record others) ++ extra_record (0x0001, data) ++ rest in
  let expected := fill_sentinels zip64_order data (Sizes compressed uncompressed offset) in
  (exists r, Peekxtract._parse_zip64_extra_field extra_data compressed uncompressed offset
               = Done (Some r) /\ sizes_of_result r = expected)
  /\ (exists r, Main._parse_zip64_extra_field extra_data compressed uncompressed offset
               = Done (Some r) /\ sizes_of_result r = expected).
Proof.
  intros Hall Hshort Hfits extra_data expected. subst extra_data expected.
  assert (Hfuel : (length others
            < S (length (concat (map extra_record others)
                         ++ extra_record (1%Z, data) ++ rest)))%nat).
  { pose proof (length_extra_records others). rewrite length_app. lia. }
  split.
  - apply (peekxtract_loop_scan data rest compressed uncompressed offset
             Hshort Hfits others _ [] Hall Hfuel).
  - apply (main_loop_scan data rest compressed uncompressed offset
             Hshort Hfits others _ [] Hall Hfuel).
Qed.

Lemma zip64_extra_field_order_witness :
  let extra_data :=
    concat (map extra_record [timestamp_record])
    ++ extra_record (0x0001, two_values) ++ [] in
  let expected :=
    fill_sentinels zip64_order two_values (Sizes 0xFFFFFFFF 0xFFFFFFFF 0) in
  (exists r, Peekxtract._parse_zip64_extra_field extra_data 0xFFFFFFFF 0xFFFFFFFF 0
               = Done (Some r) /\ sizes_of_result r = expected)
  /\ (exists r, Main._parse_zip64_extra_field extra_data 0xFFFFFFFF 0xFFFFFFFF 0
               = Done (Some r) /\ sizes_of_result r = expected).
Proof.
  apply (zip64_extra_field_order [timestamp_record] two_values []
           0xFFFFFFFF 0xFFFFFFFF 0).
  - constructor; [|constructor]. unfold foreign_record. vm_compute.
    repeat split; discriminate.
  - vm_compute. reflexivity.
  - vm_compute. discriminate.
Defined.

(** C1, the claim as stated fails: with both sizes at the sentinel, the
    first 8-byte value of the ZIP64 record goes to the uncompressed size
    and the second to the compressed size, whereas the order of the fields
    in the header would give the first value to the compressed size. *)
Lemma zip64_header_order_refuted :
  let extra_data := extra_record (0x0001, two_values) in
  Peekxtract._parse_zip64_extra_field extra_data 0xFFFFFFFF 0xFFFFFFFF 0
    = Done (Some (0x100000001, 0x200000002, 0))
  /\ Main._parse_zip64_extra_field extra_data 0xFFFFFFFF 0xFFFFFFFF 0
    = Done (Some (0x100000001, 0x200000002, 0))
  /\ sizes_of_result (0x100000001, 0x200000002, 0)
     = Sizes 0x200000002 0x100000001 0
  /\ fill_sentinels header_order two_values (Sizes 0xFFFFFFFF 0xFFFFFFFF 0)
     = Sizes 0x100000001 0x200000002 0
  /\ sizes_of_result (0x100000001, 0x200000002, 0)
     <> fill_sentinels header_order two_values (Sizes 0xFFFFFFFF 0xFFFFFFFF 0).
Proof.
  cbv zeta.
  split; [vm_compute; reflexivity|].
  split; [vm_compute; reflexivity|].
  split; [vm_compute; reflexivity|].
  split; [vm_compute; reflexivity|].
  vm_compute. discriminate.
Qed.


(** ** The loops have fuel enough *)

Ltac split_ifs :=
  repeat (cbn [obind];
          match goal with
          | |- context [if ?c then _ else _] => destruct c
          end).

Lemma unpack_uint_cases n buf :
  (exists v, unpack_uint n buf = Done v /\ 0 <= v)
  \/ unpack_uint n buf = Raised StructError.
Proof.
  unfold unpack_uint. destruct (len buf =? n); [left|right; reflexivity].
  eexists. split; [reflexivity|apply le_uint_nonneg].
Qed.

Lemma peekxtract_zip64_record_fuel extra_data offset data_size c u o :
  Peekxtract.zip64_record extra_data offset data_size c u o <> OutOfFuel.
Proof.
  unfold Peekxtract.zip64_record, unpack_uint. split_ifs; cbn; discriminate.
Qed.

Lemma peekxtract_zip64_loop_fuel extra_data c u o : forall fuel offset,
  (0 < fuel)%nat -> len extra_data - offset < Z.of_nat fuel ->
  Peekxtract.zip64_extra_loop fuel extra_data c u o offset <> OutOfFuel.
Proof.
  induction fuel as [|fuel IH]; intros offset Hpos Hfuel; [lia|].
  cbn [Peekxtract.zip64_extra_loop].
  destruct (Z.leb_spec (offset + 4) (len extra_data)) as [Hle|]; [|discriminate].
  destruct (unpack_uint_cases 2 (slice extra_data offset (offset + 2)))
    as [(id & -> & _)| ->]; [|discriminate].
  destruct (unpack_uint_cases 2 (slice extra_data (offset + 2) (offset + 4)))
    as [(size & -> & Hsize)| ->]; [|discriminate].
  cbn [obind]. destruct (id =? 1).
  - pose proof (peekxtract_zip64_record_fuel extra_data offset size c u o) as Hrec.
    destruct (Peekxtract.zip64_record _ _ _ _ _ _); cbn; congruence.
  - apply IH; lia.
Qed.

Lemma main_zip64_loop_fuel extra_data c u o : forall fuel offset,
  (0 < fuel)%nat -> len extra_data - offset < Z.of_nat fuel ->
  Main.zip64_extra_loop fuel extra_data c u o offset <> OutOfFuel.
Proof.
  induction fuel as [|fuel IH]; intros offset Hpos Hfuel; [lia|].
  cbn [Main.zip64_extra_loop].
  destruct (Z.leb_spec (offset + 4) (len extra_data)) as [Hle|]; [|discriminate].
  destruct (unpack_uint_cases 2 (slice extra_data offset (offset + 2)))
    as [(id & -> & _)| ->]; [|discriminate].
  destruct (unpack_uint_cases 2 (slice extra_data (offset + 2) (offset + 4)))
    as [(size & -> & Hsize)| ->]; [|discriminate].
  cbn [obind]. destruct (id =? 1).
  - unfold unpack_uint. split_ifs; cbn; discriminate.
  - apply IH; lia.
Qed.

(** [_parse_zip64_extra_field] always returns or raises. *)
Lemma parse_zip64_extra_field_total extra_data c u o :
  Peekxtract._parse_zip64_extra_field extra_data c u o <> OutOfFuel
  /\ Main._parse_zip64_extra_field extra_data c u o <> OutOfFuel.
Proof.
  split.
  - apply peekxtract_zip64_loop_fuel; unfold len; lia.
  - apply main_zip64_loop_fuel; unfold len; lia.
Qed.

Lemma split_fields_nonneg widths : forall buf, Forall (Z.le 0) (split_fields widths buf).
Proof.
  induction widths as [|w ws IH]; intros buf; cbn [split_fields]; constructor.
  - apply le_uint_nonneg.
  - apply IH.
Qed.

Lemma field_nonneg k tuple : Forall (Z.le 0) tuple -> 0 <= field k tuple.
Proof.
  intros H. unfold field. revert k.
  induction H as [|x l Hx Hl IH]; intros [|k]; cbn; try lia. apply IH.
Qed.

(** A turn of the central-directory loop that goes on moves forward by at
    least the 46 bytes of the fixed header. *)
Lemma cd_entry_progress cd_data offset entry_count file_count files_info :
  match Peekxtract.cd_entry cd_data offset entry_count file_count files_info with
  | Done (Peekxtract.CdNext offset' _ _) => offset + 46 <= offset'
  | Done Peekxtract.CdBreak | Raised _ => True
  | OutOfFuel => False
  end.
Proof.
  unfold Peekxtract.cd_entry, struct_unpack.
  destruct (len _ =? _); [|exact I]. cbn [obind].
  set (header := split_fields _ _).
  assert (Hnn : Forall (Z.le 0) header) by apply split_fields_nonneg.
  pose proof (field_nonneg 10 header Hnn). pose proof (field_nonneg 11 header Hnn).
  pose proof (field_nonneg 12 header Hnn).
  destruct (negb _); [exact I|].
  destruct (_ >? len cd_data); [exact I|].
  match goal with
  | |- context [obind ?m _] =>
      assert (Hm : m <> OutOfFuel);
        [|destruct m as [[[ru rc] ro]|e|]; [|exact I|congruence]]
  end.
  { destruct (field 11 header >? 0); [|discriminate].
    destruct (_ <=? len cd_data); [|discriminate].
    pose proof (proj1 (parse_zip64_extra_field_total
                         (slice cd_data (offset + 46 + field 10 header)
                                (offset + 46 + field 10 header + field 11 header))
                         (field 8 header) (field 9 header) (field 16 header))) as Ht.
    destruct (Peekxtract._parse_zip64_extra_field _ _ _ _) as [[r|]|e|];
      cbn [obind]; congruence. }
  cbn [obind]. destruct (_ && _); lia.
Qed.

Lemma cd_walk_fuel cd_data : forall fuel offset entry_count file_count files_info,
  (0 < fuel)%nat -> len cd_data - offset < Z.of_nat fuel ->
  Peekxtract.cd_walk fuel cd_data offset entry_count file_count files_info
    <> OutOfFuel.
Proof.
  induction fuel as [|fuel IH]; intros offset entry_count file_count files_info
    Hpos Hfuel; [lia|].
  cbn [Peekxtract.cd_walk].
  destruct (offset <? len cd_data); [|discriminate].
  destruct (Z.gtb_spec (offset + 46) (len cd_data)) as [|Hle]; [discriminate|].
  pose proof (cd_entry_progress cd_data offset (entry_count + 1) file_count files_info)
    as Hstep.
  destruct (Peekxtract.cd_entry _ _ _ _ _) as [[|offset' fc fi]|e|];
    [discriminate| | |contradiction]; apply IH; lia.
Qed.

(** The central-directory walk always returns a catalog. *)
Lemma cd_walk_total cd_data :
  exists files_info,
    Peekxtract.cd_walk (S (length cd_data)) cd_data 0 0 0 [] = Done files_info.
Proof.
  pose proof (cd_walk_fuel cd_data (S (length cd_data)) 0 0 0 []
                ltac:(lia) ltac:(unfold len; lia)) as Hfuel.
  assert (Hraise : forall fuel offset entry_count file_count files_info e,
            Peekxtract.cd_walk fuel cd_data offset entry_count file_count files_info
            <> Raised e).
  { induction fuel as [|fuel IH]; intros; [discriminate|].
    cbn [Peekxtract.cd_walk].
    destruct (_ <? _); [|discriminate]. destruct (_ >? _); [discriminate|].
    destruct (Peekxtract.cd_entry _ _ _ _ _) as [[|o' fc fi]|e'|];
      try discriminate; apply IH. }
  destruct (Peekxtract.cd_walk _ _ _ _ _ _) as [fi|e|] eqn:E.
  - eauto.
  - exfalso. exact (Hraise _ _ _ _ _ _ E).
  - congruence.
Qed.

Lemma local_zip64_loop_fuel extra_data c u : forall fuel offset,
  (0 < fuel)%nat -> len extra_data - offset < Z.of_nat fuel ->
  Peekxtract.local_zip64_loop fuel extra_data c u offset <> OutOfFuel.
Proof.
  induction fuel as [|fuel IH]; intros offset Hpos Hfuel; [lia|].
  cbn [Peekxtract.local_zip64_loop].
  destruct (Z.leb_spec (offset + 4) (len extra_data)) as [Hle|]; [|discriminate].
  destruct (unpack_uint_cases 2 (slice extra_data offset (offset + 2)))
    as [(id & -> & _)| ->]; [|discriminate].
  destruct (unpack_uint_cases 2 (slice extra_data (offset + 2) (offset + 4)))
    as [(size & -> & Hsize)| ->]; [|discriminate].
  cbn [obind]. destruct (id =? 1).
  - unfold unpack_uint. split_ifs; cbn; discriminate.
  - apply IH; lia.
Qed.

(** ** Decoding file names ([decode('utf-8', errors='ignore')]) *)

Ltac cmp_cases :=
  repeat match goal with
  | |- context [?a <? ?b] => destruct (Z.ltb_spec a b)
  | |- context [?a =? ?b] => destruct (Z.eqb_spec a b)
  | |- context [?a <=? ?b] => destruct (Z.leb_spec a b)
  end.

(** A first byte: emits ASCII only, and remembers at most itself. *)
Lemma utf8_start_inv bb :
  fst (utf8_start (byte_val bb)) <> Some REPLACEMENT_CHARACTER
  /\ exists pending,
       utf8_inv (snd (utf8_start (byte_val bb))) pending
       /\ (pending = [] \/ pending = [bb]).
Proof.
  pose proof (byte_val_range bb) as Hb. unfold utf8_start, REPLACEMENT_CHARACTER.
  cmp_cases; cbn [fst snd]; (split; [try discriminate; intros [= ?]; lia|]);
  first [ exists []; split; [reflexivity|left; reflexivity]
        | exists [bb]; split; [|right; reflexivity];
          cbn [utf8_inv]; repeat split; try lia;
          first [ left; split; [lia|exists bb; split; [reflexivity|lia]] | idtac ] ].
Qed.

(** One byte: what is pending afterwards is the end of what was pending
    followed by that byte, and U+FFFD comes out only of [EF BF BD]. *)
Lemma utf8_step_inv st pending bb :
  utf8_inv st pending ->
  (exists dropped pending',
     pending ++ [bb] = dropped ++ pending'
     /\ utf8_inv (snd (utf8_step st (byte_val bb))) pending')
  /\ (fst (utf8_step st (byte_val bb)) = Some REPLACEMENT_CHARACTER ->
      exists dropped, pending ++ [bb] = dropped ++ [xef; xbf; xbd]).
Proof.
  intros Hinv. pose proof (byte_val_range bb) as Hb.
  destruct (utf8_start_inv bb) as (Hne & p0 & Hp0 & Hp0').
  assert (Hstart :
    (exists dropped pending',
       pending ++ [bb] = dropped ++ pending'
       /\ utf8_inv (snd (utf8_start (byte_val bb))) pending')
    /\ (fst (utf8_start (byte_val bb)) = Some REPLACEMENT_CHARACTER ->
        exists dropped, pending ++ [bb] = dropped ++ [xef; xbf; xbd])).
  { split; [|intros H; contradiction].
    destruct Hp0' as [-> | ->].
    - exists (pending ++ [bb]), []. rewrite app_nil_r. split; [reflexivity|exact Hp0].
    - exists pending, [bb]. split; [reflexivity|exact Hp0]. }
  destruct st as [|need acc lo hi]; [exact Hstart|].
  cbn [utf8_step].
  destruct ((lo <=? byte_val bb) && (byte_val bb <=? hi)) eqn:Hin; [|exact Hstart].
  apply andb_true_iff in Hin as [Hlo Hhi]. apply Z.leb_le in Hlo, Hhi.
  destruct need as [|[|[|[|need]]]]; cbn [utf8_inv] in Hinv; try contradiction.
  - (* the last byte of a sequence *)
    destruct Hinv as (Hl & Hh & Hp). cbn [fst snd utf8_inv]. split.
    + exists (pending ++ [bb]), []. rewrite app_nil_r. split; reflexivity.
    + unfold REPLACEMENT_CHARACTER. intros [= Hc].
      assert (acc = 1023) as Hacc by lia.
      assert (byte_val bb = byte_val xbd) as Hbb by (cbn; lia).
      apply byte_val_inj in Hbb. subst bb.
      exists []. rewrite (Hp Hacc). reflexivity.
  - (* one more to come *)
    destruct Hinv as (Hl & Hh & Hp). cbn [fst snd]. split; [|discriminate].
    exists [], (pending ++ [bb]). split; [reflexivity|].
    cbn [utf8_inv]. repeat split; try lia.
    intros Hacc. destruct Hp as [(Ha & b0 & -> & Hb0)|Ha]; [|lia].
    assert (byte_val b0 = byte_val xef) as H0 by (cbn; lia).
    assert (byte_val bb = byte_val xbf) as H1 by (cbn; lia).
    apply byte_val_inj in H0, H1. subst. reflexivity.
  - (* two more to come *)
    destruct Hinv as (Hl & Hh & Ha & Hz). cbn [fst snd]. split; [|discriminate].
    exists [], (pending ++ [bb]). split; [reflexivity|].
    cbn [utf8_inv]. repeat split; lia.
Qed.

Lemma utf8_run_replacement bs : forall st pending,
  utf8_inv st pending ->
  In REPLACEMENT_CHARACTER (utf8_run st bs) ->
  exists pre post, pending ++ bs = pre ++ [xef; xbf; xbd] ++ post.
Proof.
  induction bs as [|bb bs IH]; intros st pending Hinv Hin; [destruct Hin|].
  cbn [utf8_run] in Hin.
  destruct (utf8_step_inv st pending bb Hinv)
    as ((dropped & pending' & Hsplit & Hinv') & Hemit).
  assert (Hrest : In REPLACEMENT_CHARACTER (utf8_run (snd (utf8_step st (byte_val bb))) bs)
                  -> exists pre post, pending ++ bb :: bs = pre ++ [xef; xbf; xbd] ++ post).
  { intros Hr. destruct (IH _ _ Hinv' Hr) as (pre & post & Heq).
    exists (dropped ++ pre), post.
    change (bb :: bs) with ([bb] ++ bs).
    rewrite app_assoc, Hsplit, <- !app_assoc, Heq. reflexivity. }
  destruct (utf8_step st (byte_val bb)) as [[c|] st'] eqn:Estep; cbn [fst snd] in *.
  - destruct Hin as [Hc|Hr]; [|exact (Hrest Hr)].
    subst c. destruct (Hemit eq_refl) as (d & Hd).
    exists d, bs. change (bb :: bs) with ([bb] ++ bs).
    rewrite app_assoc, Hd, <- app_assoc. reflexivity.
  - exact (Hrest Hin).
Qed.

(** In any reachable state the next byte must be a continuation byte. *)
Lemma utf8_inv_hi need acc lo hi pending :
  utf8_inv (Cont need acc lo hi) pending -> hi <= 0xBF.
Proof.
  destruct need as [|[|[|[|need]]]]; cbn [utf8_inv]; try contradiction; intros; lia.
Qed.

Lemma utf8_run_never st pre x post pending :
  utf8_inv st pending ->
  never_utf8 x = true ->
  utf8_run st (pre ++ x :: post) = utf8_run st pre ++ utf8_run Start post.
Proof.
  intros Hinv Hx. revert st pending Hinv.
  induction pre as [|bb pre IH]; intros st pending Hinv.
  - cbn [app utf8_run].
    assert (utf8_step st (byte_val x) = (None, Start)) as ->; [|reflexivity].
    assert (Hs : utf8_start (byte_val x) = (None, Start)).
    { unfold never_utf8 in Hx. unfold utf8_start. pose proof (byte_val_range x).
      revert Hx. cmp_cases; cbn; intros; try reflexivity; try discriminate; lia. }
    destruct st as [|need acc lo hi]; [exact Hs|].
    cbn [utf8_step]. apply utf8_inv_hi in Hinv.
    assert ((byte_val x <=? hi) = false) as ->.
    { apply Z.leb_gt. unfold never_utf8 in Hx. revert Hx.
      cmp_cases; cbn; intros; try discriminate; lia. }
    rewrite andb_false_r. exact Hs.
  - cbn [app utf8_run].
    destruct (utf8_step_inv st pending bb Hinv) as ((_ & pending' & _ & Hinv') & _).
    destruct (utf8_step st (byte_val bb)) as [[c|] st']; cbn [snd] in Hinv';
      cbn [app]; rewrite (IH _ _ Hinv'); reflexivity.
Qed.


(** *** Names in the catalog *)

Lemma occurs_in_slice pat (data : bytes) i j :
  occurs_in pat (slice data i j) -> occurs_in pat data.
Proof.
  intros (pre & post & Heq). unfold slice in Heq.
  exists (take (Z.to_nat i) data ++ pre),
         (post ++ drop (Z.to_nat (j - i)) (drop (Z.to_nat i) data)).
  rewrite <- (take_drop (Z.to_nat i) data) at 1.
  rewrite <- (take_drop (Z.to_nat (j - i)) (drop (Z.to_nat i) data)) at 1.
  rewrite Heq, <- !app_assoc. reflexivity.
Qed.

Lemma lit_latin1 s : Forall (fun c => 0 <= c < 256) (lit s).
Proof.
  unfold lit. induction (list_ascii_of_string s) as [|a l IH]; constructor; [|exact IH].
  pose proof (N_ascii_bounded a). lia.
Qed.

Lemma dict_set_elem {V} (d : list (Z * V)) k v entry :
  entry ∈ dict_set d k v -> entry ∈ d \/ entry = (k, v).
Proof.
  induction d as [|[k' v'] d IH]; cbn [dict_set].
  - intros Hin. apply list_elem_of_singleton in Hin. right. exact Hin.
  - destruct (k' =? k).
    + intros Hin. apply elem_of_cons in Hin as [->|Hin]; [right; reflexivity|].
      left. apply list_elem_of_further, Hin.
    + intros Hin. apply elem_of_cons in Hin as [->|Hin];
        [left; apply list_elem_of_here|].
      destruct (IH Hin) as [Hd|Heq]; [left; apply list_elem_of_further, Hd|right; exact Heq].
Qed.

Lemma cd_next_inj o c f o' c' f' :
  @Done Peekxtract.cd_turn (Peekxtract.CdNext o c f) = Done (Peekxtract.CdNext o' c' f') ->
  o = o' /\ c = c' /\ f = f'.
Proof. intros [= -> -> ->]. repeat split. Qed.

Section CatalogNames.

Variable cd_data : bytes.


Lemma cd_entry_faithful offset entry_count file_count files_info
    offset' file_count' files_info' :
  Peekxtract.cd_entry cd_data offset entry_count file_count files_info
    = Done (Peekxtract.CdNext offset' file_count' files_info') ->
  Forall (no_replacement_added cd_data) files_info -> Forall (no_replacement_added cd_data) files_info'.
Proof.
  unfold Peekxtract.cd_entry, struct_unpack.
  destruct (len _ =? _); [|discriminate]. cbn [obind].
  set (header := split_fields _ _).
  destruct (negb _); [discriminate|].
  destruct (_ >? len cd_data); [discriminate|].
  match goal with
  | |- context [obind ?m _] => destruct m as [[[ru rc] ro]|e|]
  end; cbn [obind]; try discriminate.
  destruct (negb (endswith_char _ 47) && _); cbv beta iota;
    intros Hnext Hold; apply cd_next_inj in Hnext as (_ & _ & <-); [|exact Hold].
  apply Forall_forall. intros entry Hin.
  destruct (dict_set_elem _ _ _ _ Hin) as [Hin'| ->];
    [exact (proj1 (Forall_forall _ _) Hold entry Hin')|].
  unfold no_replacement_added. cbn [snd filename].
  destruct (field 10 header >? 0).
  - intros Hrepl. apply (occurs_in_slice _ cd_data (offset + 46)
                           (offset + 46 + field 10 header)).
    exact (utf8_run_replacement _ Start [] eq_refl Hrepl).
  - intros Hrepl. exfalso.
    apply in_app_or in Hrepl as [Hrepl|Hrepl].
    + pose proof (proj1 (List.Forall_forall _ _) (lit_latin1 "unnamed_file_") _ Hrepl).
      unfold REPLACEMENT_CHARACTER in *. lia.
    + unfold str_of_int in Hrepl.
      pose proof (proj1 (List.Forall_forall _ _) (lit_latin1 _) _ Hrepl).
      unfold REPLACEMENT_CHARACTER in *. lia.
Qed.

Lemma cd_walk_faithful : forall fuel offset entry_count file_count files_info catalog,
  Peekxtract.cd_walk fuel cd_data offset entry_count file_count files_info
    = Done catalog ->
  Forall (no_replacement_added cd_data) files_info -> Forall (no_replacement_added cd_data) catalog.
Proof.
  induction fuel as [|fuel IH]; intros offset entry_count file_count files_info
    catalog; [discriminate|].
  cbn [Peekxtract.cd_walk].
  destruct (_ <? _); [|intros [= <-] H; exact H].
  destruct (_ >? _); [intros [= <-] H; exact H|].
  destruct (Peekxtract.cd_entry _ _ _ _ _) as [[|offset' fc fi]|e|] eqn:Estep.
  - intros [= <-] H; exact H.
  - intros Hwalk Hold. apply (IH _ _ _ _ _ Hwalk).
    exact (cd_entry_faithful _ _ _ _ _ _ _ Estep Hold).
  - apply IH.
  - discriminate.
Qed.

End CatalogNames.


(** ** Chunk planning ([download_file]) *)

Lemma ceil_div_bounds C k :
  0 < k ->
  k * ((C + k - 1) / k - 1) < C <= k * ((C + k - 1) / k).
Proof.
  intros Hk.
  pose proof (Z.div_mod (C + k - 1) k ltac:(lia)) as Hdm.
  pose proof (Z.mod_pos_bound (C + k - 1) k Hk) as Hmod.
  lia.
Qed.

(** Byte [b] of the payload lies in chunk [(b - P) / k]. *)
Lemma chunk_of_byte P C k b :
  0 < k -> P <= b < P + C ->
  0 <= (b - P) / k < (C + k - 1) / k
  /\ P + (b - P) / k * k <= b
       <= Z.min (P + (b - P) / k * k + k - 1) (P + C - 1).
Proof.
  intros Hk Hb.
  pose proof (Z.div_mod (b - P) k ltac:(lia)) as Hdm.
  pose proof (Z.mod_pos_bound (b - P) k Hk) as Hmod.
  pose proof (ceil_div_bounds C k Hk) as Hceil.
  assert (0 <= (b - P) / k) by (apply Z.div_pos; lia).
  repeat split; try lia.
  apply Z.lt_nge. intros Hge.
  assert (k * ((C + k - 1) / k) <= k * ((b - P) / k)) by nia.
  lia.
Qed.

Section Plan.

Variables (srv : server) (files_info : list (Z * file_info))
          (current_display_mapping : gmap Z Z).

(** The plan is a function of the catalog entry and of what the probe of
    its local header returns. *)
Lemma download_file_plan_eq display_file_number max_workers w info P A m w' :
  let idx := Peekxtract._get_actual_file_index current_display_mapping
               (display_file_number - 1) in
  0 <= idx < len files_info ->
  dict_get files_info idx = Some info ->
  Peekxtract._get_local_file_header_info srv (local_header_offset info) w
    = (Done (P, A, m), w') ->
  Peekxtract.download_file_plan srv files_info current_display_mapping
    display_file_number max_workers w =
  (let C := Z.max (compressed_size info) A in
   let '(k, workers) :=
     if C >? 1024 * 1024 * 1024 then (16 * 1024 * 1024, 2)
     else if C >? 100 * 1024 * 1024 then (8 * 1024 * 1024, 3)
     else (4 * 1024 * 1024, max_workers) in
   (Done (Some (Peekxtract.ChunkPlan P C k workers ((C + k - 1) / k))), w')).
Proof.
  intros idx Hidx Hget Hprobe. unfold Peekxtract.download_file_plan.
  fold idx.
  assert ((idx <? 0) || (idx >=? len files_info) = false) as ->.
  { apply orb_false_iff. split; [apply Z.ltb_ge; lia|].
    rewrite Z.geb_leb. apply Z.leb_gt. lia. }
  rewrite Hget. unfold bind at 1. rewrite Hprobe.
  assert ((if A >? compressed_size info then A else compressed_size info)
          = Z.max (compressed_size info) A) as ->.
  { destruct (A >? compressed_size info) eqn:E.
    - apply Z.gtb_lt in E. lia.
    - rewrite Z.gtb_ltb in E. apply Z.ltb_ge in E. lia. }
  cbv zeta.
  destruct (Z.max (compressed_size info) A >? 1024 * 1024 * 1024); [reflexivity|].
  destruct (Z.max (compressed_size info) A >? 100 * 1024 * 1024); reflexivity.
Qed.

Lemma download_file_plan_chunk_size display_file_number max_workers w w' p :
  Peekxtract.download_file_plan srv files_info current_display_mapping
    display_file_number max_workers w = (Done (Some p), w') ->
  0 < Peekxtract.chunk_size p
  /\ Peekxtract.total_chunks p
     = (Peekxtract.expected_size p + Peekxtract.chunk_size p - 1)
       / Peekxtract.chunk_size p.
Proof.
  unfold Peekxtract.download_file_plan.
  destruct (_ || _); [discriminate|].
  destruct (dict_get _ _) as [info|]; [|discriminate].
  unfold bind at 1.
  destruct (Peekxtract._get_local_file_header_info _ _ _) as [[[[P A] m]|e|] w1];
    try discriminate.
  cbv zeta.
  set (C := if A >? compressed_size info then A else compressed_size info).
  destruct (C >? 1024 * 1024 * 1024);
    [|destruct (C >? 100 * 1024 * 1024)];
    intros [= <- _]; cbn; split; (lia || reflexivity).
Qed.

End Plan.

(** C4.  [download_file] first probes the local header and takes as [C]
    the larger of the catalog's and the local header's compressed size;
    the chunk size and the number of workers are chosen from that [C]
    (16 MiB and 2 above 1 GiB, 8 MiB and 3 above 100 MiB, otherwise 4 MiB
    and the default 4), and the number of chunks is [ceil(C / chunk)], so
    the chunks reach the end of the payload. *)
Theorem download_file_geometry srv files_info current_display_mapping
    display_file_number w info P A m w' :
  let idx := Peekxtract._get_actual_file_index current_display_mapping
               (display_file_number - 1) in
  0 <= idx < len files_info ->
  dict_get files_info idx = Some info ->
  Peekxtract._get_local_file_header_info srv (local_header_offset info) w
    = (Done (P, A, m), w') ->
  exists p,
    Peekxtract.download_file_plan srv files_info current_display_mapping
      display_file_number Peekxtract.default_max_workers w = (Done (Some p), w')
    /\ Peekxtract.data_offset p = P
    /\ Peekxtract.expected_size p = Z.max (compressed_size info) A
    /\ (let C := Peekxtract.expected_size p in
        let MiB := 1024 * 1024 in
        (1024 * MiB < C ->
           Peekxtract.chunk_size p = 16 * MiB /\ Peekxtract.max_workers p = 2)
        /\ (100 * MiB < C <= 1024 * MiB ->
           Peekxtract.chunk_size p = 8 * MiB /\ Peekxtract.max_workers p = 3)
        /\ (C <= 100 * MiB ->
           Peekxtract.chunk_size p = 4 * MiB /\ Peekxtract.max_workers p = 4))
    /\ Peekxtract.chunk_size p * (Peekxtract.total_chunks p - 1)
         < Peekxtract.expected_size p
         <= Peekxtract.chunk_size p * Peekxtract.total_chunks p.
Proof.
  intros idx Hidx Hget Hprobe.
  pose proof (download_file_plan_eq srv files_info current_display_mapping
                display_file_number Peekxtract.default_max_workers
                w info P A m w' Hidx Hget Hprobe) as Heq.
  cbv zeta in Heq.
  set (C := Z.max (compressed_size info) A) in *.
  destruct (C >? 1024 * 1024 * 1024) eqn:E1;
    [|destruct (C >? 100 * 1024 * 1024) eqn:E2];
    (eexists; split; [exact Heq|]); cbn;
    rewrite ?Z.gtb_ltb in *;
    repeat match goal with
           | H : (_ <? _) = true |- _ => apply Z.ltb_lt in H
           | H : (_ <? _) = false |- _ => apply Z.ltb_ge in H
           end;
    (split; [reflexivity|]); (split; [reflexivity|]);
    (split; [repeat split; unfold Peekxtract.default_max_workers; lia
            |apply ceil_div_bounds; lia]).
Qed.

Lemma download_file_geometry_witness :
  exists p,
    Peekxtract.download_file_plan (file_server hello_zip) hello_catalog ∅ 1
      Peekxtract.default_max_workers world0
    = (Done (Some p), World [Range 0 29; Range 30 38] [])
    /\ Peekxtract.data_offset p = 39
    /\ Peekxtract.expected_size p = Z.max 11 11
    /\ (let C := Peekxtract.expected_size p in
        let MiB := 1024 * 1024 in
        (1024 * MiB < C ->
           Peekxtract.chunk_size p = 16 * MiB /\ Peekxtract.max_workers p = 2)
        /\ (100 * MiB < C <= 1024 * MiB ->
           Peekxtract.chunk_size p = 8 * MiB /\ Peekxtract.max_workers p = 3)
        /\ (C <= 100 * MiB ->
           Peekxtract.chunk_size p = 4 * MiB /\ Peekxtract.max_workers p = 4))
    /\ Peekxtract.chunk_size p * (Peekxtract.total_chunks p - 1)
         < Peekxtract.expected_size p
         <= Peekxtract.chunk_size p * Peekxtract.total_chunks p.
Proof.
  apply (download_file_geometry (file_server hello_zip) hello_catalog ∅ 1 world0
           (FileInfo (lit "hello.txt") 11 11 0 0 0x0d4a1185) 39 11 0
           (World [Range 0 29; Range 30 38] [])).
  - vm_compute. split; [discriminate|reflexivity].
  - reflexivity.
  - vm_compute. reflexivity.
Defined.

(** ** [parse_range] *)


Lemma elem_of_py_range n x : x ∈ py_range n <-> 0 <= x < n.
Proof.
  unfold py_range. rewrite list_elem_of_fmap. split.
  - intros (k & -> & Hk). apply elem_of_seq in Hk. lia.
  - intros Hx. exists (Z.to_nat x). split; [lia|]. apply elem_of_seq. lia.
Qed.

Lemma elem_of_py_range2 a b x : x ∈ py_range2 a b <-> a <= x < b.
Proof.
  unfold py_range2. rewrite list_elem_of_fmap. split.
  - intros (i & -> & Hi). apply elem_of_py_range in Hi. lia.
  - intros Hx. exists (x - a). split; [lia|]. apply elem_of_py_range. lia.
Qed.

Section ParseRange.

Variable max_val : Z.



End ParseRange.

Lemma StronglySorted_le_lt (l : list Z) :
  StronglySorted Z.le l -> NoDup l -> StronglySorted Z.lt l.
Proof.
  induction 1 as [|x l Hl IH Hx]; intros Hnd; [constructor|].
  apply NoDup_cons in Hnd as [Hnotin Hnd].
  constructor; [apply IH, Hnd|].
  apply Forall_forall. intros y Hy.
  pose proof (proj1 (Forall_forall _ _) Hx y Hy).
  assert (x <> y) by (intros ->; contradiction).
  lia.
Qed.

(** [sorted(set(l))] is strictly increasing and has the elements of [l]. *)
Lemma sorted_set_spec l :
  StronglySorted Z.lt (sorted_set l) /\ (forall x, x ∈ sorted_set l <-> x ∈ l).
Proof.
  unfold sorted_set.
  pose proof (merge_sort_Permutation Z.le (remove_dups l)) as Hperm.
  split.
  - apply StronglySorted_le_lt.
    + apply Sorted_StronglySorted; [intros x y z; apply Z.le_trans|].
      apply (Sorted_merge_sort Z.le).
    + rewrite Hperm. apply NoDup_remove_dups.
  - intros x. rewrite Hperm. apply elem_of_remove_dups.
Qed.


(** ** [list_files] *)

Section Listing.

Variable regex : Type.
Variable re_compile : str -> Peekxtract.compiled regex.
Variable re_search : regex -> str -> bool.
Variable lower : str -> str.


Lemma lookup_identity_mapping files_info i :
  Peekxtract.identity_mapping files_info !! i
  = if decide (i ∈ dict_keys files_info) then Some i else None.
Proof.
  unfold Peekxtract.identity_mapping.
  induction (dict_keys files_info) as [|k keys IH]; cbn [map].
  - rewrite list_to_map_nil, lookup_empty.
    destruct (decide _) as [Hin|]; [|reflexivity].
    apply elem_of_nil in Hin. contradiction.
  - rewrite list_to_map_cons. destruct (decide (k = i)) as [->|Hne].
    + rewrite lookup_insert_eq. rewrite decide_True by apply list_elem_of_here.
      reflexivity.
    + rewrite lookup_insert_ne by exact Hne. rewrite IH.
      destruct (decide (i ∈ keys)) as [Hin|Hnotin].
      * rewrite decide_True by (apply list_elem_of_further, Hin). reflexivity.
      * rewrite decide_False; [reflexivity|].
        intros Hin. apply elem_of_cons in Hin as [->|Hin]; contradiction.
Qed.

Lemma get_actual_file_index_identity files_info d :
  Peekxtract._get_actual_file_index (Peekxtract.identity_mapping files_info) d = d.
Proof.
  unfold Peekxtract._get_actual_file_index. rewrite lookup_identity_mapping.
  destruct (decide _); reflexivity.
Qed.


End Listing.



(** * Further properties of the code *)

(** ** Member paths ([download_file], [safe_parts]) *)

Lemma sanitize_part_map p :
  Peekxtract.sanitize_part p = map (fun c => if forbidden_char c then 95 else c) p.
Proof.
  unfold Peekxtract.sanitize_part, Peekxtract.replace_char.
  rewrite !map_map. apply map_ext. intros c. unfold forbidden_char.
  repeat match goal with
         | |- context [?a =? ?b] => destruct (Z.eqb_spec a b); try lia
         end; cbn; reflexivity.
Qed.

Lemma sanitize_part_clean p : clean_part (Peekxtract.sanitize_part p).
Proof.
  rewrite sanitize_part_map. unfold clean_part. apply Forall_forall.
  intros c Hc. apply list_elem_of_fmap in Hc as (c0 & -> & _).
  destruct (forbidden_char c0) eqn:E; [reflexivity|exact E].
Qed.

Lemma sanitize_part_fixed p : clean_part p -> Peekxtract.sanitize_part p = p.
Proof.
  rewrite sanitize_part_map. unfold clean_part. induction 1 as [|c p Hc Hp IH];
    cbn [map]; [reflexivity|]. now rewrite Hc, IH.
Qed.

(** The components of the path a member is written to: one for each
    part of the member name between slashes, of the same length as that
    part and free of the nine characters; a part that has none of them
    is kept as it is, so that a [..] in the member name is a [..] in the
    path. *)
Theorem safe_parts_components internal_path :
  length (Peekxtract.safe_parts internal_path) = length (split_char 47 internal_path)
  /\ Forall clean_part (Peekxtract.safe_parts internal_path)
  /\ (forall i part,
        split_char 47 internal_path !! i = Some part ->
        exists safe,
          Peekxtract.safe_parts internal_path !! i = Some safe
          /\ length safe = length part
          /\ (clean_part part -> safe = part))
  /\ (forall i,
        split_char 47 internal_path !! i = Some (lit "..") ->
        Peekxtract.safe_parts internal_path !! i = Some (lit "..")).
Proof.
  unfold Peekxtract.safe_parts. split; [apply length_map|]. split.
  - apply Forall_forall. intros p Hp. apply list_elem_of_fmap in Hp as (p0 & -> & _).
    apply sanitize_part_clean.
  - split.
    + intros i part Hi. exists (Peekxtract.sanitize_part part).
      rewrite list_lookup_fmap, Hi. split; [reflexivity|]. split.
      * rewrite sanitize_part_map. apply length_map.
      * apply sanitize_part_fixed.
    + intros i Hi. rewrite list_lookup_fmap, Hi. reflexivity.
Qed.

Example safe_parts_traversal :
  Peekxtract.safe_parts (lit "../a:b/c") = [lit ".."; lit "a_b"; lit "c"].
Proof. vm_compute. reflexivity. Qed.

(** ** Reading from a server that honours ranges *)

Lemma file_server_read file start length w :
  Peekxtract._read_bytes (file_server file) start length w
  = (Done (slice file start (start + length)),
     World (requests w ++ [Range start (start + length - 1)]) (sleeps w)).
Proof.
  unfold Peekxtract._read_bytes, Peekxtract._read_bytes_opt, bind at 1.
  change (py_range 3) with [0; 1; 2].
  rewrite read_attempts_cons. cbn [file_server accepted range_first range_last].
  change ((206 =? 206) || (206 =? 200)) with true. cbv iota.
  replace (start + length - 1 + 1) with (start + length) by lia. reflexivity.
Qed.

Lemma slice_split {A} (l : list A) a b c :
  0 <= a <= b -> b <= c -> slice l a b ++ slice l b c = slice l a c.
Proof.
  intros Hab Hbc. unfold slice.
  replace (Z.to_nat b) with (Z.to_nat a + Z.to_nat (b - a))%nat by lia.
  rewrite <- drop_drop.
  replace (Z.to_nat (c - a)) with (Z.to_nat (b - a) + Z.to_nat (c - b))%nat by lia.
  generalize (drop (Z.to_nat a) l). intros l'.
  apply take_take_drop.
Qed.

(** ** Chunks and their reassembly ([download_file]) *)

Lemma py_range_S n :
  py_range (Z.of_nat (S n)) = py_range (Z.of_nat n) ++ [Z.of_nat n].
Proof.
  unfold py_range. rewrite !Nat2Z.id, seq_S, map_app. reflexivity.
Qed.

Lemma py_range_nonpos n : n <= 0 -> py_range n = [].
Proof. intros H. unfold py_range. now replace (Z.to_nat n) with 0%nat by lia. Qed.

(** The slices of a file at the chunk ranges, put end to end in the
    order of the chunks, are the slice of the payload. *)
Lemma chunks_concat (file : bytes) P C k : forall n,
  0 <= P -> 0 < k -> Z.of_nat n <= (C + k - 1) / k ->
  concat (map (fun i => slice file (P + i * k)
                          (Z.min (P + i * k + k - 1) (P + C - 1) + 1))
              (py_range (Z.of_nat n)))
  = slice file P (Z.min (P + Z.of_nat n * k) (P + C)).
Proof.
  intros n HP Hk. pose proof (ceil_div_bounds C k Hk) as Hceil.
  induction n as [|n IH]; intros Hn.
  - change (py_range (Z.of_nat 0)) with (@nil Z). cbn [map concat]. symmetry.
    unfold slice.
    replace (Z.to_nat (Z.min (P + Z.of_nat 0 * k) (P + C) - P)) with 0%nat by lia.
    reflexivity.
  - rewrite py_range_S, map_app, concat_app, IH by lia. cbn [map concat].
    rewrite app_nil_r.
    assert (Z.of_nat n * k < C) by nia.
    replace (Z.min (P + Z.of_nat n * k) (P + C)) with (P + Z.of_nat n * k) by lia.
    replace (Z.min (P + Z.of_nat n * k + k - 1) (P + C - 1) + 1)
      with (Z.min (P + Z.of_nat (S n) * k) (P + C)) by lia.
    apply slice_split; lia.
Qed.

Lemma join_chunks_some (chunks : list bytes) :
  Peekxtract.join_chunks (map Some chunks) = Done (concat chunks).
Proof.
  induction chunks as [|c chunks IH]; cbn [map Peekxtract.join_chunks concat];
    [reflexivity|]. rewrite IH. reflexivity.
Qed.

(** Slot [j] after the results have been stored: the chunk of task [j]
    if that task has completed, otherwise what was there. *)
Lemma store_chunks_lookup (f : Z -> bytes) order : forall slots (j : nat),
  Forall (fun i => 0 <= i < len slots) order ->
  Peekxtract.store_chunks (map (fun i => (i, f i)) order) slots !! j
  = if decide (Z.of_nat j ∈ order) then Some (Some (f (Z.of_nat j))) else slots !! j.
Proof.
  unfold Peekxtract.store_chunks.
  induction order as [|i order IH]; intros slots j Hall; cbn [map fold_left].
  - rewrite decide_False by apply not_elem_of_nil. reflexivity.
  - apply Forall_cons in Hall as [Hi Hall]. cbn [fst snd].
    rewrite IH by (unfold len in *; rewrite length_insert; exact Hall).
    destruct (decide (Z.of_nat j ∈ order)) as [Hin|Hnotin].
    + rewrite decide_True by (apply list_elem_of_further, Hin). reflexivity.
    + destruct (decide (i = Z.of_nat j)) as [->|Hne].
      * rewrite decide_True by apply list_elem_of_here.
        rewrite Nat2Z.id. apply list_lookup_insert_eq. unfold len in Hi. lia.
      * rewrite decide_False
          by (intros Hc; apply elem_of_cons in Hc as [Hc|Hc]; congruence).
        apply list_lookup_insert_ne. lia.
Qed.

(** Whatever the order in which the tasks complete, the slots end up
    holding the chunks in the order of their indices. *)
Lemma store_chunks_permutation (f : Z -> bytes) order n :
  order ≡ₚ py_range (Z.of_nat n) ->
  Peekxtract.store_chunks (map (fun i => (i, f i)) order) (replicate n None)
  = map (fun i => Some (f i)) (py_range (Z.of_nat n)).
Proof.
  intros Hperm. apply list_eq. intros j.
  rewrite store_chunks_lookup.
  - rewrite list_lookup_fmap. unfold py_range. rewrite Nat2Z.id, list_lookup_fmap.
    destruct (decide (Z.of_nat j ∈ order)) as [Hin|Hnotin].
    + rewrite Hperm in Hin. apply elem_of_py_range in Hin.
      rewrite lookup_seq_lt by lia. reflexivity.
    + assert (~ (j < n)%nat) as Hge.
      { intros Hlt. apply Hnotin. rewrite Hperm. apply elem_of_py_range. lia. }
      rewrite lookup_seq_ge by lia. cbn. apply lookup_replicate_None. lia.
  - apply Forall_forall. intros i Hi. rewrite Hperm in Hi.
    apply elem_of_py_range in Hi. unfold len. rewrite length_replicate. lia.
Qed.
Lemma file_server_fetch_chunk file p idx w :
  Peekxtract.fetch_chunk (file_server file) p idx w
  = (Done (idx, slice file (fst (Peekxtract.fetch_chunk_range p idx))
                      (snd (Peekxtract.fetch_chunk_range p idx) + 1)),
     World (requests w ++ [chunk_request p idx]) (sleeps w)).
Proof.
  unfold Peekxtract.fetch_chunk, chunk_request.
  destruct (Peekxtract.fetch_chunk_range p idx) as [start end_]. cbn [fst snd].
  unfold bind. rewrite file_server_read.
  replace (start + (end_ - start + 1)) with (end_ + 1) by lia.
  replace (end_ + 1 - 1) with end_ by lia. reflexivity.
Qed.

Lemma file_server_run_pool file p order : forall w,
  Peekxtract.run_pool (file_server file) p order w
  = (Done (map Done
             (map (fun i => (i, slice file (fst (Peekxtract.fetch_chunk_range p i))
                                     (snd (Peekxtract.fetch_chunk_range p i) + 1)))
                  order)),
     World (requests w ++ map (chunk_request p) order) (sleeps w)).
Proof.
  induction order as [|idx order IH]; intros w; cbn [Peekxtract.run_pool map].
  - unfold ret. rewrite app_nil_r. destruct w; reflexivity.
  - unfold bind at 1. unfold Peekxtract.settle. rewrite file_server_fetch_chunk.
    unfold bind at 1. rewrite IH. cbn [requests sleeps].
    rewrite <- app_assoc. reflexivity.
Qed.

Lemma future_results_done {A} (results : list A) :
  Peekxtract.future_results (map Done results) = Done results.
Proof.
  induction results as [|r results IH]; cbn [map Peekxtract.future_results obind];
    [reflexivity|]. now rewrite IH.
Qed.

Section StoredDownload.

Variables (file : bytes) (files_info : list (Z * file_info))
          (current_display_mapping : gmap Z Z).
Variables (zlib_decompress bz2_decompress lzma_decompress : bytes -> option bytes)
          (binascii_crc32 : bytes -> Z) (schedule : Z -> list Z)
          (os : Peekxtract.system).

(** The payload a plan describes, reassembled from a server that honours
    ranges, whatever the order in which the tasks complete. *)
Lemma reassembled_payload p :
  0 <= Peekxtract.data_offset p ->
  0 < Peekxtract.chunk_size p ->
  Peekxtract.total_chunks p
  = (Peekxtract.expected_size p + Peekxtract.chunk_size p - 1) / Peekxtract.chunk_size p ->
  schedule (Peekxtract.total_chunks p) ≡ₚ py_range (Peekxtract.total_chunks p) ->
  forall w,
    bind (Peekxtract.run_pool (file_server file) p (schedule (Peekxtract.total_chunks p)))
         (fun futures =>
            bind (lift (Peekxtract.future_results futures))
                 (fun completed =>
                    lift (Peekxtract.join_chunks
                            (Peekxtract.store_chunks completed
                               (replicate (Z.to_nat (Peekxtract.total_chunks p))
                                          None))))) w
    = (Done (slice file (Peekxtract.data_offset p)
               (Peekxtract.data_offset p + Peekxtract.expected_size p)),
       World (requests w
              ++ map (chunk_request p) (schedule (Peekxtract.total_chunks p)))
             (sleeps w)).
Proof.
  intros HP Hk HN Hperm w. unfold bind at 1. rewrite file_server_run_pool.
  rewrite future_results_done. unfold bind, lift. f_equal.
  set (N := Peekxtract.total_chunks p) in *.
  set (P := Peekxtract.data_offset p) in *.
  set (C := Peekxtract.expected_size p) in *.
  set (k := Peekxtract.chunk_size p) in *.
  pose proof (ceil_div_bounds C k Hk) as Hceil. rewrite <- HN in Hceil.
  destruct (Z.le_gt_cases N 0) as [HN0|HN0].
  - rewrite (py_range_nonpos N HN0) in Hperm.
    apply Permutation_nil_r in Hperm. rewrite Hperm.
    replace (Z.to_nat N) with 0%nat by lia. cbn.
    unfold slice. replace (Z.to_nat (P + C - P)) with 0%nat by nia. reflexivity.
  - assert (Hperm' : schedule N ≡ₚ py_range (Z.of_nat (Z.to_nat N)))
      by (rewrite Z2Nat.id by lia; exact Hperm).
    rewrite (store_chunks_permutation _ _ _ Hperm').
    rewrite <- (map_map _ Some), join_chunks_some.
    unfold Peekxtract.fetch_chunk_range. cbn [fst snd]. fold P C k.
    rewrite (chunks_concat file P C k (Z.to_nat N)) by lia.
    rewrite Z2Nat.id by lia.
    replace (Z.min (P + N * k) (P + C)) with (P + C) by nia. reflexivity.
Qed.

Lemma download_file_planned srv display_file_number max_workers w info P A m w' :
  let idx := Peekxtract._get_actual_file_index current_display_mapping
               (display_file_number - 1) in
  0 <= idx < len files_info ->
  dict_get files_info idx = Some info ->
  Peekxtract._get_local_file_header_info srv (local_header_offset info) w
    = (Done (P, A, m), w') ->
  Peekxtract.download_file_plan srv files_info current_display_mapping
    display_file_number max_workers w
  = (Done (Some (planned P (Z.max (compressed_size info) A) max_workers)), w').
Proof.
  intros idx Hidx Hget Hprobe.
  rewrite (download_file_plan_eq srv files_info current_display_mapping
             display_file_number max_workers w info P A m w' Hidx Hget Hprobe).
  cbv zeta. unfold planned.
  destruct (if _ >? _ then _ else _) as [k workers]. reflexivity.
Qed.

(** What [download_file] returns for any member, against a server that
    honours ranges: [r] and [w1] are what the search for the output
    directory gives after the probe. *)
Lemma download_member display_file_number output_dir verify_integrity w info P A m w' r w1 :
  let idx := Peekxtract._get_actual_file_index current_display_mapping
               (display_file_number - 1) in
  let p := planned P (Z.max (compressed_size info) A) Peekxtract.default_max_workers in
  0 <= idx < len files_info ->
  dict_get files_info idx = Some info ->
  Peekxtract._get_local_file_header_info (file_server file)
    (local_header_offset info) w = (Done (P, A, m), w') ->
  0 <= P ->
  (forall n, schedule n ≡ₚ py_range n) ->
  Peekxtract.resolve_output_dir os output_dir w' = (r, w1) ->
  Peekxtract.download_file (file_server file) files_info current_display_mapping
    zlib_decompress bz2_decompress lzma_decompress binascii_crc32 schedule os
    display_file_number output_dir Peekxtract.default_max_workers verify_integrity w
  = match r with
    | Done dir =>
        let parts := Peekxtract.safe_parts (filename info) in
        let path := Peekxtract.os_path_join os dir parts in
        match Peekxtract.os_makedirs os w1 dir,
              Peekxtract.os_makedirs os w1 (Peekxtract.os_path_dirname os path) with
        | None, None =>
            let payload := slice file P (P + Z.max (compressed_size info) A) in
            let '(final_data, verify) :=
              if negb (compression_method info =? 0) then
                match Peekxtract.decompress_data zlib_decompress bz2_decompress
                        lzma_decompress payload (compression_method info)
                        (uncompressed_size info) with
                | Some decompressed => (decompressed, verify_integrity)
                | None => (payload, false)
                end
              else (payload, verify_integrity) in
            let w2 := World (requests w1
                             ++ map (chunk_request p)
                                    (schedule (Peekxtract.total_chunks p)))
                            (sleeps w1) in
            (Done match Peekxtract.write_file os w2 path final_data with
                  | None =>
                      if Peekxtract.no_time_elapsed os w2 then None
                      else Some (Peekxtract.Artifact path parts final_data
                                   (if verify : bool
                                    then Some (Z.land (binascii_crc32 final_data)
                                                 0xFFFFFFFF =? crc32 info)
                                    else None))
                  | Some _ => None
                  end, w2)
        | _, _ => (Done None, w1)
        end
    | _ => (Done None, w1)
    end.
Proof.
  intros idx p Hidx Hget Hprobe HP Hsched Hdir.
  pose proof (download_file_planned (file_server file) display_file_number
                Peekxtract.default_max_workers w info P A m w' Hidx Hget Hprobe)
    as Hplan.
  fold p in Hplan.
  assert (HpP : Peekxtract.data_offset p = P).
  { unfold p, planned. destruct (if _ >? _ then _ else _). reflexivity. }
  assert (HpC : Peekxtract.expected_size p = Z.max (compressed_size info) A).
  { unfold p, planned. destruct (if _ >? _ then _ else _). reflexivity. }
  destruct (download_file_plan_chunk_size _ _ _ _ _ _ _ _ Hplan) as [Hk HN].
  unfold Peekxtract.download_file, catch. unfold bind at 1. rewrite Hplan.
  fold idx. rewrite Hget.
  unfold bind at 1. rewrite Hdir.
  destruct r as [dir|e|]; [|reflexivity|].
  2: { exfalso. unfold Peekxtract.resolve_output_dir in Hdir.
       destruct output_dir; [discriminate|].
       destruct (Peekxtract.default_output_dir os w') as [[?|?] ?]; discriminate. }
  unfold bind at 1. unfold Peekxtract.call at 1.
  destruct (Peekxtract.os_makedirs os w1 dir) as [e|]; [reflexivity|].
  unfold bind at 1. unfold Peekxtract.call at 1.
  destruct (Peekxtract.os_makedirs os w1 (Peekxtract.os_path_dirname os _)) as [e|];
    [reflexivity|].
  pose proof (reassembled_payload p ltac:(lia) Hk HN (Hsched _) w1) as Hdata.
  unfold bind at 1 in Hdata. unfold bind at 1.
  destruct (Peekxtract.run_pool _ _ _ _) as [[futures| |] w3]; try discriminate.
  unfold bind at 1 in Hdata. unfold bind at 1. unfold lift at 1 in Hdata. unfold lift at 1.
  destruct (Peekxtract.future_results futures) as [completed| |]; try discriminate.
  unfold bind at 1. rewrite Hdata. rewrite HpP, HpC. cbv zeta.
  set (w2 := World _ (sleeps w1)).
  destruct (negb (compression_method info =? 0));
    [destruct (Peekxtract.decompress_data _ _ _ _ _ _)|];
    unfold Peekxtract._verify_crc32, bind, Peekxtract.call, ret;
    (destruct (Peekxtract.write_file os w2 _ _); [reflexivity|]);
    destruct (Peekxtract.no_time_elapsed os w2); reflexivity.
Qed.

(** A stored member, served by a server that honours ranges.  After
    the probe, [download_file] looks for the output directory, makes it
    and the directory of the member, asks for each chunk once, writes
    the bytes [file[P : P + C]], where [P] is where the local header says
    the payload starts and [C] the larger of the two compressed sizes,
    whatever the order in which the chunks arrive, and returns [True]
    if the clock has moved; the CRC check runs if asked for.  It
    returns [False] without asking for a chunk when the directory is
    not found or cannot be made, and after asking for every chunk when
    the file cannot be written or no time has elapsed. *)
Theorem download_stored_member display_file_number output_dir verify_integrity
    w info P A m w' r w1 :
  let idx := Peekxtract._get_actual_file_index current_display_mapping
               (display_file_number - 1) in
  let p := planned P (Z.max (compressed_size info) A) Peekxtract.default_max_workers in
  0 <= idx < len files_info ->
  dict_get files_info idx = Some info ->
  compression_method info = 0 ->
  Peekxtract._get_local_file_header_info (file_server file)
    (local_header_offset info) w = (Done (P, A, m), w') ->
  0 <= P ->
  (forall n, schedule n ≡ₚ py_range n) ->
  Peekxtract.resolve_output_dir os output_dir w' = (r, w1) ->
  Peekxtract.download_file_plan (file_server file) files_info current_display_mapping
    display_file_number Peekxtract.default_max_workers w = (Done (Some p), w')
  /\ Peekxtract.download_file (file_server file) files_info current_display_mapping
       zlib_decompress bz2_decompress lzma_decompress binascii_crc32 schedule os
       display_file_number output_dir Peekxtract.default_max_workers verify_integrity w
     = match r with
       | Done dir =>
           let parts := Peekxtract.safe_parts (filename info) in
           let path := Peekxtract.os_path_join os dir parts in
           match Peekxtract.os_makedirs os w1 dir,
                 Peekxtract.os_makedirs os w1 (Peekxtract.os_path_dirname os path) with
           | None, None =>
               let payload := slice file P (P + Z.max (compressed_size info) A) in
               let w2 := World (requests w1
                                ++ map (chunk_request p)
                                       (schedule (Peekxtract.total_chunks p)))
                               (sleeps w1) in
               (Done match Peekxtract.write_file os w2 path payload with
                     | None =>
                         if Peekxtract.no_time_elapsed os w2 then None
                         else Some (Peekxtract.Artifact path parts payload
                                      (if verify_integrity
                                       then Some (Z.land (binascii_crc32 payload)
                                                    0xFFFFFFFF =? crc32 info)
                                       else None))
                     | Some _ => None
                     end, w2)
           | _, _ => (Done None, w1)
           end
       | _ => (Done None, w1)
       end.
Proof.
  intros idx p Hidx Hget Hstored Hprobe HP Hsched Hdir. split.
  - exact (download_file_planned (file_server file) display_file_number
             Peekxtract.default_max_workers w info P A m w' Hidx Hget Hprobe).
  - rewrite (download_member display_file_number output_dir verify_integrity
               w info P A m w' r w1 Hidx Hget Hprobe HP Hsched Hdir).
    rewrite Hstored. reflexivity.
Qed.

(** A member that is not stored, when the operating system goes
    along (the output directory is found, both directories can be made,
    the file can be written and the clock has moved): it is written
    decompressed, and checked against its CRC if asked for, when its
    method is 8, 12 or 14 and the codec returns; when the method is
    another one or the codec raises, the compressed payload
    [file[P : P + C]] is written as it is and no CRC check runs, even if
    one was asked for. *)
Theorem download_compressed_member display_file_number output_dir verify_integrity
    w info P A m w' dir w1 :
  let idx := Peekxtract._get_actual_file_index current_display_mapping
               (display_file_number - 1) in
  let p := planned P (Z.max (compressed_size info) A) Peekxtract.default_max_workers in
  let payload := slice file P (P + Z.max (compressed_size info) A) in
  let codec :=
    if compression_method info =? 8 then zlib_decompress
    else if compression_method info =? 12 then bz2_decompress
    else if compression_method info =? 14 then lzma_decompress
    else fun _ => None in
  let final_data := match codec payload with
                    | Some decompressed => decompressed
                    | None => payload
                    end in
  let parts := Peekxtract.safe_parts (filename info) in
  let path := Peekxtract.os_path_join os dir parts in
  let w2 := World (requests w1
                   ++ map (chunk_request p) (schedule (Peekxtract.total_chunks p)))
                  (sleeps w1) in
  0 <= idx < len files_info ->
  dict_get files_info idx = Some info ->
  compression_method info <> 0 ->
  Peekxtract._get_local_file_header_info (file_server file)
    (local_header_offset info) w = (Done (P, A, m), w') ->
  0 <= P ->
  (forall n, schedule n ≡ₚ py_range n) ->
  Peekxtract.resolve_output_dir os output_dir w' = (Done dir, w1) ->
  Peekxtract.os_makedirs os w1 dir = None ->
  Peekxtract.os_makedirs os w1 (Peekxtract.os_path_dirname os path) = None ->
  Peekxtract.write_file os w2 path final_data = None ->
  Peekxtract.no_time_elapsed os w2 = false ->
  Peekxtract.download_file (file_server file) files_info current_display_mapping
    zlib_decompress bz2_decompress lzma_decompress binascii_crc32 schedule os
    display_file_number output_dir Peekxtract.default_max_workers verify_integrity w
  = (Done (Some (Peekxtract.Artifact path parts final_data
                   match codec payload with
                   | Some decompressed =>
                       if verify_integrity
                       then Some (Z.land (binascii_crc32 decompressed) 0xFFFFFFFF
                                  =? crc32 info)
                       else None
                   | None => None
                   end)),
     w2).
Proof.
  intros idx p payload codec final_data parts path w2
         Hidx Hget Hmethod Hprobe HP Hsched Hdir Hmk1 Hmk2 Hwrite Hclock.
  rewrite (download_member display_file_number output_dir verify_integrity
             w info P A m w' (Done dir) w1 Hidx Hget Hprobe HP Hsched Hdir).
  cbv zeta. fold parts. fold path. rewrite Hmk1, Hmk2. fold payload. fold p. fold w2.
  apply Z.eqb_neq in Hmethod. rewrite Hmethod. cbn [negb].
  assert (Peekxtract.decompress_data zlib_decompress bz2_decompress lzma_decompress
            payload (compression_method info) (uncompressed_size info)
          = codec payload) as ->.
  { unfold Peekxtract.decompress_data, codec. rewrite Hmethod.
    destruct (_ =? 8); [reflexivity|]. destruct (_ =? 12); [reflexivity|].
    destruct (_ =? 14); reflexivity. }
  unfold final_data in Hwrite |- *.
  destruct (codec payload); rewrite Hwrite, Hclock; reflexivity.
Qed.

End StoredDownload.

(** ** The requests of the pool ([fetch_chunk]) *)

(** A read asks for its range and for nothing else, between once and
    three times. *)
Lemma read_bytes_request_count srv start length w :
  exists n,
    (1 <= n <= 3)%nat
    /\ requests (snd (Peekxtract._read_bytes srv start length w))
       = requests w ++ repeat (Range start (start + length - 1)) n.
Proof.
  unfold Peekxtract._read_bytes, Peekxtract._read_bytes_opt, bind at 1.
  change (py_range 3) with [0; 1; 2].
  set (rq := Range start (start + length - 1)).
  rewrite read_attempts_cons. fold rq.
  destruct (accepted _); [exists 1%nat; split; [lia|reflexivity]|].
  change (0 <? 3 - 1) with true. cbv iota. rewrite read_attempts_cons.
  cbn [requests sleeps]. fold rq.
  destruct (accepted _);
    [exists 2%nat; split; [lia|]; cbn; rewrite <- app_assoc; reflexivity|].
  change (1 <? 3 - 1) with true. cbv iota. rewrite read_attempts_cons.
  cbn [requests sleeps]. fold rq.
  destruct (accepted _); cbn; exists 3%nat; (split; [lia|]);
    rewrite <- !app_assoc; reflexivity.
Qed.

Lemma fetch_chunk_request_count srv p idx w :
  exists n,
    (1 <= n <= 3)%nat
    /\ requests (snd (Peekxtract.fetch_chunk srv p idx w))
       = requests w ++ repeat (chunk_request p idx) n.
Proof.
  unfold Peekxtract.fetch_chunk, chunk_request.
  destruct (Peekxtract.fetch_chunk_range p idx) as [start end_]. cbn [fst snd].
  destruct (read_bytes_request_count srv start (end_ - start + 1) w) as (n & Hn & Hlog).
  replace (start + (end_ - start + 1) - 1) with end_ in Hlog by lia.
  exists n. split; [exact Hn|]. unfold bind.
  destruct (Peekxtract._read_bytes srv start (end_ - start + 1) w) as [[chunk|e|] w1];
    exact Hlog.
Qed.

(** Whatever the server answers, the pool asks for the ranges of its
    tasks and for nothing else, each between once and three times. *)
Lemma run_pool_requests srv p order : forall w,
  exists counts,
    length counts = length order
    /\ Forall (fun n => (1 <= n <= 3)%nat) counts
    /\ requests (snd (Peekxtract.run_pool srv p order w))
       = requests w
         ++ concat (zip_with (fun idx n => repeat (chunk_request p idx) n) order counts).
Proof.
  induction order as [|idx order IH]; intros w; cbn [Peekxtract.run_pool].
  - exists []. split; [reflexivity|]. split; [constructor|].
    cbn. rewrite app_nil_r. reflexivity.
  - destruct (fetch_chunk_request_count srv p idx w) as (n & Hn & Hlog).
    unfold bind at 1. unfold Peekxtract.settle.
    destruct (Peekxtract.fetch_chunk srv p idx w) as [future w1]. cbn [snd] in Hlog.
    destruct (IH w1) as (counts & Hlen & Hcounts & Hrest).
    exists (n :: counts). split; [cbn; now rewrite Hlen|].
    split; [constructor; assumption|].
    unfold bind at 1.
    destruct (Peekxtract.run_pool srv p order w1) as [[futures|e|] w2];
      unfold ret; cbn [snd] in Hrest |- *; rewrite Hrest, Hlog;
      cbn [zip_with concat]; rewrite <- app_assoc; reflexivity.
Qed.

(** C3.  For a plan made by [download_file] with a payload of [C > 0]
    bytes starting at [P], the byte ranges asked for by
    [fetch_chunk(0)], ..., [fetch_chunk(total_chunks - 1)] are non-empty,
    lie one after the other without overlap, and a byte belongs to one of
    them exactly when it lies in [[P, P + C)].  The pool asks for these
    ranges and for nothing else, whatever the server answers and in
    whatever order its tasks run: each task asks for the range of its
    chunk, between once and three times.  Against a server that honours
    ranges each chunk is asked for exactly once, and the chunks received,
    stored at their indices and joined, are the bytes [file[P : P + C]]:
    no byte of the payload is fetched twice and none is left out. *)
Theorem chunk_ranges_partition srv files_info current_display_mapping
    display_file_number max_workers w w' p :
  Peekxtract.download_file_plan srv files_info current_display_mapping
    display_file_number max_workers w = (Done (Some p), w') ->
  0 < Peekxtract.expected_size p ->
  let P := Peekxtract.data_offset p in
  let C := Peekxtract.expected_size p in
  let N := Peekxtract.total_chunks p in
  let first i := fst (Peekxtract.fetch_chunk_range p i) in
  let last i := snd (Peekxtract.fetch_chunk_range p i) in
  (forall i, first i = P + i * Peekxtract.chunk_size p
             /\ last i = Z.min (P + (i + 1) * Peekxtract.chunk_size p) (P + C) - 1)
  /\ (forall i, 0 <= i < N -> first i <= last i)
  /\ (forall i j, 0 <= i < j -> j < N -> last i < first j)
  /\ (forall b, P <= b < P + C <-> exists i, 0 <= i < N /\ first i <= b <= last i)
  /\ first 0 = P /\ last (N - 1) = P + C - 1
  /\ (forall order w1,
        exists counts,
          length counts = length order
          /\ Forall (fun n => (1 <= n <= 3)%nat) counts
          /\ requests (snd (Peekxtract.run_pool srv p order w1))
             = requests w1
               ++ concat (zip_with (fun idx n => repeat (Range (first idx) (last idx)) n)
                                   order counts))
  /\ (forall file order w1,
        srv = file_server file ->
        0 <= P ->
        order ≡ₚ py_range N ->
        bind (Peekxtract.run_pool srv p order)
          (fun futures =>
             bind (lift (Peekxtract.future_results futures))
               (fun completed =>
                  lift (Peekxtract.join_chunks
                          (Peekxtract.store_chunks completed
                             (replicate (Z.to_nat N) None))))) w1
        = (Done (slice file P (P + C)),
           World (requests w1 ++ map (fun idx => Range (first idx) (last idx)) order)
                 (sleeps w1))).
Proof.
  intros Hplan HC P C N first last.
  destruct (download_file_plan_chunk_size _ _ _ _ _ _ _ _ Hplan) as [Hk HN].
  split; [|split; [|split; [|split; [|split; [|split; [|split]]]]]].
  - intros i. subst first last. unfold Peekxtract.fetch_chunk_range. cbn [fst snd].
    fold P C. lia.
  - intros i Hi. subst first last. unfold Peekxtract.fetch_chunk_range. cbn [fst snd].
    fold P C. fold N C in HN. set (k := Peekxtract.chunk_size p) in *.
    pose proof (ceil_div_bounds C k Hk) as Hceil. rewrite <- HN in Hceil. nia.
  - intros i j Hij HjN. subst first last. unfold Peekxtract.fetch_chunk_range.
    cbn [fst snd]. fold P C. fold N C in HN. set (k := Peekxtract.chunk_size p) in *.
    nia.
  - intros b. subst first last. unfold Peekxtract.fetch_chunk_range. cbn [fst snd].
    fold P C. fold N C in HN. set (k := Peekxtract.chunk_size p) in *.
    pose proof (ceil_div_bounds C k Hk) as Hceil. rewrite <- HN in Hceil. split.
    + intros Hb. exists ((b - P) / k).
      destruct (chunk_of_byte P C k b Hk Hb) as [Hi Hr].
      rewrite HN. split; [exact Hi|exact Hr].
    + intros (i & Hi & Hr). nia.
  - subst first. unfold Peekxtract.fetch_chunk_range. cbn [fst]. fold P. lia.
  - subst last. unfold Peekxtract.fetch_chunk_range. cbn [snd].
    fold P C. fold N C in HN. set (k := Peekxtract.chunk_size p) in *.
    pose proof (ceil_div_bounds C k Hk) as Hceil. rewrite <- HN in Hceil. nia.
  - intros order w1. exact (run_pool_requests srv p order w1).
  - intros file order w1 -> HP Hperm.
    exact (reassembled_payload file (fun _ => order) p HP Hk HN Hperm w1).
Qed.

Lemma chunk_ranges_partition_witness :
  let p := Peekxtract.ChunkPlan 39 (9 * 1024 * 1024) (4 * 1024 * 1024) 4 3 in
  Peekxtract.download_file_plan (file_server hello_zip) nine_mib_catalog ∅ 1 4 world0
  = (Done (Some p), World [Range 0 29; Range 30 38] [])
  /\ map (Peekxtract.fetch_chunk_range p) [0; 1; 2]
     = [(39, 4194342); (4194343, 8388646); (8388647, 9437222)]
  /\ bind (Peekxtract.run_pool (file_server hello_zip) p [2; 0; 1])
       (fun futures =>
          bind (lift (Peekxtract.future_results futures))
            (fun completed =>
               lift (Peekxtract.join_chunks
                       (Peekxtract.store_chunks completed (replicate 3 None)))))
       (World [Range 0 29; Range 30 38] [])
     = (Done (slice hello_zip 39 (39 + 9 * 1024 * 1024)),
        World [Range 0 29; Range 30 38;
               Range 8388647 9437222; Range 39 4194342; Range 4194343 8388646] []).
Proof.
  intros p.
  assert (Hplan : Peekxtract.download_file_plan (file_server hello_zip)
                    nine_mib_catalog ∅ 1 4 world0
                  = (Done (Some p), World [Range 0 29; Range 30 38] []))
    by (vm_compute; reflexivity).
  destruct (chunk_ranges_partition (file_server hello_zip) nine_mib_catalog ∅ 1 4
              world0 (World [Range 0 29; Range 30 38] []) p Hplan eq_refl)
    as (Hrange & _ & _ & _ & _ & _ & _ & Hjoined).
  split; [exact Hplan|]. split; [reflexivity|].
  assert (Hperm : [2; 0; 1] ≡ₚ py_range (Peekxtract.total_chunks p)).
  { change (py_range (Peekxtract.total_chunks p)) with [0; 1; 2].
    eapply perm_trans; [apply perm_swap|]. apply perm_skip, perm_swap. }
  exact (Hjoined hello_zip [2; 0; 1] (World [Range 0 29; Range 30 38] []) eq_refl
           ltac:(discriminate) Hperm).
Defined.

Lemma reverse_schedule_permutation n : reverse_schedule n ≡ₚ py_range n.
Proof.
  unfold reverse_schedule, py_range_down. replace (n - 1 + 1) with n by lia.
  symmetry. apply Permutation_rev.
Qed.

Lemma download_stored_member_witness :
  Peekxtract.download_file_plan (file_server hello_zip) hello_catalog ∅
    1 Peekxtract.default_max_workers world0
  = (Done (Some (Peekxtract.ChunkPlan 39 11 (4 * 1024 * 1024) 4 1)),
     World [Range 0 29; Range 30 38] [])
  /\ Peekxtract.download_file (file_server hello_zip) hello_catalog ∅
       no_codec no_codec no_codec zero_crc reverse_schedule willing_system
       1 None Peekxtract.default_max_workers true world0
     = (Done (Some (Peekxtract.Artifact (lit "archive/hello.txt") [lit "hello.txt"]
                      [x68; x65; x6c; x6c; x6f; x20; x77; x6f; x72; x6c; x64]
                      (Some false))),
        World [Range 0 29; Range 30 38; Range 39 49] []).
Proof.
  pose proof (download_stored_member hello_zip hello_catalog ∅
                no_codec no_codec no_codec zero_crc reverse_schedule willing_system
                1 None true world0 (FileInfo (lit "hello.txt") 11 11 0 0 0x0d4a1185)
                39 11 0 (World [Range 0 29; Range 30 38] [])
                (Done (lit "archive")) (World [Range 0 29; Range 30 38] []))
    as Hstored.
  cbv zeta in Hstored.
  assert (Hidx : 0 <= Peekxtract._get_actual_file_index ∅ (1 - 1) < len hello_catalog)
    by (vm_compute; split; [discriminate|reflexivity]).
  specialize (Hstored Hidx eq_refl eq_refl).
  assert (Hprobe : Peekxtract._get_local_file_header_info (file_server hello_zip)
                     (local_header_offset (FileInfo (lit "hello.txt") 11 11 0 0 0x0d4a1185))
                     world0
                   = (Done (39, 11, 0), World [Range 0 29; Range 30 38] []))
    by (vm_compute; reflexivity).
  specialize (Hstored Hprobe ltac:(lia) reverse_schedule_permutation eq_refl).
  destruct Hstored as [Hplan Hdownload]. split.
  - rewrite Hplan. reflexivity.
  - rewrite Hdownload. vm_compute. reflexivity.
Defined.

Example download_hello :
  fst (Peekxtract.download_file (file_server hello_zip) hello_catalog ∅
         no_codec no_codec no_codec zero_crc reverse_schedule willing_system
         1 (Some (lit "out")) 4 false world0)
  = Done (Some (Peekxtract.Artifact (lit "out/hello.txt") [lit "hello.txt"]
                  [x68; x65; x6c; x6c; x6f; x20; x77; x6f; x72; x6c; x64] None)).
Proof. vm_compute. reflexivity. Qed.

(** The bytes are fetched, but the file cannot be written, or the clock
    has not moved when the average speed is computed: [False]. *)
Example download_hello_refused :
  Peekxtract.download_file (file_server hello_zip) hello_catalog ∅
    no_codec no_codec no_codec zero_crc reverse_schedule read_only_system
    1 None 4 false world0
  = (Done None, World [Range 0 29; Range 30 38; Range 39 49] [])
  /\ Peekxtract.download_file (file_server hello_zip) hello_catalog ∅
       no_codec no_codec no_codec zero_crc reverse_schedule coarse_clock_system
       1 None 4 false world0
     = (Done None, World [Range 0 29; Range 30 38; Range 39 49] []).
Proof. split; vm_compute; reflexivity. Qed.

Lemma download_compressed_member_witness :
  Peekxtract.download_file (file_server hello_zip) deflated_catalog ∅
    toy_codec no_codec no_codec zero_crc in_order_schedule willing_system
    1 None Peekxtract.default_max_workers true world0
  = (Done (Some (Peekxtract.Artifact (lit "archive/hello.txt") [lit "hello.txt"]
                   [x64; x6c; x72; x6f; x77; x20; x6f; x6c; x6c; x65; x68]
                   (Some false))),
     World [Range 0 29; Range 30 38; Range 39 49] []).
Proof.
  pose proof (download_compressed_member hello_zip deflated_catalog ∅
                toy_codec no_codec no_codec zero_crc in_order_schedule willing_system
                1 None true world0 (FileInfo (lit "hello.txt") 11 11 8 0 0x0d4a1185)
                39 11 0 (World [Range 0 29; Range 30 38] [])
                (lit "archive") (World [Range 0 29; Range 30 38] []))
    as Hcompressed.
  cbv zeta in Hcompressed.
  assert (Hidx : 0 <= Peekxtract._get_actual_file_index ∅ (1 - 1) < len deflated_catalog)
    by (vm_compute; split; [discriminate|reflexivity]).
  assert (Hmethod : compression_method (FileInfo (lit "hello.txt") 11 11 8 0 0x0d4a1185)
                    <> 0) by discriminate.
  specialize (Hcompressed Hidx eq_refl Hmethod).
  assert (Hprobe : Peekxtract._get_local_file_header_info (file_server hello_zip)
                     (local_header_offset (FileInfo (lit "hello.txt") 11 11 8 0 0x0d4a1185))
                     world0
                   = (Done (39, 11, 0), World [Range 0 29; Range 30 38] []))
    by (vm_compute; reflexivity).
  specialize (Hcompressed Hprobe ltac:(lia) (fun n => reflexivity _)
                eq_refl eq_refl eq_refl eq_refl eq_refl).
  rewrite Hcompressed. vm_compute. reflexivity.
Defined.
(** ** Display numbers ([download_file], [download_bulk]) *)

Section DisplayNumbers.

Variables (srv : server) (files_info : list (Z * file_info))
          (current_display_mapping : gmap Z Z).
Variables (zlib_decompress bz2_decompress lzma_decompress : bytes -> option bytes)
          (binascii_crc32 : bytes -> Z) (schedule : Z -> list Z)
          (os : Peekxtract.system).

Lemma get_actual_file_index_empty d : Peekxtract._get_actual_file_index ∅ d = d.
Proof. unfold Peekxtract._get_actual_file_index. now rewrite lookup_empty. Qed.

(** [download_file] uses its number only through the catalog index the
    view maps it to: it is the download of that index with no view. *)
Lemma download_file_direct n output_dir max_workers verify_integrity :
  Peekxtract.download_file srv files_info current_display_mapping
    zlib_decompress bz2_decompress lzma_decompress binascii_crc32 schedule os
    n output_dir max_workers verify_integrity
  = Peekxtract.download_file srv files_info ∅
      zlib_decompress bz2_decompress lzma_decompress binascii_crc32 schedule os
      (Peekxtract._get_actual_file_index current_display_mapping (n - 1) + 1)
      output_dir max_workers verify_integrity.
Proof.
  unfold Peekxtract.download_file, Peekxtract.download_file_plan.
  replace (Peekxtract._get_actual_file_index current_display_mapping (n - 1) + 1 - 1)
    with (Peekxtract._get_actual_file_index current_display_mapping (n - 1)) by lia.
  rewrite get_actual_file_index_empty. reflexivity.
Qed.

(** A number that the view maps outside the catalog: [download_file]
    returns [False] at once, without a request. *)
Theorem download_file_invalid_number n output_dir max_workers verify_integrity w :
  let idx := Peekxtract._get_actual_file_index current_display_mapping (n - 1) in
  idx < 0 \/ len files_info <= idx ->
  Peekxtract.download_file srv files_info current_display_mapping
    zlib_decompress bz2_decompress lzma_decompress binascii_crc32 schedule os
    n output_dir max_workers verify_integrity w
  = (Done None, w).
Proof.
  intros idx Hout. unfold Peekxtract.download_file, Peekxtract.download_file_plan.
  fold idx.
  assert ((idx <? 0) || (idx >=? len files_info) = true) as ->.
  { apply orb_true_iff. destruct Hout; [left; apply Z.ltb_lt; lia|right].
    rewrite Z.geb_leb. apply Z.leb_le. lia. }
  reflexivity.
Qed.

(** [download_bulk] maps each display number through the view and hands
    the result, plus one, to [download_file], which maps it through the
    view again: for one number [n] mapped to [a], the member fetched is
    the catalog entry the view gives for [a], recorded under [a]; and a
    failure for an [a] that is no key of the catalog ends in a
    [KeyError]. *)
Theorem download_bulk_resolves_twice n output_dir verify_integrity w :
  let g := Peekxtract._get_actual_file_index current_display_mapping in
  let a := g (n - 1) in
  Peekxtract.download_bulk srv files_info current_display_mapping
    zlib_decompress bz2_decompress lzma_decompress binascii_crc32 schedule os
    [n] output_dir verify_integrity w
  = match Peekxtract.download_file srv files_info ∅
            zlib_decompress bz2_decompress lzma_decompress binascii_crc32 schedule os
            (g a + 1) output_dir Peekxtract.default_max_workers verify_integrity w with
    | (Done (Some _), w') => (Done [(a, true)], w')
    | (Done None, w') =>
        (match dict_get files_info a with
         | Some _ => Done [(a, false)]
         | None => Raised KeyError
         end, w')
    | (Raised e, w') => (Raised e, w')
    | (OutOfFuel, w') => (OutOfFuel, w')
    end.
Proof.
  intros g a. unfold Peekxtract.download_bulk. cbn [map].
  fold g. fold a. cbn [Peekxtract.download_bulk_loop].
  rewrite download_file_direct.
  replace (a + 1 - 1) with a by lia. fold g.
  unfold bind at 1. unfold bind at 1.
  destruct (Peekxtract.download_file _ _ _ _ _ _ _ _ _ _ _ _ _ _) as [[[art|]|e|] w'].
  - reflexivity.
  - cbn [dict_set succeeded]. unfold bind, ret, lift.
    change (len [a] - len (filter (fun kv : Z * bool => kv.2 = true) [(a, false)]) >? 0)
      with true.
    cbn [Peekxtract.report_failed negb].
    destruct (dict_get files_info a); reflexivity.
  - reflexivity.
  - reflexivity.
Qed.

Lemma download_bulk_loop_direct output_dir verify_integrity actual : forall results w,
  Forall (fun a => Peekxtract._get_actual_file_index current_display_mapping a = a)
         actual ->
  Peekxtract.download_bulk_loop srv files_info current_display_mapping
    zlib_decompress bz2_decompress lzma_decompress binascii_crc32 schedule os
    output_dir verify_integrity actual results w
  = Peekxtract.download_bulk_loop srv files_info ∅
      zlib_decompress bz2_decompress lzma_decompress binascii_crc32 schedule os
      output_dir verify_integrity actual results w.
Proof.
  induction actual as [|a actual IH]; intros results w Hall; [reflexivity|].
  apply Forall_cons in Hall as [Ha Hall].
  cbn [Peekxtract.download_bulk_loop]. rewrite download_file_direct.
  replace (a + 1 - 1) with a by lia. rewrite Ha.
  unfold bind.
  destruct (Peekxtract.download_file srv files_info ∅ zlib_decompress bz2_decompress
              lzma_decompress binascii_crc32 schedule os (a + 1) output_dir
              Peekxtract.default_max_workers verify_integrity w)
    as [[d|e|] w']; try reflexivity.
  apply IH, Hall.
Qed.

(** When the view maps the catalog index of each chosen number to itself,
    as the view of an unfiltered listing does, [download_bulk] fetches
    the members the numbers stand for: it is the bulk download of their
    catalog indices with no view. *)
Theorem download_bulk_stable_view display_file_numbers output_dir verify_integrity w :
  let g := Peekxtract._get_actual_file_index current_display_mapping in
  Forall (fun n => g (g (n - 1)) = g (n - 1)) display_file_numbers ->
  Peekxtract.download_bulk srv files_info current_display_mapping
    zlib_decompress bz2_decompress lzma_decompress binascii_crc32 schedule os
    display_file_numbers output_dir verify_integrity w
  = Peekxtract.download_bulk srv files_info ∅
      zlib_decompress bz2_decompress lzma_decompress binascii_crc32 schedule os
      (map (fun n => g (n - 1) + 1) display_file_numbers) output_dir verify_integrity w.
Proof.
  intros g Hall. unfold Peekxtract.download_bulk.
  rewrite map_map.
  assert (Heq : map (fun n => Peekxtract._get_actual_file_index ∅ (g (n - 1) + 1 - 1))
                    display_file_numbers
                = map (fun n => g (n - 1)) display_file_numbers).
  { apply map_ext. intros n. rewrite get_actual_file_index_empty. lia. }
  rewrite Heq. fold g. unfold bind at 1 3.
  rewrite download_bulk_loop_direct; [reflexivity|].
  apply Forall_forall. intros a Ha. apply list_elem_of_fmap in Ha as (n & -> & Hn).
  exact (proj1 (Forall_forall _ _) Hall n Hn).
Qed.

End DisplayNumbers.

Lemma download_file_invalid_number_witness :
  Peekxtract.download_file dead_server hello_catalog ∅
    no_codec no_codec no_codec zero_crc in_order_schedule willing_system 5 None 4 true world0
  = (Done None, world0).
Proof.
  apply (download_file_invalid_number dead_server hello_catalog ∅
           no_codec no_codec no_codec zero_crc in_order_schedule willing_system 5 None 4 true world0).
  right. vm_compute. discriminate.
Defined.

Lemma download_bulk_stable_view_witness :
  Peekxtract.download_bulk (file_server hello_zip) hello_catalog
    (Peekxtract.identity_mapping hello_catalog)
    no_codec no_codec no_codec zero_crc in_order_schedule willing_system [1] None false world0
  = Peekxtract.download_bulk (file_server hello_zip) hello_catalog ∅
      no_codec no_codec no_codec zero_crc in_order_schedule willing_system
      (map (fun n => Peekxtract._get_actual_file_index
                       (Peekxtract.identity_mapping hello_catalog) (n - 1) + 1) [1])
      None false world0.
Proof.
  apply (download_bulk_stable_view (file_server hello_zip) hello_catalog
           (Peekxtract.identity_mapping hello_catalog)
           no_codec no_codec no_codec zero_crc in_order_schedule willing_system [1] None false world0).
  constructor; [|constructor]. rewrite !get_actual_file_index_identity. reflexivity.
Defined.

(** In a view that shows catalog entries 1 and 2, display number 1 is
    catalog entry 1 for [download_file], but [download_bulk] maps it
    twice and arrives at catalog entry 2. *)
Example bulk_in_filtered_view :
  Peekxtract._get_actual_file_index img_view (1 - 1) = 1
  /\ Peekxtract._get_actual_file_index img_view
       (Peekxtract._get_actual_file_index img_view (1 - 1)) = 2.
Proof. split; vm_compute; reflexivity. Qed.

(** ** [struct.unpack] after [struct.pack] *)

Lemma len_struct_pack widths : forall values,
  fits widths values -> len (struct_pack widths values) = fold_right Z.add 0 widths.
Proof.
  induction widths as [|w ws IH]; intros values Hfit; inversion Hfit; subst.
  - reflexivity.
  - cbn [struct_pack fold_right]. rewrite len_app, len_le_bytes, IH by assumption. lia.
Qed.

Lemma slice_suffix {A} (pre l : list A) : slice (pre ++ l) (len pre) (len (pre ++ l)) = l.
Proof.
  rewrite len_app. replace (len pre) with (len pre + 0) at 1 by lia.
  rewrite slice_app_r by lia. apply slice_all.
Qed.

Lemma split_fields_pack widths : forall values,
  fits widths values -> split_fields widths (struct_pack widths values) = values.
Proof.
  induction widths as [|w ws IH]; intros values Hfit;
    inversion Hfit as [|? v ? vs [Hw Hv] Hrest]; subst; [reflexivity|].
  cbn [struct_pack split_fields].
  assert (Hlen : len (le_bytes (Z.to_nat w) v) = w) by (rewrite len_le_bytes; lia).
  set (head := le_bytes (Z.to_nat w) v) in *. rewrite <- Hlen.
  rewrite slice_prefix, slice_suffix. f_equal.
  - apply le_uint_le_bytes. rewrite Z2Nat.id by lia. exact Hv.
  - apply IH, Hrest.
Qed.

Lemma struct_unpack_pack widths values :
  fits widths values -> struct_unpack widths (struct_pack widths values) = Done values.
Proof.
  intros Hfit. unfold struct_unpack.
  rewrite len_struct_pack, Z.eqb_refl, split_fields_pack by assumption. reflexivity.
Qed.

(** ** The local header probe ([_get_local_file_header_info]) *)

Lemma len_local_header_fixed h :
  local_header_ok h ->
  len (struct_pack local_header_widths (local_header_fields h)) = 30.
Proof. intros Hok. now rewrite len_struct_pack. Qed.

(** The probe of the header at [len pre], once its 30 fixed bytes are
    read and unpacked. *)
Lemma probe_header_fields pre h rest w :
  local_header_ok h ->
  let file := pre ++ encode_local_header h ++ rest in
  let srv := file_server file in
  Peekxtract._get_local_file_header_info srv (len pre) w
  = (variable_data <- Peekxtract._read_bytes srv (len pre + 30)
                        (len (lh_name h) + len (lh_extra h)) ;;
     compressed_size <-
       (if (len (lh_extra h) >? 0)
           && ((lh_compressed_size h =? 0xFFFFFFFF)
               || (lh_uncompressed_size h =? 0xFFFFFFFF))
        then
          let extra_data := slice variable_data (len (lh_name h))
                              (len (lh_name h) + len (lh_extra h)) in
          lift (Peekxtract.local_zip64_loop (S (length extra_data)) extra_data
                  (lh_compressed_size h) (lh_uncompressed_size h) 0)
        else ret (lh_compressed_size h)) ;;
     ret (len pre + 30 + len (lh_name h) + len (lh_extra h), compressed_size,
          lh_method h))
      (World (requests w ++ [Range (len pre) (len pre + 29)]) (sleeps w)).
Proof.
  intros Hok file srv.
  pose proof (len_local_header_fixed h Hok) as Hfixed.
  unfold Peekxtract._get_local_file_header_info.
  unfold bind at 1. unfold srv at 1. rewrite file_server_read.
  assert (Hhead : slice file (len pre) (len pre + 30)
                  = struct_pack local_header_widths (local_header_fields h)).
  { unfold file, encode_local_header. rewrite <- !app_assoc.
    apply slice_app_mid; [reflexivity|]. now rewrite Hfixed. }
  rewrite Hhead.
  inversion Hok as [|w0 v0 ws0 vs0 [_ Hsig] Hrest]; subst.
  change (struct_pack local_header_widths (local_header_fields h))
    with (le_bytes 4 0x04034b50
          ++ struct_pack [2; 2; 2; 2; 2; 4; 4; 4; 2; 2]
               [lh_version h; lh_flags h; lh_method h; lh_time h; lh_date h;
                lh_crc32 h; lh_compressed_size h; lh_uncompressed_size h;
                len (lh_name h); len (lh_extra h)]) in *.
  set (tail := struct_pack _ _) in *.
  assert (Htail : len tail = 26) by (unfold tail; now rewrite len_struct_pack).
  assert (Hs1 : slice (le_bytes 4 0x04034b50 ++ tail) 0 4 = le_bytes 4 0x04034b50)
    by (apply (slice_prefix (le_bytes 4 0x04034b50) tail)).
  assert (Hs2 : slice (le_bytes 4 0x04034b50 ++ tail) 4 30 = tail).
  { replace 30 with (len (le_bytes 4 0x04034b50 ++ tail))
      by (rewrite len_app, Htail; reflexivity).
    apply (slice_suffix (le_bytes 4 0x04034b50) tail). }
  unfold bind at 1. unfold lift at 1. rewrite Hs1.
  change (unpack_uint 4 (le_bytes 4 0x04034b50)) with (Done (A:=Z) 0x04034b50).
  cbv iota beta. change (negb (0x04034b50 =? 0x04034b50)) with false. cbv iota.
  unfold bind at 1. unfold lift at 1. rewrite Hs2. unfold tail.
  rewrite struct_unpack_pack by exact Hrest.
  cbv iota beta. cbn [field nth].
  replace (len pre + 30 - 1) with (len pre + 29) by lia.
  reflexivity.
Qed.

Lemma probe_at_header pre h rest w :
  local_header_ok h ->
  plain_sizes h ->
  let file := pre ++ encode_local_header h ++ rest in
  let data_offset := len pre + 30 + len (lh_name h) + len (lh_extra h) in
  Peekxtract._get_local_file_header_info (file_server file) (len pre) w
  = (Done (data_offset, lh_compressed_size h, lh_method h),
     World (requests w ++ [Range (len pre) (len pre + 29);
                           Range (len pre + 30) (data_offset - 1)])
           (sleeps w)).
Proof.
  intros Hok Hplain file data_offset.
  pose proof (probe_header_fields pre h rest w Hok) as Hprobe.
  cbv zeta in Hprobe. fold file in Hprobe. rewrite Hprobe. clear Hprobe.
  unfold bind at 1. rewrite file_server_read.
  assert (Hvar : (len (lh_extra h) >? 0)
                 && ((lh_compressed_size h =? 0xFFFFFFFF)
                     || (lh_uncompressed_size h =? 0xFFFFFFFF)) = false).
  { destruct Hplain as [He|[Hc Hu]].
    - rewrite He. reflexivity.
    - apply Z.eqb_neq in Hc, Hu. rewrite Hc, Hu, andb_false_r. reflexivity. }
  rewrite Hvar. unfold bind, ret. cbn [requests sleeps]. rewrite <- app_assoc.
  unfold data_offset. cbn [app].
  replace (len pre + 30 + (len (lh_name h) + len (lh_extra h)) - 1)
    with (len pre + 30 + len (lh_name h) + len (lh_extra h) - 1) by lia.
  reflexivity.
Qed.

(** A local header that stands at [len pre] in a file served with ranges
    is read in two requests, the 30 fixed bytes and then the name and the
    extra field; the payload is found right behind them, and the
    compressed size and the method are those of the header. *)
Theorem local_header_probe pre h rest w :
  local_header_ok h ->
  plain_sizes h ->
  let file := pre ++ encode_local_header h ++ rest in
  let data_offset := len pre + 30 + len (lh_name h) + len (lh_extra h) in
  Peekxtract._get_local_file_header_info (file_server file) (len pre) w
  = (Done (data_offset, lh_compressed_size h, lh_method h),
     World (requests w ++ [Range (len pre) (len pre + 29);
                           Range (len pre + 30) (data_offset - 1)])
           (sleeps w)).
Proof.
  intros Hok Hplain file data_offset.
  pose proof (probe_header_fields pre h rest w Hok) as Hprobe.
  cbv zeta in Hprobe. fold file in Hprobe. rewrite Hprobe. clear Hprobe.
  unfold bind at 1. rewrite file_server_read.
  assert (Hvar : (len (lh_extra h) >? 0)
                 && ((lh_compressed_size h =? 0xFFFFFFFF)
                     || (lh_uncompressed_size h =? 0xFFFFFFFF)) = false).
  { destruct Hplain as [He|[Hc Hu]].
    - rewrite He. reflexivity.
    - apply Z.eqb_neq in Hc, Hu. rewrite Hc, Hu, andb_false_r. reflexivity. }
  rewrite Hvar. unfold bind, ret. cbn [requests sleeps]. rewrite <- app_assoc.
  unfold data_offset. cbn [app].
  replace (len pre + 30 + (len (lh_name h) + len (lh_extra h)) - 1)
    with (len pre + 30 + len (lh_name h) + len (lh_extra h) - 1) by lia.
  reflexivity.
Qed.

Lemma local_header_probe_witness :
  Peekxtract._get_local_file_header_info
    (file_server ([] ++ encode_local_header hello_header ++ slice hello_zip 39 127))
    (len (@nil byte)) world0
  = (Done (len (@nil byte) + 30 + len (lh_name hello_header) + len (lh_extra hello_header),
           lh_compressed_size hello_header, lh_method hello_header),
     World (requests world0
            ++ [Range (len (@nil byte)) (len (@nil byte) + 29);
                Range (len (@nil byte) + 30)
                      (len (@nil byte) + 30 + len (lh_name hello_header)
                       + len (lh_extra hello_header) - 1)])
           (sleeps world0)).
Proof.
  apply (local_header_probe [] hello_header (slice hello_zip 39 127) world0).
  - unfold local_header_ok, fits, local_header_widths, local_header_fields.
    repeat (constructor; [vm_compute; repeat split; discriminate|]). constructor.
  - left. reflexivity.
Defined.

Example hello_header_encoded :
  encode_local_header hello_header ++ slice hello_zip 39 127 = hello_zip.
Proof. vm_compute. reflexivity. Qed.

(** ** A stored member, from the archive to the bytes written *)

Section RoundTrip.

Variables (files_info : list (Z * file_info)) (current_display_mapping : gmap Z Z).
Variables (zlib_decompress bz2_decompress lzma_decompress : bytes -> option bytes)
          (binascii_crc32 : bytes -> Z) (schedule : Z -> list Z)
          (os : Peekxtract.system).

Lemma len_encode_local_header h :
  local_header_ok h ->
  len (encode_local_header h) = 30 + len (lh_name h) + len (lh_extra h).
Proof.
  intros Hok. unfold encode_local_header.
  rewrite !len_app, (len_local_header_fixed h Hok). lia.
Qed.

(** An archive holds, behind [pre], a local header and the payload
    of a stored member, and the catalog entry of the member points at
    the header and gives the length of the payload.  When the operating
    system goes along (the output directory is found, both directories
    can be made, the file can be written and the clock has moved),
    [download_file] writes the payload, byte for byte, at the path made
    of the output directory and the sanitized name, whatever the order
    in which the chunks arrive, after two requests for the header and
    one for each chunk. *)
Theorem download_stored_round_trip pre h payload rest n output_dir verify_integrity
    w info dir w1 :
  let file := pre ++ encode_local_header h ++ payload ++ rest in
  let idx := Peekxtract._get_actual_file_index current_display_mapping (n - 1) in
  let data_offset := len pre + 30 + len (lh_name h) + len (lh_extra h) in
  let w' := World (requests w ++ [Range (len pre) (len pre + 29);
                                  Range (len pre + 30) (data_offset - 1)])
                  (sleeps w) in
  let p := planned data_offset (len payload) Peekxtract.default_max_workers in
  let parts := Peekxtract.safe_parts (filename info) in
  let path := Peekxtract.os_path_join os dir parts in
  let w2 := World (requests w1
                   ++ map (chunk_request p) (schedule (Peekxtract.total_chunks p)))
                  (sleeps w1) in
  0 <= idx < len files_info ->
  dict_get files_info idx = Some info ->
  compression_method info = 0 ->
  local_header_offset info = len pre ->
  compressed_size info = len payload ->
  lh_compressed_size h <= len payload ->
  local_header_ok h ->
  plain_sizes h ->
  (forall n, schedule n ≡ₚ py_range n) ->
  Peekxtract.resolve_output_dir os output_dir w' = (Done dir, w1) ->
  Peekxtract.os_makedirs os w1 dir = None ->
  Peekxtract.os_makedirs os w1 (Peekxtract.os_path_dirname os path) = None ->
  Peekxtract.write_file os w2 path payload = None ->
  Peekxtract.no_time_elapsed os w2 = false ->
  Peekxtract.download_file (file_server file) files_info current_display_mapping
    zlib_decompress bz2_decompress lzma_decompress binascii_crc32 schedule os
    n output_dir Peekxtract.default_max_workers verify_integrity w
  = (Done (Some (Peekxtract.Artifact path parts payload
                   (if verify_integrity
                    then Some (Z.land (binascii_crc32 payload) 0xFFFFFFFF
                               =? crc32 info)
                    else None))),
     w2).
Proof.
  intros file idx data_offset w' p parts path w2
         Hidx Hget Hstored Hoff Hsize Hlocal Hok Hplain Hsched
         Hdir Hmk1 Hmk2 Hwrite Hclock.
  pose proof (probe_at_header pre h (payload ++ rest) w Hok Hplain) as Hprobe.
  cbv zeta in Hprobe. fold file in Hprobe. rewrite <- Hoff in Hprobe at 1.
  fold data_offset in Hprobe. fold w' in Hprobe.
  pose proof (len_nonneg pre) as Hpre.
  pose proof (len_nonneg (lh_name h)) as Hname.
  pose proof (len_nonneg (lh_extra h)) as Hextra.
  assert (HP : 0 <= data_offset) by (unfold data_offset; lia).
  rewrite (download_member file files_info current_display_mapping
             zlib_decompress bz2_decompress lzma_decompress binascii_crc32 schedule os
             n output_dir verify_integrity w info _ _ _ _ (Done dir) w1
             Hidx Hget Hprobe HP Hsched Hdir).
  cbv zeta. fold parts. fold path. rewrite Hmk1, Hmk2.
  rewrite Hstored. cbn [Z.eqb negb].
  assert (Hmax : Z.max (compressed_size info) (lh_compressed_size h) = len payload)
    by (rewrite Hsize; lia).
  rewrite Hmax. fold p. fold w2.
  assert (Hpayload : slice file data_offset (data_offset + len payload) = payload).
  { unfold file, data_offset.
    rewrite (app_assoc pre). apply slice_app_mid.
    - rewrite len_app, len_encode_local_header by assumption. lia.
    - rewrite len_app, len_encode_local_header by assumption. lia. }
  rewrite Hpayload, Hwrite, Hclock. reflexivity.
Qed.

End RoundTrip.

Lemma download_stored_round_trip_witness :
  Peekxtract.download_file
    (file_server ([] ++ encode_local_header hello_header
                     ++ slice hello_zip 39 50 ++ slice hello_zip 50 127))
    hello_catalog ∅ no_codec no_codec no_codec zero_crc reverse_schedule willing_system
    1 None Peekxtract.default_max_workers true world0
  = (Done (Some (Peekxtract.Artifact (lit "archive/hello.txt") [lit "hello.txt"]
                   [x68; x65; x6c; x6c; x6f; x20; x77; x6f; x72; x6c; x64]
                   (Some false))),
     World [Range 0 29; Range 30 38; Range 39 49] []).
Proof.
  pose proof (download_stored_round_trip hello_catalog ∅
                no_codec no_codec no_codec zero_crc reverse_schedule willing_system
                [] hello_header (slice hello_zip 39 50) (slice hello_zip 50 127)
                1 None true world0 (FileInfo (lit "hello.txt") 11 11 0 0 0x0d4a1185)
                (lit "archive") (World [Range 0 29; Range 30 38] []))
    as Htrip.
  cbv zeta in Htrip.
  assert (Hidx : 0 <= Peekxtract._get_actual_file_index ∅ (1 - 1) < len hello_catalog)
    by (vm_compute; split; [discriminate|reflexivity]).
  assert (Hlocal : lh_compressed_size hello_header <= len (slice hello_zip 39 50))
    by (vm_compute; discriminate).
  assert (Hok : local_header_ok hello_header).
  { unfold local_header_ok, fits, local_header_widths, local_header_fields.
    repeat (constructor; [vm_compute; repeat split; discriminate|]). constructor. }
  specialize (Htrip Hidx eq_refl eq_refl eq_refl eq_refl Hlocal Hok
                (or_introl eq_refl) reverse_schedule_permutation
                eq_refl eq_refl eq_refl eq_refl eq_refl).
  rewrite Htrip. vm_compute. reflexivity.
Defined.

(** ** A catalog entry that does not point at a local header *)

Lemma le_bytes_le_uint bs : le_bytes (length bs) (le_uint bs) = bs.
Proof.
  induction bs as [|b bs IH]; [reflexivity|].
  cbn [length le_bytes le_uint].
  pose proof (byte_val_range b) as Hb.
  replace ((byte_val b + 256 * le_uint bs) / 256) with (le_uint bs)
    by (rewrite Z.mul_comm, Z.div_add by lia; rewrite Z.div_small by lia; lia).
  rewrite IH. f_equal. apply byte_val_inj. rewrite byte_val_of_Z.
  rewrite Z.mul_comm, Z.mod_add by lia. apply Z.mod_small. lia.
Qed.

Section BadHeader.

Variables (file : bytes) (files_info : list (Z * file_info))
          (current_display_mapping : gmap Z Z).
Variables (zlib_decompress bz2_decompress lzma_decompress : bytes -> option bytes)
          (binascii_crc32 : bytes -> Z) (schedule : Z -> list Z)
          (os : Peekxtract.system).

Lemma probe_rejects offset w :
  slice file offset (offset + 4) <> le_bytes 4 0x04034b50 ->
  exists e,
    Peekxtract._get_local_file_header_info (file_server file) offset w
    = (Raised e, World (requests w ++ [Range offset (offset + 29)]) (sleeps w)).
Proof.
  intros Hsig. unfold Peekxtract._get_local_file_header_info.
  unfold bind at 1. rewrite file_server_read.
  replace (offset + 30 - 1) with (offset + 29) by lia.
  assert (Hhead : slice (slice file offset (offset + 30)) 0 4
                  = slice file offset (offset + 4)).
  { unfold slice. rewrite Z.sub_0_r. change (Z.to_nat 0) with 0%nat.
    rewrite drop_0.
    replace (offset + 30 - offset) with 30 by lia.
    replace (offset + 4 - offset) with 4 by lia.
    rewrite take_take. reflexivity. }
  unfold bind at 1. unfold lift at 1. rewrite Hhead.
  unfold unpack_uint.
  destruct (len (slice file offset (offset + 4)) =? 4) eqn:Elen; [|eauto].
  cbv iota beta.
  destruct (negb (le_uint (slice file offset (offset + 4)) =? 0x04034b50)) eqn:E;
    [unfold raise; eauto|].
  exfalso. apply Hsig. apply negb_false_iff, Z.eqb_eq in E. apply Z.eqb_eq in Elen.
  rewrite <- E.
  replace 4%nat with (length (slice file offset (offset + 4))) by (unfold len in Elen; lia).
  symmetry. apply le_bytes_le_uint.
Qed.

(** The catalog entry of a member points at bytes that do not begin with
    the local header signature [50 4b 03 04]: [download_file] returns
    [False] after the one request that read them. *)
Theorem download_file_bad_local_header n output_dir max_workers verify_integrity w info :
  let idx := Peekxtract._get_actual_file_index current_display_mapping (n - 1) in
  0 <= idx < len files_info ->
  dict_get files_info idx = Some info ->
  slice file (local_header_offset info) (local_header_offset info + 4)
    <> le_bytes 4 0x04034b50 ->
  Peekxtract.download_file (file_server file) files_info current_display_mapping
    zlib_decompress bz2_decompress lzma_decompress binascii_crc32 schedule os
    n output_dir max_workers verify_integrity w
  = (Done None,
     World (requests w ++ [Range (local_header_offset info)
                                 (local_header_offset info + 29)])
           (sleeps w)).
Proof.
  intros idx Hidx Hget Hsig.
  destruct (probe_rejects (local_header_offset info) w Hsig) as (e & Hprobe).
  unfold Peekxtract.download_file, Peekxtract.download_file_plan, catch.
  fold idx.
  assert ((idx <? 0) || (idx >=? len files_info) = false) as ->.
  { apply orb_false_iff. split; [apply Z.ltb_ge; lia|].
    rewrite Z.geb_leb. apply Z.leb_gt. lia. }
  rewrite Hget. unfold bind at 1. unfold bind at 1. rewrite Hprobe. reflexivity.
Qed.

End BadHeader.

Lemma download_file_bad_local_header_witness :
  Peekxtract.download_file (file_server hello_zip)
    [(0, FileInfo (lit "hello.txt") 11 11 0 50 0x0d4a1185)] ∅
    no_codec no_codec no_codec zero_crc in_order_schedule willing_system 1 None 4 true world0
  = (Done None,
     World (requests world0
            ++ [Range (local_header_offset (FileInfo (lit "hello.txt") 11 11 0 50 0x0d4a1185))
                      (local_header_offset (FileInfo (lit "hello.txt") 11 11 0 50 0x0d4a1185)
                       + 29)])
           (sleeps world0)).
Proof.
  apply (download_file_bad_local_header hello_zip
           [(0, FileInfo (lit "hello.txt") 11 11 0 50 0x0d4a1185)] ∅
           no_codec no_codec no_codec zero_crc in_order_schedule willing_system 1 None 4 true world0
           (FileInfo (lit "hello.txt") 11 11 0 50 0x0d4a1185)).
  - vm_compute. split; [discriminate|reflexivity].
  - reflexivity.
  - vm_compute. discriminate.
Defined.

(** ** What every catalog satisfies ([_parse_central_directory]) *)

Lemma dict_set_fresh {V} (d : list (Z * V)) k v :
  k ∉ dict_keys d -> dict_set d k v = d ++ [(k, v)].
Proof.
  induction d as [|[k' v'] d IH]; intros Hk; cbn [dict_set app]; [reflexivity|].
  unfold dict_keys in *. cbn [map fst] in Hk.
  apply not_elem_of_cons in Hk as [Hne Hk].
  destruct (Z.eqb_spec k' k) as [->|_]; [contradiction|].
  now rewrite IH.
Qed.

Lemma py_range_succ n : 0 <= n -> py_range (n + 1) = py_range n ++ [n].
Proof.
  intros Hn. rewrite <- (Z2Nat.id n) at 1 3 by lia.
  replace (Z.of_nat (Z.to_nat n) + 1) with (Z.of_nat (S (Z.to_nat n))) by lia.
  rewrite py_range_S. now rewrite Z2Nat.id by lia.
Qed.

Lemma well_numbered_set {V} (d : list (Z * V)) v :
  well_numbered d ->
  dict_set d (len d) v = d ++ [(len d, v)] /\ well_numbered (dict_set d (len d) v).
Proof.
  intros Hd. assert (Hfresh : dict_set d (len d) v = d ++ [(len d, v)]).
  { apply dict_set_fresh. rewrite Hd. intros Hin. apply elem_of_py_range in Hin. lia. }
  split; [exact Hfresh|]. rewrite Hfresh. unfold well_numbered, dict_keys in *.
  rewrite map_app, Hd, len_app. cbn [map fst]. change (len [(len d, v)]) with 1.
  symmetry. apply py_range_succ, len_nonneg.
Qed.

Lemma well_numbered_get {V} (d : list (Z * V)) idx :
  well_numbered d -> 0 <= idx < len d -> exists v, dict_get d idx = Some v.
Proof.
  intros Hd Hidx. unfold dict_get.
  destruct (List.find (fun kv => fst kv =? idx) d) as [kv|] eqn:E; [cbn; eauto|].
  exfalso. assert (Hin : idx ∈ dict_keys d) by (rewrite Hd; apply elem_of_py_range; lia).
  unfold dict_keys in Hin. apply list_elem_of_fmap in Hin as (kv & -> & Hin).
  apply list_elem_of_In in Hin.
  pose proof (find_none _ _ E kv Hin) as Hno. cbn in Hno. lia.
Qed.

Lemma zip64_record_nonneg extra_data offset data_size c u o ru rc ro :
  0 <= c -> 0 <= u -> 0 <= o ->
  Peekxtract.zip64_record extra_data offset data_size c u o = Done (ru, rc, ro) ->
  0 <= ru /\ 0 <= rc /\ 0 <= ro.
Proof.
  intros Hc Hu Ho. unfold Peekxtract.zip64_record.
  repeat match goal with
  | |- context [unpack_uint 8 ?buf] =>
      let v := fresh "v" in let Hv := fresh "Hv" in
      destruct (unpack_uint_cases 8 buf) as [(v & -> & Hv)| ->]
  | |- context [if ?b then _ else _] => destruct b
  | _ => progress cbn [obind]
  end; try discriminate; intros [= <- <- <-]; repeat split; assumption.
Qed.

Lemma zip64_extra_loop_nonneg extra_data c u o ru rc ro :
  0 <= c -> 0 <= u -> 0 <= o ->
  forall fuel offset,
    Peekxtract.zip64_extra_loop fuel extra_data c u o offset = Done (Some (ru, rc, ro)) ->
    0 <= ru /\ 0 <= rc /\ 0 <= ro.
Proof.
  intros Hc Hu Ho. induction fuel as [|fuel IH]; intros offset; [discriminate|].
  cbn [Peekxtract.zip64_extra_loop].
  destruct (_ <=? _); [|discriminate].
  destruct (unpack_uint_cases 2 (slice extra_data offset (offset + 2)))
    as [(id & -> & _)| ->]; [|discriminate].
  destruct (unpack_uint_cases 2 (slice extra_data (offset + 2) (offset + 4)))
    as [(size & -> & _)| ->]; [|discriminate].
  cbn [obind]. destruct (id =? 1); [|apply IH].
  destruct (Peekxtract.zip64_record _ _ _ _ _ _) as [[[ru' rc'] ro']|e|] eqn:E;
    cbn [obind]; try discriminate.
  intros [= -> -> ->]. exact (zip64_record_nonneg _ _ _ _ _ _ _ _ _ Hc Hu Ho E).
Qed.

(** The sizes and the offset an entry ends up with are not negative. *)
Lemma cd_real_nonneg (has_extra in_bounds : bool) extra_data c u o ru rc ro :
  0 <= c -> 0 <= u -> 0 <= o ->
  (if has_extra then
     if in_bounds then
       zip64_info <~ Peekxtract._parse_zip64_extra_field extra_data c u o ;;
       match zip64_info with
       | Some info => Done info
       | None => Done (u, c, o)
       end
     else Done (u, c, o)
   else Done (u, c, o)) = Done (ru, rc, ro) ->
  0 <= ru /\ 0 <= rc /\ 0 <= ro.
Proof.
  intros Hc Hu Ho.
  destruct has_extra; [|intros [= <- <- <-]; repeat split; assumption].
  destruct in_bounds; [|intros [= <- <- <-]; repeat split; assumption].
  unfold Peekxtract._parse_zip64_extra_field.
  destruct (Peekxtract.zip64_extra_loop _ _ _ _ _ _) as [[[[ru' rc'] ro']|]|e|] eqn:E;
    cbn [obind]; try discriminate.
  - intros [= -> -> ->].
    exact (zip64_extra_loop_nonneg _ _ _ _ _ _ _ Hc Hu Ho _ _ E).
  - intros [= <- <- <-]. repeat split; assumption.
Qed.

Section CatalogInvariant.

Variable cd_data : bytes.

Lemma cd_entry_inv offset entry_count file_count files_info
    offset' file_count' files_info' :
  Peekxtract.cd_entry cd_data offset entry_count file_count files_info
    = Done (Peekxtract.CdNext offset' file_count' files_info') ->
  catalog_inv file_count files_info -> catalog_inv file_count' files_info'.
Proof.
  unfold Peekxtract.cd_entry, struct_unpack.
  destruct (len _ =? _); [|discriminate]. cbn [obind].
  set (header := split_fields _ _).
  assert (Hnn : Forall (Z.le 0) header) by apply split_fields_nonneg.
  pose proof (field_nonneg 8 header Hnn) as Hc.
  pose proof (field_nonneg 9 header Hnn) as Hu.
  pose proof (field_nonneg 16 header Hnn) as Ho.
  destruct (negb _); [discriminate|].
  destruct (_ >? len cd_data); [discriminate|].
  match goal with
  | |- context [obind ?m _] =>
      assert (Hreal : forall ru rc ro, m = Done (ru, rc, ro) ->
                                       0 <= ru /\ 0 <= rc /\ 0 <= ro)
        by (intros ru rc ro; apply cd_real_nonneg; assumption);
      destruct m as [[[ru rc] ro]|e|]; cbn [obind]; try discriminate
  end.
  destruct (Hreal ru rc ro eq_refl) as (Hru & Hrc & Hro).
  destruct (negb (endswith_char _ 47) && _) eqn:Ekeep; cbv beta iota;
    intros Hnext Hold; apply cd_next_inj in Hnext as (_ & <- & <-); [|exact Hold].
  destruct Hold as (-> & Hkeys & Hall).
  destruct (well_numbered_set files_info
              (FileInfo (if field 10 header >? 0
                         then decode_utf8_ignore
                                (slice cd_data (offset + 46)
                                   (offset + 46 + field 10 header))
                         else lit "unnamed_file_" ++ str_of_int entry_count)
                        rc ru (field 4 header) ro (field 7 header)) Hkeys)
    as (Hset & Hkeys').
  split; [|split; [exact Hkeys'|]].
  - rewrite Hset, len_app. reflexivity.
  - rewrite Hset. apply Forall_app. split; [exact Hall|].
    constructor; [|constructor]. cbn [snd].
    apply andb_true_iff in Ekeep as [Hname Hsize].
    apply negb_true_iff in Hname. apply orb_true_iff in Hsize.
    unfold listed_entry.
    cbn [filename compressed_size uncompressed_size local_header_offset].
    repeat split; try assumption. destruct Hsize as [H|H]; [left|right]; lia.
Qed.

Lemma cd_walk_inv : forall fuel offset entry_count file_count files_info catalog,
  Peekxtract.cd_walk fuel cd_data offset entry_count file_count files_info
    = Done catalog ->
  catalog_inv file_count files_info -> exists n, catalog_inv n catalog.
Proof.
  induction fuel as [|fuel IH]; intros offset entry_count file_count files_info
    catalog; [discriminate|].
  cbn [Peekxtract.cd_walk].
  destruct (_ <? _); [|intros [= <-] H; eauto].
  destruct (_ >? _); [intros [= <-] H; eauto|].
  destruct (Peekxtract.cd_entry _ _ _ _ _) as [[|offset' fc fi]|e|] eqn:Estep.
  - intros [= <-] H; eauto.
  - intros Hwalk Hold. apply (IH _ _ _ _ _ Hwalk).
    exact (cd_entry_inv _ _ _ _ _ _ _ Estep Hold).
  - apply IH.
  - discriminate.
Qed.

End CatalogInvariant.

(** Whatever the server sends, a catalog that [_parse_central_directory]
    returns is numbered [0 .. n - 1] without a gap, so that every index
    [download_file] lets through is a key of it; and no entry of it is a
    directory (a name that ends in a slash) or has both sizes zero: empty
    members are not listed. *)
Theorem catalog_well_formed srv file_size w catalog w' :
  Peekxtract._parse_central_directory srv file_size w = (Done catalog, w') ->
  well_numbered catalog
  /\ (forall idx, 0 <= idx < len catalog -> exists info, dict_get catalog idx = Some info)
  /\ Forall (fun entry => listed_entry (snd entry)) catalog.
Proof.
  unfold Peekxtract._parse_central_directory. unfold bind at 1.
  destruct (Peekxtract._find_end_of_central_directory srv file_size w)
    as [[[cd_offset cd_size]|e|] w1]; try discriminate.
  unfold bind at 1.
  destruct (Peekxtract._read_bytes srv cd_offset cd_size w1) as [[cd_data|e|] w2];
    try discriminate.
  unfold lift. intros Heq. apply (f_equal fst) in Heq. cbn [fst] in Heq.
  destruct (cd_walk_inv cd_data _ _ _ _ _ _ Heq) as (n & _ & Hkeys & Hall).
  { split; [reflexivity|]. split; [reflexivity|constructor]. }
  split; [exact Hkeys|]. split; [|exact Hall].
  intros idx Hidx. apply well_numbered_get; assumption.
Qed.

Lemma catalog_well_formed_witness :
  well_numbered hello_catalog
  /\ (forall idx, 0 <= idx < len hello_catalog ->
        exists info, dict_get hello_catalog idx = Some info)
  /\ Forall (fun entry => listed_entry (snd entry)) hello_catalog.
Proof.
  apply (catalog_well_formed (file_server hello_zip) (len hello_zip) world0
           hello_catalog (World [Range 0 126; Range 50 104] [])).
  vm_compute. reflexivity.
Defined.

(** ** The central directory, from its records to the catalog *)

Lemma len_slice {A} (l : list A) i j :
  0 <= i <= j -> j <= len l -> len (slice l i j) = j - i.
Proof.
  intros Hij Hj. unfold slice, len in *. rewrite length_take, length_drop. lia.
Qed.

(** With no field at the sentinel the ZIP64 scan changes nothing. *)
Lemma zip64_record_plain extra_data offset data_size c u o :
  c <> 0xFFFFFFFF -> u <> 0xFFFFFFFF -> o <> 0xFFFFFFFF ->
  Peekxtract.zip64_record extra_data offset data_size c u o = Done (u, c, o).
Proof.
  intros Hc Hu Ho. apply Z.eqb_neq in Hc, Hu, Ho.
  unfold Peekxtract.zip64_record. rewrite Hc, Hu, Ho. reflexivity.
Qed.

Lemma zip64_extra_loop_plain extra_data c u o :
  c <> 0xFFFFFFFF -> u <> 0xFFFFFFFF -> o <> 0xFFFFFFFF ->
  forall fuel offset, 0 <= offset ->
    match Peekxtract.zip64_extra_loop fuel extra_data c u o offset with
    | Done None | OutOfFuel => True
    | Done (Some r) => r = (u, c, o)
    | Raised _ => False
    end.
Proof.
  intros Hc Hu Ho. induction fuel as [|fuel IH]; intros offset Hoff; [exact I|].
  cbn [Peekxtract.zip64_extra_loop].
  destruct (Z.leb_spec (offset + 4) (len extra_data)) as [Hle|]; [|exact I].
  unfold unpack_uint. rewrite !len_slice by lia.
  replace (offset + 2 - offset) with 2 by lia.
  replace (offset + 4 - (offset + 2)) with 2 by lia.
  change (2 =? 2) with true. cbv iota. cbn [obind].
  destruct (_ =? 1).
  - rewrite zip64_record_plain by assumption. reflexivity.
  - apply IH. pose proof (le_uint_nonneg (slice extra_data (offset + 2) (offset + 4))). lia.
Qed.

Lemma parse_zip64_plain extra_data c u o :
  c <> 0xFFFFFFFF -> u <> 0xFFFFFFFF -> o <> 0xFFFFFFFF ->
  Peekxtract._parse_zip64_extra_field extra_data c u o = Done None
  \/ Peekxtract._parse_zip64_extra_field extra_data c u o = Done (Some (u, c, o)).
Proof.
  intros Hc Hu Ho.
  pose proof (proj1 (parse_zip64_extra_field_total extra_data c u o)) as Hfuel.
  pose proof (zip64_extra_loop_plain extra_data c u o Hc Hu Ho
                (S (length extra_data)) 0 ltac:(lia)) as Hplain.
  unfold Peekxtract._parse_zip64_extra_field in *.
  destruct (Peekxtract.zip64_extra_loop _ _ _ _ _ _) as [[r|]|e|].
  - right. now subst r.
  - left. reflexivity.
  - contradiction.
  - congruence.
Qed.

Lemma len_cd_record_fixed r :
  cd_record_ok r -> len (struct_pack cd_record_widths (cd_record_fields r)) = 46.
Proof. intros Hok. now rewrite len_struct_pack. Qed.

Lemma len_encode_cd_record r :
  cd_record_ok r ->
  len (encode_cd_record r)
  = 46 + len (cd_name r) + len (cd_extra r) + len (cd_comment r).
Proof.
  intros Hok. unfold encode_cd_record. rewrite !len_app, len_cd_record_fixed by assumption.
  lia.
Qed.

Lemma cd_real_parsed r real :
  cd_real r real ->
  (if len (cd_extra r) >? 0 then
     zip64_info <~ Peekxtract._parse_zip64_extra_field (cd_extra r)
                     (cd_compressed_size r) (cd_uncompressed_size r)
                     (cd_local_header_offset r) ;;
     match zip64_info with
     | Some info => Done info
     | None => Done (cd_uncompressed_size r, cd_compressed_size r,
                     cd_local_header_offset r)
     end
   else Done (cd_uncompressed_size r, cd_compressed_size r, cd_local_header_offset r))
  = Done (sz_uncompressed real, sz_compressed real, sz_local_header_offset real).
Proof.
  intros [[Hplain ->]|(others & data & rest & Hextra & Hall & Hshort & Hfits & ->)].
  - destruct (len (cd_extra r) >? 0) eqn:Eextra; [|reflexivity].
    destruct Hplain as [Hnil|(Hc & Hu & Ho)];
      [rewrite Hnil in Eextra; discriminate|].
    destruct (parse_zip64_plain (cd_extra r) _ _ _ Hc Hu Ho) as [-> | ->];
      reflexivity.
  - assert ((len (cd_extra r) >? 0) = true) as ->.
    { rewrite Z.gtb_ltb. apply Z.ltb_lt. rewrite Hextra, !len_app, len_extra_record.
      pose proof (len_nonneg (concat (map extra_record others))).
      pose proof (len_nonneg (snd (1, data))). pose proof (len_nonneg rest). lia. }
    unfold Peekxtract._parse_zip64_extra_field. rewrite Hextra.
    destruct (peekxtract_loop_scan data rest _ _ _ Hshort Hfits others
                (S (length (concat (map extra_record others)
                            ++ extra_record (1, data) ++ rest))) [] Hall)
      as (parsed & Hparsed & Hsizes).
    { pose proof (length_extra_records others). rewrite length_app. lia. }
    cbn [app] in Hparsed. change (len (@nil byte)) with 0 in Hparsed.
    rewrite Hparsed. cbn [obind]. unfold cd_sizes. rewrite <- Hsizes.
    destruct parsed as [[u c] o]. reflexivity.
Qed.

Lemma cd_entry_at pre r real rest entry_count file_count files_info :
  cd_record_ok r -> cd_real r real ->
  Peekxtract.cd_entry (pre ++ encode_cd_record r ++ rest) (len pre)
    entry_count file_count files_info
  = Done (if cd_record_listed r real entry_count
          then Peekxtract.CdNext (len pre + len (encode_cd_record r)) (file_count + 1)
                 (dict_set files_info file_count (cd_record_info r real entry_count))
          else Peekxtract.CdNext (len pre + len (encode_cd_record r)) file_count
                 files_info).
Proof.
  intros Hok Hreal.
  pose proof (len_cd_record_fixed r Hok) as Hfixed.
  pose proof (len_encode_cd_record r Hok) as Hlen.
  pose proof (len_nonneg pre) as Hpre.
  pose proof (len_nonneg (cd_name r)) as Hn.
  pose proof (len_nonneg (cd_extra r)) as He.
  pose proof (len_nonneg (cd_comment r)) as Hm.
  pose proof (len_nonneg rest) as Hr.
  set (cd_data := pre ++ encode_cd_record r ++ rest).
  assert (Htotal : len cd_data = len pre + len (encode_cd_record r) + len rest)
    by (unfold cd_data; rewrite !len_app; lia).
  set (fixed := struct_pack cd_record_widths (cd_record_fields r)) in *.
  assert (Hshape : cd_data
                   = pre ++ fixed ++ cd_name r ++ cd_extra r ++ cd_comment r ++ rest).
  { unfold cd_data, encode_cd_record. fold fixed. now rewrite <- !app_assoc. }
  assert (Hhead : slice cd_data (len pre) (len pre + 46) = fixed).
  { rewrite Hshape. apply slice_app_mid; [reflexivity|]. now rewrite Hfixed. }
  assert (Hname : slice cd_data (len pre + 46) (len pre + 46 + len (cd_name r))
                  = cd_name r).
  { rewrite Hshape, (app_assoc pre).
    apply slice_app_mid; rewrite len_app, Hfixed; lia. }
  assert (Hextra : slice cd_data (len pre + 46 + len (cd_name r))
                     (len pre + 46 + len (cd_name r) + len (cd_extra r))
                   = cd_extra r).
  { rewrite Hshape, (app_assoc pre), (app_assoc (pre ++ fixed)).
    apply slice_app_mid; rewrite !len_app, Hfixed; lia. }
  unfold Peekxtract.cd_entry. rewrite Hhead. unfold fixed.
  rewrite struct_unpack_pack by exact Hok.
  cbn [obind]. unfold cd_record_fields. cbn [field nth].
  change (negb (0x02014b50 =? 0x02014b50)) with false. cbv iota.
  assert ((len pre + 46 + len (cd_name r) >? len cd_data) = false) as ->
    by (rewrite Z.gtb_ltb; apply Z.ltb_ge; lia).
  assert ((len pre + 46 + len (cd_name r) + len (cd_extra r) <=? len cd_data) = true)
    as -> by (apply Z.leb_le; lia).
  rewrite Hname, Hextra. rewrite (cd_real_parsed r real Hreal).
  cbn [obind]. cbv beta iota.
  unfold cd_record_listed, cd_record_info. cbn [filename].
  replace (len pre + 46 + len (cd_name r) + len (cd_extra r) + len (cd_comment r))
    with (len pre + len (encode_cd_record r)) by lia.
  destruct (negb _ && _); reflexivity.
Qed.

Lemma cd_walk_records records : forall fuel pre entry_count files_info,
  Forall well_formed_record records ->
  well_numbered files_info ->
  len (encode_central_directory (map fst records)) < Z.of_nat fuel ->
  Peekxtract.cd_walk fuel (pre ++ encode_central_directory (map fst records)) (len pre)
    entry_count (len files_info) files_info
  = Done (catalog_from records entry_count files_info).
Proof.
  induction records as [|[r real] records IH];
    intros fuel pre entry_count files_info Hok Hnum Hfuel.
  - change (len (encode_central_directory (map fst []))) with 0 in Hfuel.
    destruct fuel as [|fuel]; [lia|].
    cbn [Peekxtract.cd_walk encode_central_directory map concat catalog_from].
    rewrite app_nil_r, Z.ltb_irrefl. reflexivity.
  - apply Forall_cons in Hok as [[Hr Hreal] Hok]. cbn [fst snd] in Hr, Hreal.
    pose proof (len_encode_cd_record r Hr) as Hlen.
    pose proof (len_nonneg (cd_name r)). pose proof (len_nonneg (cd_extra r)).
    pose proof (len_nonneg (cd_comment r)).
    pose proof (len_nonneg (encode_central_directory (map fst records))).
    change (encode_central_directory (map fst ((r, real) :: records)))
      with (encode_cd_record r ++ encode_central_directory (map fst records)) in *.
    rewrite len_app in Hfuel.
    destruct fuel as [|fuel]; [lia|].
    cbn [Peekxtract.cd_walk catalog_from].
    assert ((len pre <? len (pre ++ encode_cd_record r
                             ++ encode_central_directory (map fst records)))
            = true) as -> by (apply Z.ltb_lt; rewrite !len_app; lia).
    assert ((len pre + 46 >? len (pre ++ encode_cd_record r
                                      ++ encode_central_directory (map fst records)))
            = false) as ->
      by (rewrite Z.gtb_ltb; apply Z.ltb_ge; rewrite !len_app; lia).
    rewrite (cd_entry_at pre r real) by assumption.
    rewrite app_assoc. rewrite <- len_app.
    destruct (cd_record_listed r real (entry_count + 1)).
    + destruct (well_numbered_set files_info
                  (cd_record_info r real (entry_count + 1)) Hnum) as [Hset Hnum'].
      rewrite Hset in *.
      replace (len files_info + 1)
        with (len (files_info
                   ++ [(len files_info, cd_record_info r real (entry_count + 1))]))
        by (rewrite len_app; reflexivity).
      apply IH; try assumption. lia.
    + apply IH; try assumption. lia.
Qed.

(** A central directory made of well-formed records is listed record by
    record: the catalog holds, numbered from 0 in the order of the
    records, the name (decoded, or [unnamed_file_N] for an empty one),
    the sizes, the method, the offset and the CRC of every record that is
    neither a directory nor empty, whatever the comments and the other
    extra records hold; a size or offset at the sentinel is listed with
    the 64-bit value of the ZIP64 record. *)
Theorem central_directory_round_trip records :
  Forall well_formed_record records ->
  let cd_data := encode_central_directory (map fst records) in
  Peekxtract.cd_walk (S (length cd_data)) cd_data 0 0 0 [] = Done (catalog_of records).
Proof.
  intros Hok cd_data.
  exact (cd_walk_records records (S (length cd_data)) [] 0 [] Hok eq_refl
           ltac:(unfold cd_data, len; lia)).
Qed.

Lemma hello_record_ok : well_formed_record (hello_record, cd_sizes hello_record).
Proof.
  split; [|left; split; [left|]; reflexivity].
  unfold cd_record_ok, fits, cd_record_widths, cd_record_fields. cbn [fst].
  repeat (constructor; [vm_compute; repeat split; discriminate|]). constructor.
Qed.

Lemma big_record_ok :
  well_formed_record
    (big_record, fill_sentinels zip64_order two_values (cd_sizes big_record)).
Proof.
  split.
  - unfold cd_record_ok, fits, cd_record_widths, cd_record_fields. cbn [fst].
    repeat (constructor; [vm_compute; repeat split; discriminate|]). constructor.
  - right. exists [timestamp_record], two_values, []. cbn [fst snd].
    split; [vm_compute; reflexivity|].
    split; [constructor; [|constructor]; unfold foreign_record; vm_compute;
            repeat split; discriminate|].
    split; [vm_compute; reflexivity|].
    split; [vm_compute; discriminate|reflexivity].
Qed.

Lemma central_directory_round_trip_witness :
  let records := [(hello_record, cd_sizes hello_record);
                  (big_record,
                   fill_sentinels zip64_order two_values (cd_sizes big_record))] in
  Peekxtract.cd_walk (S (length (encode_central_directory (map fst records))))
    (encode_central_directory (map fst records)) 0 0 0 []
  = Done (catalog_of records).
Proof.
  apply (central_directory_round_trip
           [(hello_record, cd_sizes hello_record);
            (big_record, fill_sentinels zip64_order two_values (cd_sizes big_record))]).
  constructor; [exact hello_record_ok|].
  constructor; [exact big_record_ok|constructor].
Defined.

Example hello_record_encoded : encode_cd_record hello_record = slice hello_zip 50 105.
Proof. vm_compute. reflexivity. Qed.

Example hello_record_catalog :
  catalog_of [(hello_record, cd_sizes hello_record)] = hello_catalog.
Proof. vm_compute. reflexivity. Qed.

Example big_record_catalog :
  catalog_of [(big_record, fill_sentinels zip64_order two_values (cd_sizes big_record))]
  = [(0, FileInfo (lit "big") 0x200000002 0x100000001 0 55 0)].
Proof. vm_compute. reflexivity. Qed.

(** ** Finding the End of Central Directory *)

Lemma py_range_down_cons n : 0 <= n -> py_range_down n = n :: py_range_down (n - 1).
Proof.
  intros Hn. unfold py_range_down. rewrite py_range_succ by lia.
  rewrite rev_app_distr. cbn [rev app]. now replace (n - 1 + 1) with n by lia.
Qed.

Lemma py_range_down_neg n : n < 0 -> py_range_down n = [].
Proof. intros Hn. unfold py_range_down. now rewrite py_range_nonpos by lia. Qed.

Lemma scan_signature_found sig data k m : forall n,
  n = k + Z.of_nat m -> 0 <= k ->
  slice data k (k + 4) = sig ->
  (forall j, k < j <= n -> slice data j (j + 4) <> sig) ->
  scan_signature sig data (py_range_down n) = Some k.
Proof.
  induction m as [|m IH]; intros n Hn Hk Hsig Hlater.
  - replace n with k by lia. rewrite py_range_down_cons by lia.
    unfold scan_signature. cbn [List.find].
    now rewrite bool_decide_eq_true_2.
  - rewrite py_range_down_cons by lia.
    unfold scan_signature. cbn [List.find].
    rewrite bool_decide_eq_false_2 by (apply Hlater; lia).
    apply IH; [lia|assumption|assumption|]. intros j Hj. apply Hlater. lia.
Qed.

Lemma scan_signature_missing sig data m : forall n,
  n < Z.of_nat m ->
  (forall j, 0 <= j <= n -> slice data j (j + 4) <> sig) ->
  scan_signature sig data (py_range_down n) = None.
Proof.
  induction m as [|m IH]; intros n Hn Hno.
  - now rewrite py_range_down_neg by lia.
  - destruct (Z.lt_ge_cases n 0) as [Hneg|Hpos];
      [now rewrite py_range_down_neg by lia|].
    rewrite py_range_down_cons by lia.
    unfold scan_signature. cbn [List.find].
    rewrite bool_decide_eq_false_2 by (apply Hno; lia).
    apply IH; [lia|]. intros j Hj. apply Hno. lia.
Qed.

Lemma len_eocd_fixed e : eocd_ok e -> len (struct_pack eocd_widths (eocd_fields e)) = 22.
Proof. intros Hok. now rewrite len_struct_pack. Qed.

Lemma len_encode_eocd e : eocd_ok e -> len (encode_eocd e) = 22 + len (eocd_comment e).
Proof. intros Hok. unfold encode_eocd. rewrite len_app, len_eocd_fixed by assumption. lia. Qed.

(** The last bytes of an archive that ends with [tail], as the search
    window of [search_size] bytes holds them. *)
Lemma tail_window {A} (pre tail : list A) search_size :
  len tail <= search_size <= len (pre ++ tail) ->
  let size := len (pre ++ tail) in
  exists pre',
    slice (pre ++ tail) (size - search_size) (size - search_size + search_size)
    = pre' ++ tail
    /\ len pre' = search_size - len tail.
Proof.
  intros Hs size. exists (drop (Z.to_nat (size - search_size)) pre).
  unfold size in *. rewrite len_app in *. unfold slice, len in *.
  split.
  - rewrite take_ge by (rewrite length_drop, length_app; lia).
    apply drop_app_le. lia.
  - rewrite length_drop. lia.
Qed.

Lemma slice_slice {A} (l : list A) a b i j :
  0 <= a -> 0 <= i -> a + j <= b -> slice (slice l a b) i j = slice l (a + i) (a + j).
Proof.
  intros Ha Hi Hj. unfold slice.
  rewrite skipn_firstn_comm, take_take, drop_drop.
  replace (Z.to_nat (a + i)) with (Z.to_nat a + Z.to_nat i)%nat by lia.
  replace (a + j - (a + i)) with (j - i) by lia.
  f_equal. lia.
Qed.

(** The search of [_find_end_of_central_directory] in an archive that
    ends with an EOCD record: what is left to do once the record is
    found and unpacked. *)
Lemma find_eocd_scan pre e w :
  eocd_ok e -> eocd_in_reach e -> eocd_unambiguous e ->
  let archive := pre ++ encode_eocd e in
  let size := len archive in
  let srv := file_server archive in
  Peekxtract._find_end_of_central_directory srv size w
  = (if Peekxtract.zip64_detected (eocd_cd_offset e) (eocd_cd_size e)
          (eocd_entries_total e)
     then
       loc <- Peekxtract._find_zip64_end_of_central_directory srv size (len pre) ;;
       let '(zip64_eocd_offset, total_disks) := loc in
       zip64_eocd_data <- Peekxtract._read_bytes srv zip64_eocd_offset 56 ;;
       t64 <- lift (struct_unpack [4; 8; 2; 2; 4; 4; 8; 8; 8; 8]
                                  (slice zip64_eocd_data 0 56)) ;;
       ret (field 9 t64, field 8 t64)
     else ret (eocd_cd_offset e, eocd_cd_size e))
      (World (requests w ++ [Range (size - Z.min 4096 size) (size - 1)]) (sleeps w)).
Proof.
  intros Hok Hreach Hlast archive size srv.
  pose proof (len_encode_eocd e Hok) as Hlen.
  pose proof (len_eocd_fixed e Hok) as Hfixed.
  pose proof (len_nonneg pre) as Hpre.
  pose proof (len_nonneg (eocd_comment e)) as Hcomment.
  assert (Hsize : size = len pre + len (encode_eocd e))
    by (unfold size, archive; apply len_app).
  unfold eocd_in_reach in Hreach.
  unfold Peekxtract._find_end_of_central_directory. cbv zeta.
  unfold bind at 1. unfold srv at 1. rewrite file_server_read.
  destruct (tail_window pre (encode_eocd e) (Z.min 4096 size)) as (pre' & Hwin & Hpre').
  { fold archive. fold size. lia. }
  fold archive in Hwin. fold size in Hwin. rewrite Hwin.
  replace (size - Z.min 4096 size + Z.min 4096 size - 1) with (size - 1) by lia.
  set (data := pre' ++ encode_eocd e).
  assert (Hdata : len data = len pre' + 22 + len (eocd_comment e))
    by (unfold data; rewrite len_app, Hlen; lia).
  assert (Hpos : 0 <= len pre') by apply len_nonneg.
  assert (Hhead : slice data (len pre') (len pre' + 22)
                  = struct_pack eocd_widths (eocd_fields e)).
  { unfold data, encode_eocd. apply slice_app_mid; [reflexivity|]. now rewrite Hfixed. }
  assert (Hsig : slice data (len pre') (len pre' + 4) = [x50; x4b; x05; x06]).
  { unfold data, encode_eocd.
    change (struct_pack eocd_widths (eocd_fields e))
      with (le_bytes 4 0x06054b50
            ++ struct_pack [2; 2; 2; 2; 4; 4; 2]
                 [eocd_disk e; eocd_cd_disk e; eocd_entries_disk e;
                  eocd_entries_total e; eocd_cd_size e; eocd_cd_offset e;
                  len (eocd_comment e)]).
    rewrite <- !app_assoc. apply slice_app_mid; reflexivity. }
  rewrite (scan_signature_found _ data (len pre') (Z.to_nat (len (eocd_comment e))));
    [|lia|lia|exact Hsig|].
  2:{ intros j Hj. replace j with (len pre' + (j - len pre')) by lia.
      replace (len pre' + (j - len pre') + 4) with (len pre' + (j - len pre' + 4)) by lia.
      unfold data. rewrite slice_app_r by lia. apply Hlast. lia. }
  rewrite Hhead. unfold bind at 1. unfold lift at 1.
  rewrite struct_unpack_pack by exact Hok.
  unfold eocd_fields. cbn [field nth].
  replace (size - Z.min 4096 size + len pre') with (len pre) by lia.
  reflexivity.
Qed.

Lemma find_eocd pre e w :
  eocd_ok e -> eocd_in_reach e -> eocd_unambiguous e -> eocd_plain e ->
  let archive := pre ++ encode_eocd e in
  let size := len archive in
  Peekxtract._find_end_of_central_directory (file_server archive) size w
  = (Done (eocd_cd_offset e, eocd_cd_size e),
     World (requests w ++ [Range (size - Z.min 4096 size) (size - 1)]) (sleeps w)).
Proof.
  intros Hok Hreach Hlast [Hoff Htotal] archive size.
  pose proof (find_eocd_scan pre e w Hok Hreach Hlast) as Hscan.
  cbv zeta in Hscan. fold archive in Hscan. fold size in Hscan. rewrite Hscan.
  unfold Peekxtract.zip64_detected.
  apply Z.eqb_neq in Hoff, Htotal. rewrite Hoff, Htotal. reflexivity.
Qed.

(** An archive that ends with an End of Central Directory record (and a
    comment that does not push it out of the last 4096 bytes or repeat
    its signature) is found in one request for those last bytes, and the
    place and the size of the central directory are read from it. *)
Theorem eocd_found_at_end pre e w :
  eocd_ok e -> eocd_in_reach e -> eocd_unambiguous e -> eocd_plain e ->
  let archive := pre ++ encode_eocd e in
  let size := len archive in
  Peekxtract._find_end_of_central_directory (file_server archive) size w
  = (Done (eocd_cd_offset e, eocd_cd_size e),
     World (requests w ++ [Range (size - Z.min 4096 size) (size - 1)]) (sleeps w)).
Proof.
  intros Hok Hreach Hlast [Hoff Htotal] archive size.
  pose proof (find_eocd_scan pre e w Hok Hreach Hlast) as Hscan.
  cbv zeta in Hscan. fold archive in Hscan. fold size in Hscan. rewrite Hscan.
  unfold Peekxtract.zip64_detected.
  apply Z.eqb_neq in Hoff, Htotal. rewrite Hoff, Htotal. reflexivity.
Qed.

Lemma hello_eocd_ok : eocd_ok hello_eocd.
Proof.
  unfold eocd_ok, fits, eocd_widths, eocd_fields.
  repeat (constructor; [vm_compute; repeat split; discriminate|]). constructor.
Qed.

Lemma no_comment_unambiguous e : eocd_comment e = [] -> eocd_unambiguous e.
Proof. intros He j Hj. rewrite He in Hj. change (len (@nil byte)) with 0 in Hj. lia. Qed.

Lemma eocd_found_at_end_witness :
  Peekxtract._find_end_of_central_directory
    (file_server (slice hello_zip 0 105 ++ encode_eocd hello_eocd))
    (len (slice hello_zip 0 105 ++ encode_eocd hello_eocd)) world0
  = (Done (eocd_cd_offset hello_eocd, eocd_cd_size hello_eocd),
     World (requests world0
            ++ [Range (len (slice hello_zip 0 105 ++ encode_eocd hello_eocd)
                       - Z.min 4096 (len (slice hello_zip 0 105 ++ encode_eocd hello_eocd)))
                      (len (slice hello_zip 0 105 ++ encode_eocd hello_eocd) - 1)])
           (sleeps world0)).
Proof.
  apply (eocd_found_at_end (slice hello_zip 0 105) hello_eocd world0).
  - exact hello_eocd_ok.
  - vm_compute. discriminate.
  - apply no_comment_unambiguous. reflexivity.
  - split; discriminate.
Defined.

(** Without the signature [50 4b 05 06] at a place where 22 bytes follow
    it within the last 4096 bytes of the file, the archive is refused
    with "End of Central Directory not found" after the one request for
    those bytes; nothing before them is looked at. *)
Theorem eocd_not_found file w :
  let size := len file in
  let start_pos := size - Z.min 4096 size in
  (forall j, start_pos <= j <= size - 22 -> slice file j (j + 4) <> eocd_signature) ->
  Peekxtract._find_end_of_central_directory (file_server file) size w
  = (Raised EocdNotFound,
     World (requests w ++ [Range start_pos (size - 1)]) (sleeps w)).
Proof.
  intros size start_pos Hno.
  pose proof (len_nonneg file) as Hsize. fold size in Hsize.
  unfold Peekxtract._find_end_of_central_directory. cbv zeta.
  unfold bind at 1. rewrite file_server_read.
  fold size. fold start_pos.
  replace (start_pos + Z.min 4096 size - 1) with (size - 1) by (unfold start_pos; lia).
  set (data := slice file start_pos (start_pos + Z.min 4096 size)).
  assert (Hdata : len data = Z.min 4096 size).
  { unfold data. rewrite len_slice; unfold start_pos; fold size; lia. }
  rewrite (scan_signature_missing _ data (Z.to_nat (len data))); [reflexivity|lia|].
  intros j Hj.
  assert (Hslice : slice data j (j + 4) = slice file (start_pos + j) (start_pos + j + 4)).
  { unfold data. replace (start_pos + j + 4) with (start_pos + (j + 4)) by lia.
    apply slice_slice; unfold start_pos; lia. }
  rewrite Hslice. apply Hno. unfold start_pos in *. lia.
Qed.

Lemma eocd_not_found_witness :
  Peekxtract._find_end_of_central_directory (file_server (slice hello_zip 0 50))
    (len (slice hello_zip 0 50)) world0
  = (Raised EocdNotFound,
     World (requests world0
            ++ [Range (len (slice hello_zip 0 50) - Z.min 4096 (len (slice hello_zip 0 50)))
                      (len (slice hello_zip 0 50) - 1)])
           (sleeps world0)).
Proof.
  apply (eocd_not_found (slice hello_zip 0 50) world0).
  intros j Hj. change (len (slice hello_zip 0 50)) with 50 in Hj.
  change (50 - Z.min 4096 50) with 0 in Hj.
  assert (Hcases : Forall (fun j => slice (slice hello_zip 0 50) j (j + 4) <> eocd_signature)
                          (py_range 29)).
  { vm_compute. repeat (constructor; [discriminate|]). constructor. }
  apply (proj1 (Forall_forall _ _) Hcases). apply elem_of_py_range. lia.
Defined.


(** ** Listing an archive ([_parse_central_directory]) *)

(** An archive made of member data, a central directory of well-formed
    records and an End of Central Directory record that points at it is
    listed in two requests, the last bytes of the file and the central
    directory, and the catalog is that of the records. *)
Theorem archive_listing members records e w :
  Forall well_formed_record records ->
  eocd_ok e -> eocd_in_reach e -> eocd_unambiguous e -> eocd_plain e ->
  eocd_cd_offset e = len members ->
  eocd_cd_size e = len (encode_central_directory (map fst records)) ->
  let archive := members ++ encode_central_directory (map fst records)
                 ++ encode_eocd e in
  let size := len archive in
  Peekxtract._parse_central_directory (file_server archive) size w
  = (Done (catalog_of records),
     World (requests w
            ++ [Range (size - Z.min 4096 size) (size - 1);
                Range (eocd_cd_offset e) (eocd_cd_offset e + eocd_cd_size e - 1)])
           (sleeps w)).
Proof.
  intros Hrecords Hok Hreach Hlast Heplain Hoff Hsize archive size.
  unfold Peekxtract._parse_central_directory. unfold bind at 1.
  pose proof (find_eocd (members ++ encode_central_directory (map fst records)) e w
                Hok Hreach Hlast Heplain) as Hfind.
  cbv zeta in Hfind. rewrite <- app_assoc in Hfind.
  fold archive in Hfind. fold size in Hfind. rewrite Hfind.
  unfold bind at 1. rewrite file_server_read.
  assert (Hcd : slice archive (eocd_cd_offset e) (eocd_cd_offset e + eocd_cd_size e)
                = encode_central_directory (map fst records)).
  { rewrite Hoff, Hsize. unfold archive. apply slice_app_mid; reflexivity. }
  rewrite Hcd. unfold lift.
  rewrite (cd_walk_records records _ [] 0 [] Hrecords eq_refl)
    by (unfold len; lia).
  cbn [requests sleeps]. rewrite <- app_assoc. reflexivity.
Qed.

Lemma archive_listing_witness :
  let records := [(hello_record, cd_sizes hello_record)] in
  let archive := slice hello_zip 0 50 ++ encode_central_directory (map fst records)
                 ++ encode_eocd hello_eocd in
  Peekxtract._parse_central_directory (file_server archive) (len archive) world0
  = (Done (catalog_of records),
     World (requests world0
            ++ [Range (len archive - Z.min 4096 (len archive)) (len archive - 1);
                Range (eocd_cd_offset hello_eocd)
                      (eocd_cd_offset hello_eocd + eocd_cd_size hello_eocd - 1)])
           (sleeps world0)).
Proof.
  apply (archive_listing (slice hello_zip 0 50) [(hello_record, cd_sizes hello_record)]
           hello_eocd world0).
  - constructor; [exact hello_record_ok|constructor].
  - exact hello_eocd_ok.
  - vm_compute. discriminate.
  - apply no_comment_unambiguous. reflexivity.
  - split; discriminate.
  - reflexivity.
  - reflexivity.
Defined.

Example hello_zip_parts :
  slice hello_zip 0 50 ++ encode_central_directory [hello_record]
  ++ encode_eocd hello_eocd = hello_zip.
Proof. vm_compute. reflexivity. Qed.

(** ** The ZIP64 End of Central Directory *)

Lemma len_zip64_eocd z : zip64_eocd_ok z -> len (encode_zip64_eocd z) = 56.
Proof. intros Hok. unfold encode_zip64_eocd. now rewrite len_struct_pack. Qed.

Lemma len_zip64_locator l : zip64_locator_ok l -> len (encode_zip64_locator l) = 20.
Proof. intros Hok. unfold encode_zip64_locator. now rewrite len_struct_pack. Qed.

(** An EOCD record whose offset or entry count is at its sentinel sends
    the reader to the locator in the 20 bytes before it and from there to
    the ZIP64 record, whose 64-bit size and offset of the central
    directory are returned; three requests are made.  The signature of
    the ZIP64 record is not looked at: any four bytes do. *)
Theorem zip64_eocd_promotion pre z middle l e w :
  zip64_eocd_ok z -> zip64_locator_ok l ->
  eocd_ok e -> eocd_in_reach e -> eocd_unambiguous e ->
  eocd_cd_offset e = 0xFFFFFFFF \/ eocd_entries_total e = 0xFFFF ->
  loc_eocd_offset l = len pre ->
  let archive := pre ++ encode_zip64_eocd z ++ middle ++ encode_zip64_locator l
                 ++ encode_eocd e in
  let size := len archive in
  let eocd_offset := size - len (encode_eocd e) in
  Peekxtract._find_end_of_central_directory (file_server archive) size w
  = (Done (z64_cd_offset z, z64_cd_size z),
     World (requests w
            ++ [Range (size - Z.min 4096 size) (size - 1);
                Range (eocd_offset - 20) (eocd_offset - 1);
                Range (len pre) (len pre + 55)])
           (sleeps w)).
Proof.
  intros Hz Hl Hok Hreach Hlast Hsent Hloc archive size eocd_offset.
  pose proof (len_zip64_eocd z Hz) as Hlenz.
  pose proof (len_zip64_locator l Hl) as Hlenl.
  pose proof (len_nonneg pre) as Hpre. pose proof (len_nonneg middle) as Hmid.
  set (before := pre ++ encode_zip64_eocd z ++ middle ++ encode_zip64_locator l).
  assert (Harchive : archive = before ++ encode_eocd e)
    by (unfold archive, before; now rewrite <- !app_assoc).
  assert (Hbefore : len before = len pre + 56 + len middle + 20)
    by (unfold before; rewrite !len_app, Hlenz, Hlenl; lia).
  assert (Heocd : eocd_offset = len before).
  { unfold eocd_offset, size. rewrite Harchive, len_app. lia. }
  pose proof (find_eocd_scan before e w Hok Hreach Hlast) as Hscan.
  cbv zeta in Hscan. rewrite <- Harchive in Hscan. fold size in Hscan.
  rewrite Hscan. clear Hscan.
  assert (Peekxtract.zip64_detected (eocd_cd_offset e) (eocd_cd_size e)
            (eocd_entries_total e) = true) as ->.
  { unfold Peekxtract.zip64_detected. apply orb_true_iff.
    destruct Hsent as [-> | ->]; [left|right]; reflexivity. }
  unfold bind at 1. unfold Peekxtract._find_zip64_end_of_central_directory.
  assert ((len before - 20 <? 0) = false) as -> by (apply Z.ltb_ge; lia).
  unfold bind at 1. unfold catch. rewrite file_server_read.
  assert (Hread1 : slice archive (len before - 20) (len before - 20 + 20)
                   = encode_zip64_locator l).
  { unfold archive. rewrite (app_assoc pre), (app_assoc (pre ++ _)).
    apply slice_app_mid; rewrite !len_app, Hlenz; lia. }
  rewrite Hread1.
  inversion Hl as [|w0 v0 ws0 vs0 _ Hl']; subst.
  unfold encode_zip64_locator.
  change (struct_pack zip64_locator_widths (zip64_locator_fields l))
    with (le_bytes 4 0x07064b50
          ++ struct_pack [4; 8; 4] [loc_disk l; loc_eocd_offset l; loc_total_disks l]).
  set (tail := struct_pack [4; 8; 4] _).
  assert (Htail : len tail = 16) by (unfold tail; now rewrite len_struct_pack).
  assert (Hs1 : slice (le_bytes 4 0x07064b50 ++ tail) 0 4 = le_bytes 4 0x07064b50)
    by (apply (slice_prefix (le_bytes 4 0x07064b50) tail)).
  assert (Hs2 : slice (le_bytes 4 0x07064b50 ++ tail) 4 20 = tail).
  { replace 20 with (len (le_bytes 4 0x07064b50 ++ tail))
      by (rewrite len_app, Htail; reflexivity).
    apply (slice_suffix (le_bytes 4 0x07064b50) tail). }
  unfold bind at 1. unfold lift at 1. rewrite Hs1.
  change (unpack_uint 4 (le_bytes 4 0x07064b50)) with (Done (A:=Z) 0x07064b50).
  cbv iota beta. change (negb (0x07064b50 =? 0x07064b50)) with false. cbv iota.
  unfold bind at 1. unfold lift at 1. rewrite Hs2. unfold tail.
  rewrite struct_unpack_pack by exact Hl'.
  cbv iota beta. cbn [field nth]. unfold ret at 1. cbv iota beta.
  unfold bind at 1. rewrite file_server_read.
  assert (Hread2 : slice archive (loc_eocd_offset l) (loc_eocd_offset l + 56)
                   = encode_zip64_eocd z).
  { rewrite Hloc. unfold archive. apply slice_app_mid; [reflexivity|]. now rewrite Hlenz. }
  rewrite Hread2.
  assert (Hwhole : slice (encode_zip64_eocd z) 0 56 = encode_zip64_eocd z)
    by (rewrite <- Hlenz; apply slice_all).
  unfold bind at 1. unfold lift at 1. rewrite Hwhole. unfold encode_zip64_eocd.
  rewrite struct_unpack_pack by exact Hz.
  unfold zip64_eocd_fields. cbn [field nth]. unfold ret.
  cbn [requests sleeps]. rewrite <- !app_assoc. cbn [app].
  rewrite Hloc, Heocd.
  replace (len before - 20 + 20 - 1) with (len before - 1) by lia.
  replace (len pre + 56 - 1) with (len pre + 55) by lia.
  reflexivity.
Qed.

Lemma zip64_records_ok :
  zip64_eocd_ok unsigned_zip64_eocd /\ zip64_locator_ok trailer_locator
  /\ eocd_ok sentinel_eocd.
Proof.
  split; [|split].
  - unfold zip64_eocd_ok, fits, zip64_eocd_widths, zip64_eocd_fields.
    repeat (constructor; [vm_compute; repeat split; discriminate|]). constructor.
  - unfold zip64_locator_ok, fits, zip64_locator_widths, zip64_locator_fields.
    repeat (constructor; [vm_compute; repeat split; discriminate|]). constructor.
  - unfold eocd_ok, fits, eocd_widths, eocd_fields.
    repeat (constructor; [vm_compute; repeat split; discriminate|]). constructor.
Qed.

Lemma zip64_eocd_promotion_witness :
  let archive := slice trailer_cd_size_sentinel 0 51
                 ++ encode_zip64_eocd unsigned_zip64_eocd ++ []
                 ++ encode_zip64_locator trailer_locator ++ encode_eocd sentinel_eocd in
  Peekxtract._find_end_of_central_directory (file_server archive) (len archive) world0
  = (Done (z64_cd_offset unsigned_zip64_eocd, z64_cd_size unsigned_zip64_eocd),
     World (requests world0
            ++ [Range (len archive - Z.min 4096 (len archive)) (len archive - 1);
                Range (len archive - len (encode_eocd sentinel_eocd) - 20)
                      (len archive - len (encode_eocd sentinel_eocd) - 1);
                Range (len (slice trailer_cd_size_sentinel 0 51))
                      (len (slice trailer_cd_size_sentinel 0 51) + 55)])
           (sleeps world0)).
Proof.
  apply (zip64_eocd_promotion (slice trailer_cd_size_sentinel 0 51)
           unsigned_zip64_eocd [] trailer_locator sentinel_eocd world0).
  - exact (proj1 zip64_records_ok).
  - exact (proj1 (proj2 zip64_records_ok)).
  - exact (proj2 (proj2 zip64_records_ok)).
  - vm_compute. discriminate.
  - apply no_comment_unambiguous. reflexivity.
  - left. reflexivity.
  - reflexivity.
Defined.

Example trailer_parts :
  slice trailer_cd_size_sentinel 0 51 ++ encode_zip64_eocd trailer_zip64_eocd
  ++ encode_zip64_locator trailer_locator = slice trailer_cd_size_sentinel 0 127.
Proof. vm_compute. reflexivity. Qed.

(** ** Filtered views ([list_files], [search_files]) *)

Lemma numbered_snoc {V} (l : list V) v :
  numbered (l ++ [v]) = numbered l ++ [(len l, v)].
Proof.
  unfold numbered. rewrite imap_app. cbn [imap]. rewrite Nat.add_0_r. reflexivity.
Qed.

Lemma len_numbered {V} (l : list V) : len (numbered l) = len l.
Proof. unfold len, numbered. now rewrite length_imap. Qed.

Lemma numbered_well_numbered {V} (l : list V) : well_numbered (numbered l).
Proof.
  induction l as [|v l IH] using rev_ind; [reflexivity|].
  unfold well_numbered, dict_keys in *.
  rewrite numbered_snoc, map_app, IH, len_app, len_numbered. cbn [map fst].
  change (len [(len l, v)]) with 1. symmetry. apply py_range_succ, len_nonneg.
Qed.

Lemma snd_numbered {V} (l : list V) : map snd (numbered l) = l.
Proof.
  induction l as [|v l IH] using rev_ind; [reflexivity|].
  rewrite numbered_snoc, map_app, IH. reflexivity.
Qed.

Lemma nonempty_match {X A} (l : list X) (a b : A) :
  l <> [] -> match l with [] => a | _ :: _ => b end = b.
Proof. destruct l; [contradiction|reflexivity]. Qed.

Section FilteredView.

Variable regex : Type.
Variable re_compile : str -> Peekxtract.compiled regex.
Variable re_search : regex -> str -> bool.
Variable lower : str -> str.

Lemma filter_entries_fold (keep : str -> bool) (later : list (Z * file_info)) :
  forall (kept : list (Z * file_info)) (mapping : gmap Z Z),
  (forall d, mapping !! d
             = if 0 <=? d then fst <$> kept !! Z.to_nat d else None) ->
  let kept' := kept ++ filter (fun entry => keep (filename (snd entry)) = true) later in
  exists mapping',
    fold_left
      (fun acc entry =>
         let '(files_to_display, current_display_mapping) := acc in
         let '(idx, info) := entry in
         if keep (filename info) then
           let display_idx := len files_to_display in
           (dict_set files_to_display display_idx info,
            <[display_idx := idx]> current_display_mapping)
         else acc)
      later (numbered (map snd kept), mapping)
    = (numbered (map snd kept'), mapping')
    /\ (forall d, mapping' !! d
                  = if 0 <=? d then fst <$> kept' !! Z.to_nat d else None).
Proof.
  induction later as [|[idx info] later IH]; intros kept mapping Hmap kept'.
  - exists mapping. unfold kept'. rewrite filter_nil, app_nil_r. split; [reflexivity|exact Hmap].
  - unfold kept'. rewrite filter_cons. cbn [fold_left snd].
    destruct (keep (filename info)) eqn:Ekeep.
    + rewrite decide_True by reflexivity.
      destruct (well_numbered_set (numbered (map snd kept)) info
                  (numbered_well_numbered _)) as [Hset _].
      rewrite Hset, len_numbered.
      assert (Hlen : len (map snd kept) = len kept) by (unfold len; now rewrite length_map).
      rewrite Hlen.
      replace (numbered (map snd kept) ++ [(len kept, info)])
        with (numbered (map snd (kept ++ [(idx, info)])))
        by (rewrite map_app; cbn [map snd]; rewrite numbered_snoc, Hlen; reflexivity).
      specialize (IH (kept ++ [(idx, info)]) (<[len kept := idx]> mapping)).
      rewrite <- app_assoc in IH. apply IH. clear IH.
      intros d. destruct (decide (d = len kept)) as [->|Hne].
      * rewrite lookup_insert_eq.
        assert ((0 <=? len kept) = true) as -> by (apply Z.leb_le, len_nonneg).
        unfold len. rewrite Nat2Z.id.
        rewrite lookup_app_r, Nat.sub_diag by lia. reflexivity.
      * rewrite lookup_insert_ne by congruence. rewrite Hmap.
        destruct (Z.leb_spec 0 d) as [Hd|]; [|reflexivity].
        destruct (Z.lt_ge_cases d (len kept)) as [Hlt|Hge].
        -- rewrite lookup_app_l by (unfold len in Hlt; lia). reflexivity.
        -- rewrite (lookup_ge_None_2 kept) by (unfold len in Hge; lia).
           rewrite lookup_ge_None_2; [reflexivity|].
           rewrite length_app. cbn [length]. unfold len in *. lia.
    + rewrite decide_False by discriminate.
      apply IH, Hmap.
Qed.

Lemma search_files_filter files_info pattern found :
  Peekxtract.search_files regex re_compile re_search lower files_info pattern
  = Done found ->
  (forall e, re_compile pattern <> Peekxtract.CompileRaised e)
  /\ found = map fst (filter (fun entry =>
                                name_matches re_compile re_search lower pattern
                                  (filename (snd entry)) = true) files_info).
Proof.
  unfold Peekxtract.search_files, name_matches.
  destruct (re_compile pattern); intros Hfound; [| |discriminate];
    injection Hfound as <-; (split; [discriminate|reflexivity]).
Qed.

Lemma filter_entries_view files_info pattern :
  (forall e, re_compile pattern <> Peekxtract.CompileRaised e) ->
  let kept := filter (fun entry =>
                        name_matches re_compile re_search lower pattern
                          (filename (snd entry)) = true) files_info in
  exists mapping,
    match re_compile pattern with
    | Peekxtract.Compiled r =>
        Peekxtract.shown_or_all files_info
          (Peekxtract.filter_entries (re_search r) files_info)
    | Peekxtract.ReError =>
        Peekxtract.shown_or_all files_info
          (Peekxtract.filter_entries
             (fun name => contains (lower pattern) (lower name)) files_info)
    | Peekxtract.CompileRaised e => (Raised e, ∅)
    end = Peekxtract.shown_or_all files_info (numbered (map snd kept), mapping)
    /\ (forall d, mapping !! d
                  = if 0 <=? d then fst <$> kept !! Z.to_nat d else None).
Proof.
  intros Hcompiles. unfold name_matches, Peekxtract.filter_entries.
  destruct (re_compile pattern) as [r| |e].
  - destruct (filter_entries_fold (re_search r) files_info [] ∅) as (mapping & Heq & Hmap).
    + intros d. rewrite lookup_empty. destruct (0 <=? d); reflexivity.
    + exists mapping. split; [|exact Hmap].
      change (numbered (map snd [])) with (@nil (Z * file_info)) in Heq.
      cbv zeta in Heq. cbn [app] in Heq.
      exact (f_equal (Peekxtract.shown_or_all files_info) Heq).
  - destruct (filter_entries_fold (fun name => contains (lower pattern) (lower name))
                files_info [] ∅) as (mapping & Heq & Hmap).
    + intros d. rewrite lookup_empty. destruct (0 <=? d); reflexivity.
    + exists mapping. split; [|exact Hmap].
      change (numbered (map snd [])) with (@nil (Z * file_info)) in Heq.
      cbv zeta in Heq. cbn [app] in Heq.
      exact (f_equal (Peekxtract.shown_or_all files_info) Heq).
  - exfalso. apply (Hcompiles e). reflexivity.
Qed.

(** A filter that keeps at least one member: [list_files] raises nothing
    and shows the kept members numbered from 0, in the order of the
    catalog, and display index [i] stands for the [i]-th key that
    [search_files] returns for the same pattern.  A display index
    outside the view is not refused: it stands for the catalog index of
    the same value. *)
Theorem filtered_view_numbers files_info pattern found :
  pattern <> [] ->
  Peekxtract.search_files regex re_compile re_search lower files_info pattern
  = Done found ->
  found <> [] ->
  exists files_to_display current_display_mapping,
    Peekxtract.list_files_view regex re_compile re_search lower
      files_info (Some pattern)
    = (Done files_to_display, current_display_mapping)
    /\ dict_keys files_to_display = py_range (len found)
    /\ map snd files_to_display
       = map snd (filter (fun entry =>
                            name_matches re_compile re_search lower pattern
                              (filename (snd entry)) = true) files_info)
    /\ (forall (i : nat) idx,
          found !! i = Some idx ->
          Peekxtract._get_actual_file_index current_display_mapping (Z.of_nat i) = idx)
    /\ (forall d, d < 0 \/ len found <= d ->
          Peekxtract._get_actual_file_index current_display_mapping d = d).
Proof.
  intros Hpattern Hsearch Hfound.
  apply search_files_filter in Hsearch as [Hcompiles ->].
  destruct (filter_entries_view files_info pattern Hcompiles) as (mapping & Hview & Hmap).
  cbv zeta in Hview, Hmap.
  set (kept := filter _ files_info) in *.
  unfold Peekxtract.list_files_view.
  destruct pattern as [|c p]; [contradiction|].
  rewrite Hview. unfold Peekxtract.shown_or_all.
  assert (Hshown : numbered (map snd kept) <> []).
  { intros Hnil. apply (f_equal len) in Hnil. rewrite len_numbered in Hnil.
    unfold len in Hnil. rewrite length_map in Hnil.
    destruct kept; [contradiction|cbn in Hnil; lia]. }
  rewrite nonempty_match by exact Hshown.
  assert (Hlen : len (map fst kept) = len (map snd kept))
    by (unfold len; now rewrite !length_map).
  exists (numbered (map snd kept)), mapping.
  split; [reflexivity|]. split; [|split; [|split]].
  - rewrite Hlen, <- (len_numbered (map snd kept)). apply numbered_well_numbered.
  - apply snd_numbered.
  - intros i idx Hi. unfold Peekxtract._get_actual_file_index.
    rewrite Hmap. assert ((0 <=? Z.of_nat i) = true) as -> by (apply Z.leb_le; lia).
    rewrite Nat2Z.id. rewrite list_lookup_fmap in Hi. rewrite Hi. reflexivity.
  - intros d Hd. unfold Peekxtract._get_actual_file_index. rewrite Hmap.
    destruct (Z.leb_spec 0 d) as [Hpos|]; [|reflexivity].
    rewrite lookup_ge_None_2; [reflexivity|].
    unfold len in Hd. rewrite length_map in Hd. lia.
Qed.

End FilteredView.

Lemma filtered_view_numbers_witness :
  exists files_to_display current_display_mapping,
    Peekxtract.list_files_view str literal_compile literal_search ascii_lower
      docs_catalog (Some (lit "img"))
    = (Done files_to_display, current_display_mapping)
    /\ dict_keys files_to_display = py_range (len [1; 2])
    /\ map snd files_to_display
       = map snd (filter (fun entry =>
                            name_matches literal_compile literal_search ascii_lower
                              (lit "img") (filename (snd entry)) = true) docs_catalog)
    /\ (forall (i : nat) idx,
          [1; 2] !! i = Some idx ->
          Peekxtract._get_actual_file_index current_display_mapping (Z.of_nat i) = idx)
    /\ (forall d, d < 0 \/ len [1; 2] <= d ->
          Peekxtract._get_actual_file_index current_display_mapping d = d).
Proof.
  apply (filtered_view_numbers str literal_compile literal_search ascii_lower
           docs_catalog (lit "img") [1; 2]).
  - discriminate.
  - vm_compute. reflexivity.
  - discriminate.
Defined.

Example docs_catalog_view :
  Peekxtract.search_files str literal_compile literal_search ascii_lower
    docs_catalog (lit "img") = Done [1; 2]
  /\ snd (Peekxtract.list_files_view str literal_compile literal_search ascii_lower
            docs_catalog (Some (lit "img"))) = img_view.
Proof. split; vm_compute; reflexivity. Qed.

(** ** The retry loop for any number of attempts ([_read_bytes]) *)

(** [_read_bytes] with [max_retries] attempts allowed.  With none
    allowed it asks nothing and returns [None].  Otherwise it repeats
    the same request until the server answers it with status 200 or
    206, at most [max_retries] times: [k] being the number of replies
    it turned down before it stopped, it has sent [k + 1] requests and
    slept 1, 2, 4, ... seconds after each of the [k]; it returns the body
    of reply [k] if that reply has status 200 or 206, and otherwise
    raises the read error for that reply, which happens only when reply
    [k] is the last one allowed, and without a sleep after it. *)
Theorem read_bytes_retry_schedule srv start length max_retries w :
  let rq := Range start (start + length - 1) in
  let reply (i : nat) := srv (requests w ++ repeat rq i) rq in
  (max_retries <= 0 ->
     Peekxtract._read_bytes_opt srv start length max_retries w = (Done None, w))
  /\ (0 < max_retries ->
      exists k : nat,
        Z.of_nat k < max_retries
        /\ (forall i, (i < k)%nat -> accepted (reply i) = None)
        /\ Peekxtract._read_bytes_opt srv start length max_retries w
           = (match accepted (reply k) with
              | Some body => Done (Some body)
              | None => Raised (ReadFailed start (start + length - 1)
                                  (cause_of (reply k)))
              end,
              World (requests w ++ repeat rq (S k))
                    (sleeps w ++ map (fun i => 2 ^ Z.of_nat i) (seq 0 k)))
        /\ (accepted (reply k) = None -> Z.of_nat (S k) = max_retries)).
Proof.
  intros rq reply. unfold Peekxtract._read_bytes_opt. cbv zeta. split.
  - intros Hnone. rewrite py_range_nonpos by exact Hnone. reflexivity.
  - intros Hsome.
    destruct (read_attempts_trace srv start (start + length - 1) max_retries
                (Z.to_nat (max_retries - 1)) 0 w ltac:(lia))
      as (k & Hk & Hrejected & Heq & Hlast).
    exists k. split; [lia|]. split; [exact Hrejected|]. split.
    + unfold py_range. replace (Z.to_nat max_retries) with (S (Z.to_nat (max_retries - 1)))
        by lia.
      exact Heq.
    + intros Hnone. rewrite (Hlast Hnone). lia.
Qed.

Lemma read_bytes_retry_schedule_witness :
  Peekxtract._read_bytes_opt (flaky_server 2 hello_zip) 0 4 5 world0
  = (Done (Some [x50; x4b; x03; x04]), World (repeat (Range 0 3) 3) [1; 2])
  /\ Peekxtract._read_bytes_opt dead_server 0 4 5 world0
     = (Raised (ReadFailed 0 3 RequestError),
        World (repeat (Range 0 3) 5) [1; 2; 4; 8]).
Proof.
  split.
  - destruct (proj2 (read_bytes_retry_schedule (flaky_server 2 hello_zip) 0 4 5 world0)
                ltac:(lia)) as (k & Hk & Hrejected & Heq & Hlast).
    cbv zeta in Hrejected, Heq, Hlast.
    assert (k = 2%nat) as ->.
    { destruct k as [|[|[|k]]].
      - specialize (Hlast eq_refl). lia.
      - specialize (Hlast eq_refl). lia.
      - reflexivity.
      - specialize (Hrejected 2%nat ltac:(lia)). vm_compute in Hrejected. discriminate. }
    rewrite Heq. vm_compute. reflexivity.
  - destruct (proj2 (read_bytes_retry_schedule dead_server 0 4 5 world0) ltac:(lia))
      as (k & Hk & Hrejected & Heq & Hlast).
    cbv zeta in Hrejected, Heq, Hlast.
    assert (k = 4%nat) as -> by (specialize (Hlast eq_refl); lia).
    rewrite Heq. vm_compute. reflexivity.
Defined.

(** ** Well-formed names are listed as they are *)

Ltac utf8_decide :=
  repeat match goal with
  | |- context [?a <? ?b] =>
      destruct (Z.ltb_spec a b); try (exfalso; Z.div_mod_to_equations; lia)
  | |- context [?a =? ?b] =>
      destruct (Z.eqb_spec a b); try (exfalso; Z.div_mod_to_equations; lia)
  | |- context [?a <=? ?b] =>
      destruct (Z.leb_spec a b); try (exfalso; Z.div_mod_to_equations; lia)
  end.

Lemma utf8_run_encoded c rest :
  unicode_scalar c ->
  utf8_run Start (utf8_encode c ++ rest) = c :: utf8_run Start rest.
Proof.
  intros Hc. unfold unicode_scalar in Hc. unfold utf8_encode.
  destruct (Z.ltb_spec c 0x80); [|destruct (Z.ltb_spec c 0x800);
                                   [|destruct (Z.ltb_spec c 0x10000)]];
    cbn [app utf8_run]; rewrite !byte_val_of_Z;
    rewrite !(Z.mod_small _ 256) by (Z.div_mod_to_equations; lia).
  - cbn [utf8_step]. unfold utf8_start. utf8_decide. reflexivity.
  - cbn [utf8_step]. unfold utf8_start. utf8_decide; cbn [utf8_step andb]; utf8_decide;
      cbn [andb]; f_equal; Z.div_mod_to_equations; lia.
  - cbn [utf8_step]. unfold utf8_start.
    utf8_decide; cbn [utf8_step andb]; utf8_decide; cbn [utf8_step andb];
      utf8_decide; cbn [andb]; f_equal; Z.div_mod_to_equations; lia.
  - cbn [utf8_step]. unfold utf8_start.
    utf8_decide; cbn [utf8_step andb]; utf8_decide; cbn [utf8_step andb];
      utf8_decide; cbn [utf8_step andb]; utf8_decide; cbn [andb]; f_equal;
      Z.div_mod_to_equations; lia.
Qed.

(** A file name that is the UTF-8 encoding of a string of Unicode scalar
    values is decoded to that string: nothing of a well-formed name is
    dropped or changed by [errors='ignore']. *)
Theorem decode_encoded_name s :
  Forall unicode_scalar s -> decode_utf8_ignore (encode_utf8 s) = s.
Proof.
  unfold decode_utf8_ignore, encode_utf8.
  induction 1 as [|c s Hc Hs IH]; [reflexivity|].
  cbn [flat_map]. rewrite utf8_run_encoded by exact Hc. now rewrite IH.
Qed.

Lemma decode_encoded_name_witness :
  decode_utf8_ignore (encode_utf8 [104; 233; 8364; 128512; 46; 116; 120; 116])
  = [104; 233; 8364; 128512; 46; 116; 120; 116].
Proof.
  apply (decode_encoded_name [104; 233; 8364; 128512; 46; 116; 120; 116]).
  repeat (constructor; [unfold unicode_scalar; lia|]). constructor.
Defined.

Example encode_utf8_sample :
  encode_utf8 [104; 233; 8364; 128512]
  = [x68; xc3; xa9; xe2; x82; xac; xf0; x9f; x98; x80].
Proof. vm_compute. reflexivity. Qed.

(** ** Ill-formed bytes are dropped where they stand *)

Lemma byte_of_val b v : byte_val b = v -> b = byte_of_Z v.
Proof.
  intros <-. apply byte_val_inj. rewrite byte_val_of_Z.
  pose proof (byte_val_range b). rewrite Z.mod_small; lia.
Qed.

(** A sequence that is not completed leaves nothing: the decoder goes on
    as if it had started at the byte after the lead byte. *)
Lemma cont_fails need : forall acc lo hi bs,
  0x80 <= lo -> hi <= 0xBF ->
  completes (S need) lo hi bs = false ->
  utf8_run (Cont (S need) acc lo hi) bs = utf8_run Start bs.
Proof.
  induction need as [|need IH]; intros acc lo hi [|b rest] Hlo Hhi Hfails;
    try reflexivity; cbn [completes] in Hfails; cbn [utf8_run utf8_step];
    destruct ((lo <=? byte_val b) && (byte_val b <=? hi)) eqn:Erange;
    try reflexivity; cbn [andb] in Hfails.
  - discriminate.
  - rewrite (IH _ 0x80 0xBF _ ltac:(lia) ltac:(lia) Hfails).
    apply andb_true_iff in Erange as [H1 H2].
    apply Z.leb_le in H1, H2. unfold utf8_start.
    destruct (Z.ltb_spec (byte_val b) 0x80); [lia|].
    destruct (Z.ltb_spec (byte_val b) 0xC2); [reflexivity|lia].
Qed.

Ltac encoded_bytes :=
  unfold utf8_encode;
  repeat match goal with
  | |- context [?a <? ?b] => destruct (Z.ltb_spec a b); try lia
  end;
  cbn [app]; repeat f_equal; apply byte_of_val; Z.div_mod_to_equations; lia.

Lemma encoded1 b r :
  byte_val b < 0x80 ->
  exists c, unicode_scalar c /\ b :: r = utf8_encode c ++ r.
Proof.
  intros Hb. pose proof (byte_val_range b). exists (byte_val b).
  split; [unfold unicode_scalar; lia|]. encoded_bytes.
Qed.

Lemma encoded2 b b1 r :
  0xC2 <= byte_val b <= 0xDF ->
  0x80 <= byte_val b1 <= 0xBF ->
  exists c, unicode_scalar c /\ b :: b1 :: r = utf8_encode c ++ r.
Proof.
  intros Hb Hb1.
  exists ((byte_val b - 0xC0) * 64 + (byte_val b1 - 0x80)).
  split; [unfold unicode_scalar; lia|]. encoded_bytes.
Qed.

Lemma encoded3 b b1 b2 r :
  0xE0 <= byte_val b <= 0xEF ->
  0x80 <= byte_val b1 <= 0xBF ->
  (byte_val b = 0xE0 -> 0xA0 <= byte_val b1) ->
  (byte_val b = 0xED -> byte_val b1 <= 0x9F) ->
  0x80 <= byte_val b2 <= 0xBF ->
  exists c, unicode_scalar c /\ b :: b1 :: b2 :: r = utf8_encode c ++ r.
Proof.
  intros Hb Hb1 Hlow Hhigh Hb2.
  exists ((byte_val b - 0xE0) * 4096 + (byte_val b1 - 0x80) * 64 + (byte_val b2 - 0x80)).
  split; [unfold unicode_scalar; lia|]. encoded_bytes.
Qed.

Lemma encoded4 b b1 b2 b3 r :
  0xF0 <= byte_val b <= 0xF4 ->
  0x80 <= byte_val b1 <= 0xBF ->
  (byte_val b = 0xF0 -> 0x90 <= byte_val b1) ->
  (byte_val b = 0xF4 -> byte_val b1 <= 0x8F) ->
  0x80 <= byte_val b2 <= 0xBF ->
  0x80 <= byte_val b3 <= 0xBF ->
  exists c, unicode_scalar c /\ b :: b1 :: b2 :: b3 :: r = utf8_encode c ++ r.
Proof.
  intros Hb Hb1 Hlow Hhigh Hb2 Hb3.
  exists ((byte_val b - 0xF0) * 262144 + (byte_val b1 - 0x80) * 4096
          + (byte_val b2 - 0x80) * 64 + (byte_val b3 - 0x80)).
  split; [unfold unicode_scalar; lia|]. encoded_bytes.
Qed.

Ltac leb_bounds :=
  repeat match goal with
  | H : _ && _ = true |- _ => apply andb_true_iff in H as [? ?]
  | H : (_ <=? _) = true |- _ => apply Z.leb_le in H
  end.

Ltac too_short E :=
  cbn [completes] in E; rewrite ?andb_false_r in E; try discriminate E.

(** A byte at which no well-formed sequence begins leaves nothing in the
    decoded string. *)
Lemma utf8_run_ill_formed b rest :
  (forall c rest', unicode_scalar c -> b :: rest <> utf8_encode c ++ rest') ->
  utf8_run Start (b :: rest) = utf8_run Start rest.
Proof.
  intros Hill. pose proof (byte_val_range b) as Hb.
  cbn [utf8_run utf8_step]. unfold utf8_start.
  destruct (Z.ltb_spec (byte_val b) 0x80) as [H1|H1].
  { exfalso. destruct (encoded1 b rest H1) as (c & Hc & Heq).
    exact (Hill c rest Hc Heq). }
  destruct (Z.ltb_spec (byte_val b) 0xC2); [reflexivity|].
  destruct (Z.ltb_spec (byte_val b) 0xE0).
  { destruct (completes 1 0x80 0xBF rest) eqn:E;
      [|apply cont_fails; [lia|lia|exact E]].
    exfalso. destruct rest as [|b1 r1]; too_short E. leb_bounds.
    destruct (encoded2 b b1 r1) as (c & Hc & Heq); [lia|lia|].
    exact (Hill c r1 Hc Heq). }
  destruct (Z.eqb_spec (byte_val b) 0xE0).
  { destruct (completes 2 0xA0 0xBF rest) eqn:E;
      [|apply cont_fails; [lia|lia|exact E]].
    exfalso. destruct rest as [|b1 [|b2 r2]]; too_short E. leb_bounds.
    destruct (encoded3 b b1 b2 r2) as (c & Hc & Heq); try lia.
    exact (Hill c r2 Hc Heq). }
  destruct (Z.eqb_spec (byte_val b) 0xED).
  { destruct (completes 2 0x80 0x9F rest) eqn:E;
      [|apply cont_fails; [lia|lia|exact E]].
    exfalso. destruct rest as [|b1 [|b2 r2]]; too_short E. leb_bounds.
    destruct (encoded3 b b1 b2 r2) as (c & Hc & Heq); try lia.
    exact (Hill c r2 Hc Heq). }
  destruct (Z.ltb_spec (byte_val b) 0xF0).
  { destruct (completes 2 0x80 0xBF rest) eqn:E;
      [|apply cont_fails; [lia|lia|exact E]].
    exfalso. destruct rest as [|b1 [|b2 r2]]; too_short E. leb_bounds.
    destruct (encoded3 b b1 b2 r2) as (c & Hc & Heq); try lia.
    exact (Hill c r2 Hc Heq). }
  destruct (Z.eqb_spec (byte_val b) 0xF0).
  { destruct (completes 3 0x90 0xBF rest) eqn:E;
      [|apply cont_fails; [lia|lia|exact E]].
    exfalso. destruct rest as [|b1 [|b2 [|b3 r3]]]; too_short E. leb_bounds.
    destruct (encoded4 b b1 b2 b3 r3) as (c & Hc & Heq); try lia.
    exact (Hill c r3 Hc Heq). }
  destruct (Z.ltb_spec (byte_val b) 0xF4).
  { destruct (completes 3 0x80 0xBF rest) eqn:E;
      [|apply cont_fails; [lia|lia|exact E]].
    exfalso. destruct rest as [|b1 [|b2 [|b3 r3]]]; too_short E. leb_bounds.
    destruct (encoded4 b b1 b2 b3 r3) as (c & Hc & Heq); try lia.
    exact (Hill c r3 Hc Heq). }
  destruct (Z.eqb_spec (byte_val b) 0xF4); [|reflexivity].
  destruct (completes 3 0x80 0x8F rest) eqn:E;
    [|apply cont_fails; [lia|lia|exact E]].
  exfalso. destruct rest as [|b1 [|b2 [|b3 r3]]]; too_short E. leb_bounds.
  destruct (encoded4 b b1 b2 b3 r3) as (c & Hc & Heq); try lia.
  exact (Hill c r3 Hc Heq).
Qed.

(** The first byte of a well-formed sequence is no continuation byte and
    none of [C0], [C1], [F5] ... [FF]. *)
Lemma utf8_encode_lead c :
  unicode_scalar c ->
  exists b later,
    utf8_encode c = b :: later
    /\ (byte_val b < 0x80 \/ 0xC2 <= byte_val b <= 0xF4).
Proof.
  intros Hc. unfold unicode_scalar in Hc. unfold utf8_encode.
  destruct (Z.ltb_spec c 0x80); [|destruct (Z.ltb_spec c 0x800);
                                   [|destruct (Z.ltb_spec c 0x10000)]];
    eexists; eexists; (split; [reflexivity|]); rewrite byte_val_of_Z;
    rewrite (Z.mod_small _ 256) by (Z.div_mod_to_equations; lia);
    Z.div_mod_to_equations; lia.
Qed.

(** So a continuation byte where a sequence should begin, and a byte
    that is in no sequence at all, begin no well-formed sequence. *)
Lemma stray_byte_ill_formed b rest :
  0x80 <= byte_val b < 0xC2 \/ 0xF4 < byte_val b ->
  forall c rest', unicode_scalar c -> b :: rest <> utf8_encode c ++ rest'.
Proof.
  intros Hb c rest' Hc Heq.
  destruct (utf8_encode_lead c Hc) as (b' & later & Hencode & Hlead).
  rewrite Hencode in Heq. injection Heq as -> _. lia.
Qed.

Ltac ranges_decide :=
  repeat match goal with
  | |- context [?a <? ?b] =>
      destruct (Z.ltb_spec a b); try (exfalso; Z.div_mod_to_equations; lia)
  | |- context [?a =? ?b] =>
      destruct (Z.eqb_spec a b); try (exfalso; Z.div_mod_to_equations; lia)
  | |- context [?a <=? ?b] =>
      destruct (Z.leb_spec a b); try (exfalso; Z.div_mod_to_equations; lia)
  end.

(** The encoding of a scalar value is well formed. *)
Lemma well_formed_encoded c rest :
  unicode_scalar c -> well_formed_at (utf8_encode c ++ rest) = true.
Proof.
  intros Hc. unfold unicode_scalar in Hc. unfold utf8_encode.
  destruct (Z.ltb_spec c 0x80); [|destruct (Z.ltb_spec c 0x800);
                                   [|destruct (Z.ltb_spec c 0x10000)]];
    cbn [app well_formed_at completes]; rewrite !byte_val_of_Z;
    rewrite !(Z.mod_small _ 256) by (Z.div_mod_to_equations; lia);
    cbv zeta; ranges_decide; reflexivity.
Qed.

(** A byte string that fails the test begins with no well-formed
    sequence. *)
Lemma ill_formed_at bs :
  well_formed_at bs = false ->
  forall c rest', unicode_scalar c -> bs <> utf8_encode c ++ rest'.
Proof.
  intros Hill c rest' Hc ->. rewrite well_formed_encoded in Hill by exact Hc.
  discriminate.
Qed.

(** Behind a well-formed stretch, a byte at which no well-formed
    sequence begins is dropped where it stands. *)
Lemma decode_drops_in_place s b rest :
  Forall unicode_scalar s ->
  (forall c rest', unicode_scalar c -> b :: rest <> utf8_encode c ++ rest') ->
  decode_utf8_ignore (encode_utf8 s ++ b :: rest) = s ++ decode_utf8_ignore rest.
Proof.
  intros Hs Hill. unfold decode_utf8_ignore, encode_utf8.
  induction Hs as [|c s Hc Hs IH]; cbn [flat_map app].
  - apply utf8_run_ill_formed, Hill.
  - rewrite <- app_assoc, utf8_run_encoded by exact Hc. now rewrite IH.
Qed.

(** C7 (as amended).  A file name of the central directory is handed,
    as it is, to the decoder with [errors='ignore'], and the decoded
    string is the name in the catalog.  That decoder drops every invalid
    byte where it stands and puts nothing in its place: a well-formed
    sequence is decoded to its code point, and a byte at which no
    well-formed sequence begins (a continuation byte on its own, the
    first byte of a truncated, overlong or surrogate sequence, a byte
    that no sequence can hold) leaves nothing, so that decoding goes on
    with the byte after it; a byte that no UTF-8 sequence can hold
    leaves nothing wherever it stands.  The replacement character
    U+FFFD is in the decoded name only where the bytes [EF BF BD], its
    own encoding, are in the file name; and so the walk of any central
    directory returns a catalog in which a name has U+FFFD only if the
    directory holds those three bytes. *)
Theorem decode_ignore_drops_invalid_bytes :
  (forall r real,
     well_formed_record (r, real) ->
     cd_record_listed r real 1 = true ->
     0 < len (cd_name r) ->
     let cd_data := encode_central_directory [r] in
     exists info,
       Peekxtract.cd_walk (S (length cd_data)) cd_data 0 0 0 [] = Done [(0, info)]
       /\ filename info = decode_utf8_ignore (cd_name r))
  /\ (forall c rest,
        unicode_scalar c ->
        decode_utf8_ignore (utf8_encode c ++ rest) = c :: decode_utf8_ignore rest)
  /\ (forall s b rest,
        Forall unicode_scalar s ->
        (forall c rest', unicode_scalar c -> b :: rest <> utf8_encode c ++ rest') ->
        decode_utf8_ignore (encode_utf8 s ++ b :: rest) = s ++ decode_utf8_ignore rest)
  /\ (forall pre x post,
        never_utf8 x = true ->
        decode_utf8_ignore (pre ++ x :: post)
        = decode_utf8_ignore pre ++ decode_utf8_ignore post)
  /\ (forall filename_bytes,
        In REPLACEMENT_CHARACTER (decode_utf8_ignore filename_bytes) ->
        occurs_in [xef; xbf; xbd] filename_bytes)
  /\ (forall cd_data,
        exists catalog,
          Peekxtract.cd_walk (S (length cd_data)) cd_data 0 0 0 [] = Done catalog
          /\ forall entry,
               entry ∈ catalog ->
               In REPLACEMENT_CHARACTER (filename (snd entry)) ->
               occurs_in [xef; xbf; xbd] cd_data).
Proof.
  split; [|split; [|split; [|split; [|split]]]].
  - intros r real Hok Hlisted Hname cd_data.
    pose proof (cd_walk_records [(r, real)] (S (length cd_data)) [] 0 []
                  ltac:(constructor; [exact Hok|constructor]) eq_refl
                  ltac:(unfold cd_data, len; cbn [map fst]; lia)) as Hwalk.
    cbn [map fst app len length] in Hwalk.
    change (Z.of_nat 0) with 0 in Hwalk. fold cd_data in Hwalk.
    cbn [catalog_from] in Hwalk. change (0 + 1) with 1 in Hwalk.
    rewrite Hlisted in Hwalk. cbn [app] in Hwalk.
    exists (cd_record_info r real 1). split; [exact Hwalk|].
    unfold cd_record_info. cbn [filename].
    assert ((len (cd_name r) >? 0) = true) as ->
      by (rewrite Z.gtb_ltb; apply Z.ltb_lt; exact Hname).
    reflexivity.
  - intros c rest Hc. apply utf8_run_encoded, Hc.
  - intros s b rest Hs Hill. apply decode_drops_in_place; assumption.
  - intros pre x post Hx. unfold decode_utf8_ignore.
    apply (utf8_run_never Start pre x post []); [reflexivity|exact Hx].
  - intros bs Hin.
    apply (utf8_run_replacement bs Start []); [reflexivity|exact Hin].
  - intros cd_data. destruct (cd_walk_total cd_data) as (catalog & Hwalk).
    exists catalog. split; [exact Hwalk|].
    intros entry Hin.
    exact (proj1 (Forall_forall _ _)
             (cd_walk_faithful cd_data _ _ _ _ _ _ Hwalk (List.Forall_nil _))
             entry Hin).
Qed.

(** A continuation byte on its own, the first byte of an overlong form,
    of a surrogate and of a truncated sequence, and a byte that is in no
    sequence: each is dropped where it stands. *)
Lemma decode_ignore_drops_invalid_bytes_witness :
  decode_utf8_ignore (encode_utf8 [97] ++ x80 :: [x62]) = [97] ++ decode_utf8_ignore [x62]
  /\ decode_utf8_ignore (encode_utf8 [97] ++ xe0 :: [x80; x80; x62])
     = [97] ++ decode_utf8_ignore [x80; x80; x62]
  /\ decode_utf8_ignore (encode_utf8 [97] ++ xed :: [xa0; x80; x62])
     = [97] ++ decode_utf8_ignore [xa0; x80; x62]
  /\ decode_utf8_ignore (encode_utf8 [97; 233] ++ xe2 :: [x82; x62])
     = [97; 233] ++ decode_utf8_ignore [x82; x62]
  /\ decode_utf8_ignore ([x61] ++ xff :: [x62])
     = decode_utf8_ignore [x61] ++ decode_utf8_ignore [x62].
Proof.
  destruct decode_ignore_drops_invalid_bytes
    as (_ & _ & Hdrop & Hnever & _).
  split; [|split; [|split; [|split]]].
  - apply Hdrop; [repeat (constructor; [left; lia|]); constructor|].
    apply ill_formed_at. reflexivity.
  - apply Hdrop; [repeat (constructor; [left; lia|]); constructor|].
    apply ill_formed_at. reflexivity.
  - apply Hdrop; [repeat (constructor; [left; lia|]); constructor|].
    apply ill_formed_at. reflexivity.
  - apply Hdrop; [repeat (constructor; [left; lia|]); constructor|].
    apply ill_formed_at. reflexivity.
  - apply Hnever. reflexivity.
Defined.

Example decode_ignore_samples :
  decode_utf8_ignore [x61; x80; x62] = lit "ab"
  /\ decode_utf8_ignore [x61; xe0; x80; x80; x62] = lit "ab"
  /\ decode_utf8_ignore [x61; xed; xa0; x80; x62] = lit "ab"
  /\ decode_utf8_ignore [x61; xc3; xa9; xe2; x82; x62] = [97; 233; 98]
  /\ decode_utf8_ignore [x61; xef; xbf; xbd; x62] = [97; REPLACEMENT_CHARACTER; 98].
Proof. repeat split. Qed.

(** C7, the claim as stated fails: the member whose file name is
    [61 ff 62] is listed as [ab]; the invalid byte is dropped and no
    U+FFFD stands in the name. *)
Lemma filename_invalid_byte_dropped :
  exists info,
    fst (Peekxtract._parse_central_directory (file_server bad_name_zip)
           (len bad_name_zip) world0) = Done [(0, info)]
    /\ filename info = lit "ab"
    /\ filename info <> [97; REPLACEMENT_CHARACTER; 98]
    /\ ~ In REPLACEMENT_CHARACTER (filename info).
Proof.
  eexists. split; [vm_compute; reflexivity|]. cbn [filename].
  split; [reflexivity|]. split; [discriminate|].
  intros [H|[H|[]]]; discriminate H.
Qed.

(** ** Selections as they are typed ([parse_range]) *)

(** *** [int(str(n))] *)

Lemma lit_String a s :
  lit (String a s) = Z.of_N (N_of_ascii a) :: lit s.
Proof. reflexivity. Qed.

Lemma int_digits_acc d : forall acc,
  int_digits (Z.pos acc) false (lit (DecimalString.NilEmpty.string_of_uint d))
  = Some (Z.pos (Pos.of_uint_acc d acc)).
Proof.
  induction d; intros acc; cbn [DecimalString.NilEmpty.string_of_uint Pos.of_uint_acc];
    [reflexivity|..];
    rewrite lit_String; cbn [int_digits];
    match goal with
    | |- context [is_digit ?c] => change (is_digit c) with true
    end; cbv iota; rewrite <- IHd; f_equal; vm_compute Z.of_N; lia.
Qed.

Lemma int_digits_uint d :
  int_digits 0 false (lit (DecimalString.NilEmpty.string_of_uint d))
  = Some (Z.of_N (Pos.of_uint d)).
Proof.
  induction d; cbn [DecimalString.NilEmpty.string_of_uint Pos.of_uint];
    [reflexivity|..];
    rewrite lit_String; cbn [int_digits];
    match goal with
    | |- context [is_digit ?c] => change (is_digit c) with true
    end; cbv iota;
    [exact IHd|cbn [Z.of_N]; rewrite <- int_digits_acc; reflexivity..].
Qed.

Lemma digits_uint d :
  Forall (fun c => is_digit c = true) (lit (DecimalString.NilEmpty.string_of_uint d)).
Proof.
  induction d; cbn [DecimalString.NilEmpty.string_of_uint];
    [constructor|..]; rewrite lit_String; constructor; (reflexivity || exact IHd).
Qed.

(** [str(n)] for a natural number: a non-empty string of digits that
    [int_digits] reads back as [n]. *)
Lemma str_of_int_digits n :
  0 <= n ->
  exists c s,
    str_of_int n = c :: s
    /\ Forall (fun c => is_digit c = true) (c :: s)
    /\ int_digits 0 false (c :: s) = Some n.
Proof.
  intros Hn. destruct n as [|p|p]; [| |lia].
  - exists 48, []. split; [reflexivity|]. split; [|reflexivity].
    constructor; [reflexivity|constructor].
  - unfold str_of_int. cbn [Z.to_int DecimalString.NilZero.string_of_int].
    pose proof (DecimalPos.Unsigned.to_uint_nonnil p) as Hnil.
    pose proof (DecimalPos.Unsigned.of_to p) as Hof.
    pose proof (int_digits_uint (Pos.to_uint p)) as Hval.
    pose proof (digits_uint (Pos.to_uint p)) as Hdig.
    rewrite Hof in Hval. cbn [Z.of_N] in Hval.
    assert (Hsame : DecimalString.NilZero.string_of_uint (Pos.to_uint p)
                    = DecimalString.NilEmpty.string_of_uint (Pos.to_uint p))
      by (destruct (Pos.to_uint p); [contradiction|reflexivity..]).
    rewrite Hsame.
    destruct (lit (DecimalString.NilEmpty.string_of_uint (Pos.to_uint p)))
      as [|c s] eqn:E.
    + exfalso. destruct (Pos.to_uint p); [contradiction|discriminate..].
    + exists c, s. split; [reflexivity|]. split; assumption.
Qed.

Lemma digit_cases c :
  is_digit c = true ->
  c = 48 \/ c = 49 \/ c = 50 \/ c = 51 \/ c = 52 \/ c = 53 \/ c = 54 \/ c = 55
  \/ c = 56 \/ c = 57.
Proof. unfold is_digit. intros H. apply andb_true_iff in H as [H1 H2]. lia. Qed.

Lemma digit_plain c :
  is_digit c = true -> is_space c = false /\ is_int_space c = false /\ c <> 45 /\ c <> 44.
Proof.
  intros H. destruct (digit_cases c H) as [->|[->|[->|[->|[->|[->|[->|[->|[->| ->]]]]]]]]];
    (split; [reflexivity|split; [reflexivity|split; discriminate]]).
Qed.

Lemma py_int_digits c s n :
  Forall (fun c => is_digit c = true) (c :: s) ->
  int_digits 0 false (c :: s) = Some n ->
  py_int (c :: s) = Done n.
Proof.
  intros Hdig Hval. apply Forall_cons in Hdig as [Hc _].
  unfold py_int. cbn [int_lstrip].
  destruct (digit_plain c Hc) as (_ & -> & _ & _).
  destruct (digit_cases c Hc) as [->|[->|[->|[->|[->|[->|[->|[->|[->| ->]]]]]]]]];
    cbv iota beta; change (is_digit _) with true; cbv iota; rewrite Hval; reflexivity.
Qed.

Lemma py_int_str n : 0 <= n -> py_int (str_of_int n) = Done n.
Proof.
  intros Hn. destruct (str_of_int_digits n Hn) as (c & s & -> & Hdig & Hval).
  exact (py_int_digits c s n Hdig Hval).
Qed.

(** *** [strip], [split] and [join] *)

Lemma lstrip_plain c s : is_space c = false -> lstrip (c :: s) = c :: s.
Proof. intros H. cbn [lstrip]. now rewrite H. Qed.

Lemma strip_plain s :
  Forall (fun c => is_space c = false) s -> strip s = s.
Proof.
  intros Hs. unfold strip.
  assert (Hl : forall l, Forall (fun c => is_space c = false) l -> lstrip l = l).
  { intros [|c l] Hl; [reflexivity|]. apply lstrip_plain.
    now apply Forall_cons in Hl as [Hc _]. }
  rewrite (Hl s Hs). rewrite Hl by (apply Forall_rev, Hs). apply rev_involutive.
Qed.

Lemma split_once_found sep before after :
  Forall (fun c => c <> sep) before ->
  split_once sep (before ++ sep :: after) = Some (before, after).
Proof.
  induction 1 as [|c before Hc _ IH]; cbn [app split_once].
  - now rewrite Z.eqb_refl.
  - apply Z.eqb_neq in Hc. now rewrite Hc, IH.
Qed.

Lemma split_once_missing sep s :
  Forall (fun c => c <> sep) s -> split_once sep s = None.
Proof.
  induction 1 as [|c s Hc _ IH]; cbn [split_once]; [reflexivity|].
  apply Z.eqb_neq in Hc. now rewrite Hc, IH.
Qed.

Lemma split_char_plain sep s :
  Forall (fun c => c <> sep) s -> split_char sep s = [s].
Proof.
  induction 1 as [|c s Hc _ IH]; cbn [split_char]; [reflexivity|].
  apply Z.eqb_neq in Hc. now rewrite Hc, IH.
Qed.

Lemma split_char_app sep part rest :
  Forall (fun c => c <> sep) part ->
  split_char sep (part ++ sep :: rest) = part :: split_char sep rest.
Proof.
  induction 1 as [|c part Hc _ IH]; cbn [app split_char].
  - now rewrite Z.eqb_refl.
  - apply Z.eqb_neq in Hc. now rewrite Hc, IH.
Qed.

(** Splitting undoes joining, for parts that do not hold the separator. *)
Lemma split_char_join sep parts :
  parts <> [] ->
  Forall (Forall (fun c => c <> sep)) parts ->
  split_char sep (join sep parts) = parts.
Proof.
  intros Hne Hparts. induction Hparts as [|part later Hpart Hlater IH]; [contradiction|].
  destruct later as [|next later].
  - cbn [join]. apply split_char_plain, Hpart.
  - change (join sep (part :: next :: later))
      with (part ++ sep :: join sep (next :: later)).
    rewrite split_char_app by exact Hpart. f_equal. apply IH. discriminate.
Qed.

(** *** What an item adds *)

Lemma str_of_int_plain n :
  0 <= n ->
  Forall (fun c => is_space c = false) (str_of_int n)
  /\ Forall (fun c => c <> 45) (str_of_int n)
  /\ Forall (fun c => c <> 44) (str_of_int n).
Proof.
  intros Hn. destruct (str_of_int_digits n Hn) as (c & s & -> & Hdig & _).
  repeat split; eapply Forall_impl; try exact Hdig;
    intros x Hx; destruct (digit_plain x Hx) as (? & ? & ? & ?); assumption.
Qed.

Lemma render_plain sel :
  natural sel ->
  Forall (fun c => is_space c = false) (render sel)
  /\ Forall (fun c => c <> 44) (render sel).
Proof.
  destruct sel as [n|a b]; cbn [natural render].
  - intros Hn. destruct (str_of_int_plain n Hn) as (? & _ & ?). split; assumption.
  - intros [Ha Hb].
    destruct (str_of_int_plain a Ha) as (? & _ & ?).
    destruct (str_of_int_plain b Hb) as (? & _ & ?).
    split; apply Forall_app; (split; [assumption|]); constructor;
      (reflexivity || discriminate || assumption).
Qed.

Lemma parse_range_part_render max_val result sel :
  natural sel ->
  Peekxtract.parse_range_part max_val result (render sel)
  = Done (result ++ selected max_val sel).
Proof.
  intros Hnat. unfold Peekxtract.parse_range_part.
  rewrite (strip_plain (render sel)) by (apply render_plain, Hnat).
  destruct sel as [n|a b]; cbn [natural render selected] in *.
  - destruct (str_of_int_plain n Hnat) as (_ & Hdash & _).
    rewrite split_once_missing by exact Hdash.
    rewrite py_int_str by exact Hnat. cbn [obind except_ValueError].
    destruct ((1 <=? n) && (n <=? max_val)); [reflexivity|now rewrite app_nil_r].
  - destruct Hnat as [Ha Hb].
    destruct (str_of_int_plain a Ha) as (Hsa & Hdash & _).
    destruct (str_of_int_plain b Hb) as (Hsb & _ & _).
    rewrite split_once_found by exact Hdash.
    rewrite !strip_plain by assumption.
    rewrite !py_int_str by assumption. cbn [obind except_ValueError].
    destruct ((a <=? b) && (a >=? 1) && (b <=? max_val));
      [reflexivity|now rewrite app_nil_r].
Qed.

Lemma parse_range_loop_render max_val sels : forall result,
  Forall natural sels ->
  Peekxtract.parse_range_loop max_val result (map render sels)
  = Done (result ++ flat_map (selected max_val) sels).
Proof.
  induction sels as [|sel sels IH]; intros result Hnat; cbn [map flat_map].
  - cbn [Peekxtract.parse_range_loop]. now rewrite app_nil_r.
  - apply Forall_cons in Hnat as [Hsel Hnat].
    cbn [Peekxtract.parse_range_loop]. rewrite parse_range_part_render by exact Hsel.
    cbn [obind]. rewrite IH by exact Hnat. now rewrite <- app_assoc.
Qed.

Lemma elem_of_selected max_val sel x :
  x ∈ selected max_val sel <-> selects max_val sel x.
Proof.
  destruct sel as [n|a b]; cbn [selected selects].
  - destruct (Z.leb_spec 1 n); destruct (Z.leb_spec n max_val); cbn [andb];
      rewrite ?list_elem_of_singleton, ?elem_of_nil; lia.
  - rewrite Z.geb_leb.
    destruct (Z.leb_spec a b); destruct (Z.leb_spec 1 a); destruct (Z.leb_spec b max_val);
      cbn [andb]; rewrite ?elem_of_py_range2, ?elem_of_nil; lia.
Qed.

(** A selection typed as numbers and spans with commas between them, as
    [str] writes the numbers, is read as it is meant: [parse_range]
    returns, in increasing order and once each, the display numbers that
    one of the items chooses; an item that reaches outside
    [1 .. max_val] chooses nothing, also not the part of it that lies
    inside. *)
Theorem parse_range_selection sels max_val :
  sels <> [] ->
  Forall natural sels ->
  exists l,
    Peekxtract.parse_range (join 44 (map render sels)) max_val = Done l
    /\ StronglySorted Z.lt l
    /\ (forall x, x ∈ l <-> exists sel, sel ∈ sels /\ selects max_val sel x).
Proof.
  intros Hne Hnat. unfold Peekxtract.parse_range.
  rewrite split_char_join.
  - rewrite parse_range_loop_render by exact Hnat. cbn [obind app].
    eexists. split; [reflexivity|].
    destruct (sorted_set_spec (flat_map (selected max_val) sels)) as [Hsorted Helem].
    split; [exact Hsorted|]. intros x. rewrite Helem.
    rewrite list_elem_of_In, in_flat_map. split.
    + intros (sel & Hin & Hx). exists sel. split; [now apply list_elem_of_In|].
      apply elem_of_selected. now apply list_elem_of_In.
    + intros (sel & Hin & Hx). exists sel. split; [now apply list_elem_of_In|].
      apply list_elem_of_In. now apply elem_of_selected.
  - destruct sels; [contradiction|discriminate].
  - apply Forall_fmap. eapply Forall_impl; [exact Hnat|].
    intros sel Hsel. apply render_plain, Hsel.
Qed.

Lemma parse_range_selection_witness :
  exists l,
    Peekxtract.parse_range (join 44 (map render [Span 1 3; Single 7; Span 9 20])) 12
    = Done l
    /\ StronglySorted Z.lt l
    /\ (forall x, x ∈ l <-> exists sel, sel ∈ [Span 1 3; Single 7; Span 9 20]
                                       /\ selects 12 sel x).
Proof.
  apply (parse_range_selection [Span 1 3; Single 7; Span 9 20] 12).
  - discriminate.
  - repeat (constructor; [cbn [natural]; lia|]). constructor.
Defined.

Example selection_typed :
  join 44 (map render [Span 1 3; Single 7; Span 9 20]) = lit "1-3,7,9-20"
  /\ Peekxtract.parse_range (lit "1-3,7,9-20") 12 = Done [1; 2; 3; 7].
Proof. split; vm_compute; reflexivity. Qed.

(** ** main.py: the ZIP64 End of Central Directory *)

Lemma main_file_server_read file start length w :
  Main._read_bytes (file_server file) start length w
  = (Done (slice file start (start + length)),
     World (requests w ++ [Range start (start + length - 1)]) (sleeps w)).
Proof.
  unfold Main._read_bytes, catch, bind, session_get.
  cbn [file_server range_first range_last].
  change (negb ((206 =? 206) || (206 =? 200))) with false. cbv iota.
  replace (start + length - 1 + 1) with (start + length) by lia. reflexivity.
Qed.

Lemma len_slice_min {A} (l : list A) i j :
  0 <= i -> i <= j -> i <= len l -> len (slice l i j) = Z.min j (len l) - i.
Proof.
  intros Hi Hij Hl. unfold slice, len in *. rewrite length_take, length_drop. lia.
Qed.

(** main.py reads the ZIP64 record the locator points at only if it
    begins with the signature [50 4b 06 06]: then the 64-bit offset and
    size of the central directory are returned; any other four bytes are
    refused with "Invalid ZIP64 EOCD signature", after the locator and the
    first 12 bytes of the record have been read. *)
Theorem main_zip64_eocd_signature pre z middle l tail file_size w :
  zip64_eocd_ok z -> zip64_locator_ok l ->
  loc_eocd_offset l = len pre ->
  let archive := pre ++ encode_zip64_eocd z ++ middle ++ encode_zip64_locator l ++ tail in
  let eocd_offset := len pre + 56 + len middle + 20 in
  let run := Main._find_zip64_end_of_central_directory (file_server archive)
               file_size eocd_offset w in
  (z64_signature z = 0x06064b50 -> 44 <= z64_size z ->
     fst run = Done (z64_cd_offset z, z64_cd_size z))
  /\ (z64_signature z <> 0x06064b50 ->
      run = (Raised (Zip64EocdFailed (InvalidZip64EocdSignature (z64_signature z))),
             World (requests w ++ [Range (eocd_offset - 20) (eocd_offset - 1);
                                   Range (len pre) (len pre + 11)])
                   (sleeps w))).
Proof.
  intros Hz Hl Hloc archive eocd_offset run.
  pose proof (len_zip64_eocd z Hz) as Hlenz.
  pose proof (len_zip64_locator l Hl) as Hlenl.
  pose proof (len_nonneg pre) as Hpre. pose proof (len_nonneg middle) as Hmid.
  pose proof (len_nonneg tail) as Htail.
  assert (Hlen : len archive = len pre + 56 + len middle + 20 + len tail)
    by (unfold archive; rewrite !len_app, Hlenz, Hlenl; lia).
  (* the locator *)
  assert (Hrun : run
    = catch (Main.read_zip64_eocd (file_server archive) (len pre))
            (fun e => raise (Zip64EocdFailed e))
        (World (requests w ++ [Range (eocd_offset - 20) (eocd_offset - 1)]) (sleeps w))).
  { unfold run, Main._find_zip64_end_of_central_directory. cbv zeta.
    assert ((eocd_offset - 20 <? 0) = false) as ->
      by (apply Z.ltb_ge; unfold eocd_offset; lia).
    unfold bind at 1. unfold catch at 1. rewrite main_file_server_read.
    assert (Hread : slice archive (eocd_offset - 20) (eocd_offset - 20 + 20)
                    = encode_zip64_locator l).
    { unfold archive. rewrite (app_assoc pre), (app_assoc (pre ++ _)).
      apply slice_app_mid; unfold eocd_offset; rewrite !len_app, Hlenz; lia. }
    rewrite Hread.
    assert (Hsig : unpack_uint 4 (slice (encode_zip64_locator l) 0 4) = Done 0x07064b50)
      by reflexivity.
    unfold bind at 1. unfold lift at 1. rewrite Hsig. cbv iota beta.
    change (negb (0x07064b50 =? 0x07064b50)) with false. cbv iota.
    unfold bind at 1. unfold lift at 1. unfold encode_zip64_locator.
    rewrite struct_unpack_pack by exact Hl.
    unfold zip64_locator_fields. cbn [field nth]. rewrite Hloc.
    replace (eocd_offset - 20 + 20 - 1) with (eocd_offset - 1) by lia.
    reflexivity. }
  (* the first 12 bytes of the record *)
  assert (Hhead : slice archive (len pre) (len pre + 12)
                  = struct_pack [4; 8] [z64_signature z; z64_size z]).
  { unfold archive. replace (len pre) with (len pre + 0) at 1 by lia.
    rewrite slice_app_r by lia. reflexivity. }
  assert (Hfits : fits [4; 8] [z64_signature z; z64_size z]).
  { inversion Hz as [|w0 v0 ws0 vs0 H0 Hz1]; subst.
    inversion Hz1 as [|w1 v1 ws1 vs1 H1 Hz2]; subst.
    constructor; [exact H0|]. constructor; [exact H1|constructor]. }
  split.
  - intros Hsig Hsize.
    rewrite Hrun. unfold catch at 1. unfold Main.read_zip64_eocd.
    unfold bind at 1. rewrite main_file_server_read. rewrite Hhead.
    unfold bind at 1. unfold lift at 1. rewrite struct_unpack_pack by exact Hfits.
    cbn [field nth]. cbn [requests sleeps]. rewrite <- app_assoc. cbn [app].
    replace (len pre + 12 - 1) with (len pre + 11) by lia.
    rewrite Hsig.
    change (negb (0x06064b50 =? 0x06064b50)) with false. cbv iota.
    unfold bind at 1. rewrite main_file_server_read.
    set (L := Z.min (z64_size z + 12) 1024).
    assert (HL : 56 <= L) by (unfold L; lia).
    assert ((len (slice archive (len pre) (len pre + L)) <? 56) = false) as ->.
    { apply Z.ltb_ge. rewrite len_slice_min by lia. lia. }
    assert (Hcs : slice (slice archive (len pre) (len pre + L)) 40 48
                  = le_bytes 8 (z64_cd_size z)).
    { rewrite slice_slice by lia. unfold archive. rewrite slice_app_r by lia. reflexivity. }
    assert (Hco : slice (slice archive (len pre) (len pre + L)) 48 56
                  = le_bytes 8 (z64_cd_offset z)).
    { rewrite slice_slice by lia. unfold archive. rewrite slice_app_r by lia. reflexivity. }
    assert (Hbounds : 0 <= z64_cd_size z < 256 ^ 8 /\ 0 <= z64_cd_offset z < 256 ^ 8).
    { unfold zip64_eocd_ok, fits, zip64_eocd_widths, zip64_eocd_fields in Hz.
      repeat match goal with
      | H : Forall2 _ (_ :: _) (_ :: _) |- _ =>
          let Hh := fresh "Hh" in let Ht := fresh "Ht" in
          apply Forall2_cons in H as [Hh Ht]
      end. split; tauto. }
    unfold bind at 1. unfold lift at 1. rewrite Hcs.
    unfold unpack_uint at 1. rewrite len_le_bytes. change (Z.of_nat 8 =? 8) with true.
    cbv iota. rewrite le_uint_le_bytes by (change (Z.of_nat 8) with 8; tauto).
    unfold bind at 1. unfold lift at 1. rewrite Hco.
    unfold unpack_uint at 1. rewrite len_le_bytes. change (Z.of_nat 8 =? 8) with true.
    cbv iota. rewrite le_uint_le_bytes by (change (Z.of_nat 8) with 8; tauto).
    reflexivity.
  - intros Hsig. apply Z.eqb_neq in Hsig.
    rewrite Hrun. unfold catch at 1. unfold Main.read_zip64_eocd.
    unfold bind at 1. rewrite main_file_server_read. rewrite Hhead.
    unfold bind at 1. unfold lift at 1. rewrite struct_unpack_pack by exact Hfits.
    cbn [field nth]. cbn [requests sleeps]. rewrite <- app_assoc. cbn [app].
    replace (len pre + 12 - 1) with (len pre + 11) by lia.
    rewrite Hsig. reflexivity.
Qed.

Lemma main_zip64_eocd_signature_witness :
  let pre := slice trailer_cd_size_sentinel 0 51 in
  Main._find_zip64_end_of_central_directory
    (file_server (pre ++ encode_zip64_eocd unsigned_zip64_eocd ++ []
                  ++ encode_zip64_locator trailer_locator ++ encode_eocd sentinel_eocd))
    149 (len pre + 56 + len (@nil byte) + 20) world0
  = (Raised (Zip64EocdFailed
               (InvalidZip64EocdSignature (z64_signature unsigned_zip64_eocd))),
     World (requests world0
            ++ [Range (len pre + 56 + len (@nil byte) + 20 - 20)
                      (len pre + 56 + len (@nil byte) + 20 - 1);
                Range (len pre) (len pre + 11)])
           (sleeps world0)).
Proof.
  intros pre.
  apply (proj2 (main_zip64_eocd_signature pre unsigned_zip64_eocd [] trailer_locator
                  (encode_eocd sentinel_eocd) 149 world0
                  (proj1 zip64_records_ok) (proj1 (proj2 zip64_records_ok)) eq_refl)).
  discriminate.
Defined.

Example main_reads_signed_record :
  Main._find_end_of_central_directory (file_server trailer_cd_size_sentinel)
    (len trailer_cd_size_sentinel) world0
  = (Done (0, 51),
     World [Range 0 148; Range 107 126; Range 51 62; Range 51 106] []).
Proof. vm_compute. reflexivity. Qed.

(** ** ZIP64 sizes in the local header ([_get_local_file_header_info]) *)

Section LocalZip64.

Variables (data rest : bytes) (compressed uncompressed : Z).

Hypothesis data_short : len data < 65536.
Hypothesis data_fits :
  8 * count_sentinels (Sizes compressed uncompressed 0) <= len data.

Lemma local_zip64_found fuel pre :
  Peekxtract.local_zip64_loop (S fuel) (pre ++ extra_record (0x0001, data) ++ rest)
    compressed uncompressed (len pre)
  = Done (sz_compressed
            (fill_sentinels zip64_order data (Sizes compressed uncompressed 0))).
Proof.
  cbn [Peekxtract.local_zip64_loop].
  destruct (record_header_at pre (1, data) rest) as (-> & -> & ->);
    [cbn; lia|exact data_short|].
  cbn [obind fst snd]. change (1 =? 1) with true. cbv iota.
  unfold count_sentinels in data_fits.
  cbn [sz_compressed sz_uncompressed sz_local_header_offset] in data_fits.
  change (0 =? 4294967295) with false in data_fits.
  unfold zip64_order.
  cbn [fill_sentinels get_size set_size sz_compressed sz_uncompressed
       sz_local_header_offset].
  change (0 =? 4294967295) with false. cbv iota.
  pose proof (len_nonneg data) as Hd.
  destruct (uncompressed =? 4294967295) eqn:Eu;
  destruct (compressed =? 4294967295) eqn:Ec;
  repeat zip64_step; cbn [obind andb sz_compressed];
  rewrite ?drop_drop; reflexivity.
Qed.

Lemma local_zip64_skip fuel pre rec tail :
  foreign_record rec ->
  Peekxtract.local_zip64_loop (S fuel) (pre ++ extra_record rec ++ tail)
    compressed uncompressed (len pre)
  = Peekxtract.local_zip64_loop fuel ((pre ++ extra_record rec) ++ tail)
      compressed uncompressed (len (pre ++ extra_record rec)).
Proof.
  intros (Hid & Hne & Hlen). cbn [Peekxtract.local_zip64_loop].
  destruct (record_header_at pre rec tail Hid Hlen) as (-> & -> & ->).
  cbn [obind]. apply Z.eqb_neq in Hne. rewrite Hne.
  rewrite len_app, len_extra_record, <- app_assoc. reflexivity.
Qed.

Lemma local_zip64_scan others : forall fuel pre,
  Forall foreign_record others ->
  (length others < fuel)%nat ->
  Peekxtract.local_zip64_loop fuel
    (pre ++ concat (map extra_record others) ++ extra_record (0x0001, data) ++ rest)
    compressed uncompressed (len pre)
  = Done (sz_compressed
            (fill_sentinels zip64_order data (Sizes compressed uncompressed 0))).
Proof.
  induction others as [|rec others IH]; intros fuel pre Hall Hfuel.
  - destruct fuel as [|fuel]; [cbn in Hfuel; lia|]. apply local_zip64_found.
  - destruct fuel as [|fuel]; [cbn in Hfuel; lia|].
    apply Forall_cons in Hall as [Hrec Hall].
    cbn [map concat]. rewrite <- app_assoc.
    rewrite local_zip64_skip by exact Hrec.
    apply IH; [exact Hall|cbn in Hfuel; lia].
Qed.

End LocalZip64.

(** A local header whose compressed or uncompressed size is at the
    sentinel and whose extra field holds a ZIP64 record (behind any
    records with other header IDs) with 8 bytes for each of them: the
    probe returns the compressed size of that record, the second 8-byte
    value when the uncompressed size is at the sentinel too and the first
    otherwise; a compressed size that is not at the sentinel is kept. *)
Theorem local_header_zip64_size pre h rest others data extra_rest w :
  local_header_ok h ->
  lh_extra h = concat (map extra_record others) ++ extra_record (0x0001, data)
               ++ extra_rest ->
  Forall foreign_record others ->
  len data < 65536 ->
  8 * count_sentinels (Sizes (lh_compressed_size h) (lh_uncompressed_size h) 0)
    <= len data ->
  lh_compressed_size h = 0xFFFFFFFF \/ lh_uncompressed_size h = 0xFFFFFFFF ->
  let file := pre ++ encode_local_header h ++ rest in
  let data_offset := len pre + 30 + len (lh_name h) + len (lh_extra h) in
  Peekxtract._get_local_file_header_info (file_server file) (len pre) w
  = (Done (data_offset,
           sz_compressed
             (fill_sentinels zip64_order data
                (Sizes (lh_compressed_size h) (lh_uncompressed_size h) 0)),
           lh_method h),
     World (requests w ++ [Range (len pre) (len pre + 29);
                           Range (len pre + 30) (data_offset - 1)])
           (sleeps w)).
Proof.
  intros Hok Hextra Hothers Hshort Hfits Hsent file data_offset.
  pose proof (probe_header_fields pre h rest w Hok) as Hprobe.
  cbv zeta in Hprobe. fold file in Hprobe. rewrite Hprobe. clear Hprobe.
  pose proof (len_local_header_fixed h Hok) as Hfixed.
  pose proof (len_nonneg (lh_name h)) as Hname.
  pose proof (len_nonneg data) as Hdata.
  assert (Hlen : 4 <= len (lh_extra h)).
  { rewrite Hextra, !len_app, len_extra_record. cbn [snd].
    pose proof (len_nonneg (concat (map extra_record others))).
    pose proof (len_nonneg extra_rest). lia. }
  unfold bind at 1. rewrite file_server_read.
  assert (Hvar : slice file (len pre + 30)
                   (len pre + 30 + (len (lh_name h) + len (lh_extra h)))
                 = lh_name h ++ lh_extra h).
  { unfold file, encode_local_header. rewrite <- !app_assoc.
    rewrite (app_assoc pre). rewrite (app_assoc (lh_name h)).
    apply slice_app_mid; rewrite !len_app, ?Hfixed; lia. }
  rewrite Hvar.
  assert ((len (lh_extra h) >? 0)
          && ((lh_compressed_size h =? 0xFFFFFFFF)
              || (lh_uncompressed_size h =? 0xFFFFFFFF)) = true) as ->.
  { apply andb_true_iff. split; [rewrite Z.gtb_ltb; apply Z.ltb_lt; lia|].
    apply orb_true_iff. destruct Hsent as [-> | ->]; [left|right]; reflexivity. }
  cbv zeta.
  assert (Hslice : slice (lh_name h ++ lh_extra h) (len (lh_name h))
                     (len (lh_name h) + len (lh_extra h)) = lh_extra h).
  { rewrite <- len_app. apply slice_suffix. }
  rewrite Hslice. rewrite Hextra at 1 2.
  rewrite (local_zip64_scan data extra_rest _ _ Hshort Hfits others _ [] Hothers).
  2:{ pose proof (length_extra_records others). rewrite length_app. lia. }
  unfold bind, lift, ret. cbn [requests sleeps]. rewrite <- app_assoc. cbn [app].
  unfold data_offset.
  replace (len pre + 30 + (len (lh_name h) + len (lh_extra h)) - 1)
    with (len pre + 30 + len (lh_name h) + len (lh_extra h) - 1) by lia.
  reflexivity.
Qed.

Lemma big_header_ok : local_header_ok big_header.
Proof.
  unfold local_header_ok, fits, local_header_widths, local_header_fields.
  repeat (constructor; [vm_compute; repeat split; discriminate|]). constructor.
Qed.

Lemma local_header_zip64_size_witness :
  Peekxtract._get_local_file_header_info
    (file_server ([x00] ++ encode_local_header big_header ++ [])) (len [x00]) world0
  = (Done (len [x00] + 30 + len (lh_name big_header) + len (lh_extra big_header),
           sz_compressed
             (fill_sentinels zip64_order two_values
                (Sizes (lh_compressed_size big_header)
                       (lh_uncompressed_size big_header) 0)),
           lh_method big_header),
     World (requests world0
            ++ [Range (len [x00]) (len [x00] + 29);
                Range (len [x00] + 30)
                      (len [x00] + 30 + len (lh_name big_header)
                       + len (lh_extra big_header) - 1)])
           (sleeps world0)).
Proof.
  apply (local_header_zip64_size [x00] big_header [] [timestamp_record] two_values []
           world0).
  - exact big_header_ok.
  - vm_compute. reflexivity.
  - constructor; [|constructor]. unfold foreign_record. vm_compute.
    repeat split; discriminate.
  - vm_compute. reflexivity.
  - vm_compute. discriminate.
  - left. reflexivity.
Defined.

Example big_header_size :
  sz_compressed (fill_sentinels zip64_order two_values (Sizes 0xFFFFFFFF 0xFFFFFFFF 0))
  = 0x200000002.
Proof. vm_compute. reflexivity. Qed.

(** ** The fallback search for the ZIP64 locator *)

(** The locator is not in the 20 bytes before the EOCD record, but it is
    the last place of the last 8192 bytes where its signature
    [50 4b 06 07] stands with 20 bytes to follow: the reader finds it by
    the backward search and returns the 64-bit offset and size of the
    ZIP64 record it points at, in five requests. *)
Theorem zip64_locator_fallback pre z middle l gap e w :
  zip64_eocd_ok z -> zip64_locator_ok l ->
  eocd_ok e -> eocd_in_reach e -> eocd_unambiguous e ->
  eocd_cd_offset e = 0xFFFFFFFF \/ eocd_entries_total e = 0xFFFF ->
  loc_eocd_offset l = len pre ->
  gap <> [] ->
  let trailer := encode_zip64_locator l ++ gap ++ encode_eocd e in
  len trailer <= 8192 ->
  (forall j, 0 < j <= len trailer - 20 ->
             slice trailer j (j + 4) <> [x50; x4b; x06; x07]) ->
  let archive := pre ++ encode_zip64_eocd z ++ middle ++ trailer in
  let size := len archive in
  let eocd_offset := size - len (encode_eocd e) in
  let locator_offset := size - len trailer in
  Peekxtract._find_end_of_central_directory (file_server archive) size w
  = (Done (z64_cd_offset z, z64_cd_size z),
     World (requests w
            ++ [Range (size - Z.min 4096 size) (size - 1);
                Range (eocd_offset - 20) (eocd_offset - 1);
                Range (size - Z.min 8192 size) (size - 1);
                Range locator_offset (locator_offset + 19);
                Range (len pre) (len pre + 55)])
           (sleeps w)).
Proof.
  intros Hz Hl Hok Hreach Hlast Hsent Hloc Hgap trailer Hwindow Hunique
    archive size eocd_offset locator_offset.
  pose proof (len_zip64_eocd z Hz) as Hlenz.
  pose proof (len_zip64_locator l Hl) as Hlenl.
  pose proof (len_encode_eocd e Hok) as Hlene.
  pose proof (len_nonneg pre) as Hpre. pose proof (len_nonneg middle) as Hmid.
  pose proof (len_nonneg (eocd_comment e)) as Hcomment.
  assert (Hlgap : 0 < len gap) by (destruct gap; [contradiction|unfold len; cbn; lia]).
  assert (Htrailer : len trailer = 20 + len gap + len (encode_eocd e))
    by (unfold trailer; rewrite !len_app, Hlenl; lia).
  set (before := pre ++ encode_zip64_eocd z ++ middle ++ encode_zip64_locator l ++ gap).
  assert (Harchive : archive = before ++ encode_eocd e)
    by (unfold archive, before, trailer; now rewrite <- !app_assoc).
  assert (Hbefore : len before = len pre + 56 + len middle + 20 + len gap)
    by (unfold before; rewrite !len_app, Hlenz, Hlenl; lia).
  assert (Hsize : size = len before + len (encode_eocd e))
    by (unfold size; rewrite Harchive; apply len_app).
  assert (Heocd : eocd_offset = len before) by (unfold eocd_offset; lia).
  assert (Hlocator : locator_offset = len pre + 56 + len middle)
    by (unfold locator_offset; lia).
  assert (Hinner : forall j, 0 <= j ->
            slice archive (locator_offset + j) (locator_offset + j + 4)
            = slice trailer j (j + 4)).
  { intros j Hj. unfold archive. rewrite (app_assoc pre), (app_assoc (pre ++ _)).
    replace (locator_offset + j + 4)
      with (len ((pre ++ encode_zip64_eocd z) ++ middle) + (j + 4))
      by (rewrite !len_app, Hlenz; lia).
    replace (locator_offset + j)
      with (len ((pre ++ encode_zip64_eocd z) ++ middle) + j)
      by (rewrite !len_app, Hlenz; lia).
    apply slice_app_r. exact Hj. }
  pose proof (find_eocd_scan before e w Hok Hreach Hlast) as Hscan.
  cbv zeta in Hscan. rewrite <- Harchive in Hscan. fold size in Hscan.
  rewrite Hscan. clear Hscan.
  assert (Peekxtract.zip64_detected (eocd_cd_offset e) (eocd_cd_size e)
            (eocd_entries_total e) = true) as ->.
  { unfold Peekxtract.zip64_detected. apply orb_true_iff.
    destruct Hsent as [-> | ->]; [left|right]; reflexivity. }
  (* the 20 bytes before the EOCD *)
  unfold bind at 1. unfold Peekxtract._find_zip64_end_of_central_directory.
  assert ((len before - 20 <? 0) = false) as -> by (apply Z.ltb_ge; lia).
  unfold bind at 1. unfold catch. rewrite file_server_read.
  assert (Hfour : slice (slice archive (len before - 20) (len before - 20 + 20)) 0 4
                  = slice trailer (len gap) (len gap + 4)).
  { rewrite slice_slice by lia. rewrite <- Hinner by lia. f_equal; lia. }
  assert (Hnot : unpack_uint 4 (slice trailer (len gap) (len gap + 4))
                 = Done (le_uint (slice trailer (len gap) (len gap + 4)))
                 /\ le_uint (slice trailer (len gap) (len gap + 4)) <> 0x07064b50).
  { assert (Hl4 : len (slice trailer (len gap) (len gap + 4)) = 4)
      by (rewrite len_slice; lia).
    split; [unfold unpack_uint; now rewrite Hl4|].
    intros Heq. apply (Hunique (len gap)); [lia|].
    pose proof (le_bytes_le_uint (slice trailer (len gap) (len gap + 4))) as Hback.
    rewrite Heq in Hback.
    replace (length (slice trailer (len gap) (len gap + 4))) with 4%nat in Hback
      by (apply Nat2Z.inj; symmetry; exact Hl4).
    symmetry. exact Hback. }
  destruct Hnot as [Hunpack Hnot]. apply Z.eqb_neq in Hnot.
  unfold bind at 1. unfold lift at 1. rewrite Hfour, Hunpack. cbv iota beta.
  rewrite Hnot. cbn [negb]. cbv iota.
  (* the backward search *)
  unfold Peekxtract._fallback_find_zip64_locator. cbv zeta.
  replace (Z.max 0 (size - Z.min 8192 size)) with (size - Z.min 8192 size) by lia.
  unfold bind at 1. rewrite file_server_read.
  destruct (tail_window (pre ++ encode_zip64_eocd z ++ middle) trailer (Z.min 8192 size))
    as (pre' & Hwin & Hpre').
  { rewrite <- !app_assoc. fold archive. fold size. lia. }
  rewrite <- !app_assoc in Hwin. fold archive in Hwin. fold size in Hwin.
  rewrite Hwin. set (data := pre' ++ trailer).
  assert (Hpos : 0 <= len pre') by apply len_nonneg.
  assert (Hdata : len data = len pre' + len trailer) by (unfold data; apply len_app).
  assert (Hsig : slice data (len pre') (len pre' + 4) = [x50; x4b; x06; x07]).
  { unfold data, trailer. apply (slice_app_mid pre' [x50; x4b; x06; x07]);
      reflexivity. }
  rewrite (scan_signature_found _ data (len pre') (Z.to_nat (len gap + len (encode_eocd e))));
    [|lia|lia|exact Hsig|].
  2:{ intros j Hj. replace j with (len pre' + (j - len pre')) by lia.
      replace (len pre' + (j - len pre') + 4) with (len pre' + (j - len pre' + 4)) by lia.
      unfold data. rewrite slice_app_r by lia. apply Hunique. lia. }
  replace (size - Z.min 8192 size + len pre') with locator_offset by lia.
  unfold bind at 1. rewrite file_server_read.
  assert (Hread : slice archive locator_offset (locator_offset + 20)
                  = encode_zip64_locator l).
  { unfold archive, trailer. rewrite (app_assoc pre), (app_assoc (pre ++ _)).
    apply slice_app_mid; rewrite !len_app, Hlenz; lia. }
  rewrite Hread. unfold bind at 1. unfold lift at 1. unfold encode_zip64_locator.
  rewrite struct_unpack_pack by exact Hl.
  unfold zip64_locator_fields. cbn [field nth]. unfold ret at 1. cbv iota beta.
  (* the ZIP64 record *)
  unfold bind at 1. rewrite file_server_read.
  assert (Hread2 : slice archive (loc_eocd_offset l) (loc_eocd_offset l + 56)
                   = encode_zip64_eocd z).
  { rewrite Hloc. unfold archive. apply slice_app_mid; [reflexivity|]. now rewrite Hlenz. }
  rewrite Hread2.
  assert (Hwhole : slice (encode_zip64_eocd z) 0 56 = encode_zip64_eocd z)
    by (rewrite <- Hlenz; apply slice_all).
  unfold bind at 1. unfold lift at 1. rewrite Hwhole. unfold encode_zip64_eocd.
  rewrite struct_unpack_pack by exact Hz.
  unfold zip64_eocd_fields. cbn [field nth]. unfold ret.
  cbn [requests sleeps]. rewrite <- !app_assoc. cbn [app].
  rewrite Hloc, Heocd.
  replace (len before - 20 + 20 - 1) with (len before - 1) by lia.
  replace (size - Z.min 8192 size + Z.min 8192 size - 1) with (size - 1) by lia.
  replace (locator_offset + 20 - 1) with (locator_offset + 19) by lia.
  replace (len pre + 56 - 1) with (len pre + 55) by lia.
  reflexivity.
Qed.

Lemma all_sentinels_eocd_ok : eocd_ok all_sentinels_eocd.
Proof.
  unfold eocd_ok, fits, eocd_widths, eocd_fields.
  repeat (constructor; [vm_compute; repeat split; discriminate|]). constructor.
Qed.

Lemma signed_zip64_eocd_ok : zip64_eocd_ok trailer_zip64_eocd.
Proof.
  unfold zip64_eocd_ok, fits, zip64_eocd_widths, zip64_eocd_fields.
  repeat (constructor; [vm_compute; repeat split; discriminate|]). constructor.
Qed.

Lemma zip64_locator_fallback_witness :
  let pre := slice displaced_locator_archive 0 51 in
  let trailer := encode_zip64_locator trailer_locator ++ stray_bytes
                 ++ encode_eocd all_sentinels_eocd in
  let archive := pre ++ encode_zip64_eocd trailer_zip64_eocd ++ [] ++ trailer in
  Peekxtract._find_end_of_central_directory (file_server archive) (len archive) world0
  = (Done (z64_cd_offset trailer_zip64_eocd, z64_cd_size trailer_zip64_eocd),
     World (requests world0
            ++ [Range (len archive - Z.min 4096 (len archive)) (len archive - 1);
                Range (len archive - len (encode_eocd all_sentinels_eocd) - 20)
                      (len archive - len (encode_eocd all_sentinels_eocd) - 1);
                Range (len archive - Z.min 8192 (len archive)) (len archive - 1);
                Range (len archive - len trailer) (len archive - len trailer + 19);
                Range (len pre) (len pre + 55)])
           (sleeps world0)).
Proof.
  intros pre trailer archive.
  apply (zip64_locator_fallback pre trailer_zip64_eocd [] trailer_locator stray_bytes
           all_sentinels_eocd world0).
  - exact signed_zip64_eocd_ok.
  - exact (proj1 (proj2 zip64_records_ok)).
  - exact all_sentinels_eocd_ok.
  - vm_compute. discriminate.
  - apply no_comment_unambiguous. reflexivity.
  - left. reflexivity.
  - reflexivity.
  - discriminate.
  - vm_compute. discriminate.
  - intros j Hj. fold trailer in Hj |- *. change (len trailer - 20) with 26 in Hj.
    assert (Hcases : Forall (fun j => slice trailer (1 + j) (1 + j + 4)
                                      <> [x50; x4b; x06; x07]) (py_range 26)).
    { vm_compute. repeat (constructor; [discriminate|]). constructor. }
    replace j with (1 + (j - 1)) by lia.
    apply (proj1 (Forall_forall _ _) Hcases). apply elem_of_py_range. lia.
Defined.

Example displaced_locator_parts :
  slice displaced_locator_archive 0 51 ++ encode_zip64_eocd trailer_zip64_eocd
  ++ encode_zip64_locator trailer_locator ++ stray_bytes
  ++ encode_eocd all_sentinels_eocd = displaced_locator_archive.
Proof. vm_compute. reflexivity. Qed.

(** ** [download_file] always answers; [download_bulk] tries every number *)

Lemma finishes_ret {A} (a : A) : finishes (ret a).
Proof. intros w. discriminate. Qed.

Lemma finishes_raise {A} e : finishes (@raise A e).
Proof. intros w. discriminate. Qed.

Lemma finishes_lift {A} (o : outcome A) : o <> OutOfFuel -> finishes (lift o).
Proof. intros Ho w. exact Ho. Qed.

Lemma finishes_bind {A B} (m : M A) (k : A -> M B) :
  finishes m -> (forall a, finishes (k a)) -> finishes (bind m k).
Proof.
  intros Hm Hk w. unfold bind. specialize (Hm w).
  destruct (m w) as [[a|e|] w']; [apply Hk|discriminate|contradiction].
Qed.

Lemma finishes_bind_post {A B} (m : M A) (k : A -> M B) (post : A -> Prop) :
  finishes m ->
  (forall w a w', m w = (Done a, w') -> post a) ->
  (forall a, post a -> finishes (k a)) ->
  finishes (bind m k).
Proof.
  intros Hm Hpost Hk w. unfold bind. specialize (Hm w). specialize (Hpost w).
  destruct (m w) as [[a|e|] w']; [|discriminate|contradiction].
  apply Hk. exact (Hpost a w' eq_refl).
Qed.

Lemma finishes_catch {A} (m : M A) (handler : exn -> M A) :
  finishes m -> (forall e, finishes (handler e)) -> finishes (catch m handler).
Proof.
  intros Hm Hh w. unfold catch. specialize (Hm w).
  destruct (m w) as [[a|e|] w']; [discriminate|apply Hh|contradiction].
Qed.

Lemma finishes_session_get srv first last : finishes (session_get srv first last).
Proof. intros w. unfold session_get. destruct (srv _ _); discriminate. Qed.

Lemma finishes_read_attempts srv first last max_retries attempts :
  finishes (Peekxtract.read_attempts srv first last max_retries attempts).
Proof.
  induction attempts as [|attempt later IH]; cbn [Peekxtract.read_attempts].
  - apply finishes_ret.
  - apply finishes_catch.
    + apply finishes_bind; [apply finishes_session_get|].
      intros [st body]. destruct (negb _); [apply finishes_raise|apply finishes_ret].
    + intros e. destruct (_ <? _); [|apply finishes_raise].
      apply finishes_bind; [intros w; discriminate|]. intros _. exact IH.
Qed.

Lemma finishes_read_bytes srv start length :
  finishes (Peekxtract._read_bytes srv start length).
Proof.
  unfold Peekxtract._read_bytes, Peekxtract._read_bytes_opt.
  apply finishes_bind; [apply finishes_read_attempts|].
  intros [data|]; [apply finishes_ret|apply finishes_raise].
Qed.

Lemma unpack_uint_finishes n buf : unpack_uint n buf <> OutOfFuel.
Proof. unfold unpack_uint. destruct (_ =? _); discriminate. Qed.

Lemma struct_unpack_finishes widths buf : struct_unpack widths buf <> OutOfFuel.
Proof. unfold struct_unpack. destruct (_ =? _); discriminate. Qed.

Lemma finishes_probe srv offset :
  finishes (Peekxtract._get_local_file_header_info srv offset).
Proof.
  unfold Peekxtract._get_local_file_header_info.
  apply finishes_bind; [apply finishes_read_bytes|]. intros header_data.
  apply finishes_bind; [apply finishes_lift, unpack_uint_finishes|]. intros signature.
  destruct (negb _); [apply finishes_raise|].
  apply finishes_bind; [apply finishes_lift, struct_unpack_finishes|]. intros t.
  apply finishes_bind; [apply finishes_read_bytes|]. intros variable_data.
  apply finishes_bind; [|intros c; apply finishes_ret].
  destruct (_ && _); [|apply finishes_ret].
  apply finishes_lift, local_zip64_loop_fuel; unfold len; lia.
Qed.

Lemma finishes_plan srv files_info mapping n max_workers :
  finishes (Peekxtract.download_file_plan srv files_info mapping n max_workers).
Proof.
  unfold Peekxtract.download_file_plan.
  destruct (_ || _); [apply finishes_ret|].
  destruct (dict_get _ _); [|apply finishes_raise].
  apply finishes_bind; [apply finishes_probe|]. intros [[P A] m].
  destruct (if _ >? _ then _ else _) as [k workers]. apply finishes_ret.
Qed.

Lemma finishes_run_pool srv p order : finishes (Peekxtract.run_pool srv p order).
Proof.
  induction order as [|idx later IH]; cbn [Peekxtract.run_pool]; [apply finishes_ret|].
  apply finishes_bind.
  - intros w. unfold Peekxtract.settle. destruct (Peekxtract.fetch_chunk _ _ _ _).
    discriminate.
  - intros result. apply finishes_bind; [exact IH|]. intros results. apply finishes_ret.
Qed.

Lemma run_pool_futures srv p order : forall w futures w',
  Peekxtract.run_pool srv p order w = (Done futures, w') ->
  Forall (fun future => future <> OutOfFuel) futures.
Proof.
  induction order as [|idx later IH]; intros w futures w'; cbn [Peekxtract.run_pool].
  - intros [= <- _]. constructor.
  - unfold bind at 1. unfold Peekxtract.settle.
    destruct (Peekxtract.fetch_chunk srv p idx w) as [future w1] eqn:Efetch.
    unfold bind at 1.
    destruct (Peekxtract.run_pool srv p later w1) as [[rest|e|] w2] eqn:Erest;
      try discriminate.
    unfold ret. intros [= <- _]. constructor; [|exact (IH _ _ _ Erest)].
    intros ->. unfold Peekxtract.fetch_chunk in Efetch.
    destruct (Peekxtract.fetch_chunk_range p idx) as [start end_].
    unfold bind in Efetch. pose proof (finishes_read_bytes srv start (end_ - start + 1) w).
    destruct (Peekxtract._read_bytes _ _ _ _) as [[chunk|e|] w3];
      [discriminate|discriminate|contradiction].
Qed.

Lemma future_results_finishes {A} (futures : list (outcome A)) :
  Forall (fun future => future <> OutOfFuel) futures ->
  Peekxtract.future_results futures <> OutOfFuel.
Proof.
  induction 1 as [|future later Hf _ IH]; cbn [Peekxtract.future_results];
    [discriminate|].
  destruct future; [|discriminate|contradiction]. cbn [obind].
  destruct (Peekxtract.future_results later); [discriminate|discriminate|contradiction].
Qed.

Lemma join_chunks_finishes chunks : Peekxtract.join_chunks chunks <> OutOfFuel.
Proof.
  induction chunks as [|[chunk|] later IH]; cbn [Peekxtract.join_chunks];
    try discriminate.
  destruct (Peekxtract.join_chunks later); [discriminate|discriminate|contradiction].
Qed.

Lemma dict_keys_set {V} (d : list (Z * V)) k v a :
  a ∈ dict_keys (dict_set d k v) <-> a ∈ dict_keys d \/ a = k.
Proof.
  unfold dict_keys. induction d as [|[k' v'] d IH]; cbn [dict_set map fst].
  - rewrite list_elem_of_singleton, elem_of_nil. tauto.
  - destruct (Z.eqb_spec k' k) as [->|Hne]; cbn [map fst].
    + rewrite !elem_of_cons. tauto.
    + rewrite !elem_of_cons, IH. tauto.
Qed.

Lemma finishes_call answer : finishes (Peekxtract.call answer).
Proof. intros w. unfold Peekxtract.call. destruct (answer w); discriminate. Qed.

Lemma finishes_resolve_output_dir os output_dir :
  finishes (Peekxtract.resolve_output_dir os output_dir).
Proof.
  intros w. unfold Peekxtract.resolve_output_dir.
  destruct output_dir; [discriminate|].
  destruct (Peekxtract.default_output_dir os w) as [[dir|e] w']; discriminate.
Qed.

Section Robust.

Variables (srv : server) (files_info : list (Z * file_info))
          (current_display_mapping : gmap Z Z).
Variables (zlib_decompress bz2_decompress lzma_decompress : bytes -> option bytes)
          (binascii_crc32 : bytes -> Z) (schedule : Z -> list Z)
          (os : Peekxtract.system).

Lemma download_file_returns n output_dir max_workers verify_integrity w :
  exists downloaded w',
    Peekxtract.download_file srv files_info current_display_mapping
      zlib_decompress bz2_decompress lzma_decompress binascii_crc32 schedule os
      n output_dir max_workers verify_integrity w
    = (Done downloaded, w').
Proof.
  unfold Peekxtract.download_file, catch.
  match goal with
  | |- context [match ?body w with _ => _ end] =>
      assert (Hbody : finishes body); [|specialize (Hbody w);
        destruct (body w) as [[downloaded|e|] w']; [eauto|unfold ret; eauto|contradiction]]
  end.
  apply finishes_bind; [apply finishes_plan|]. intros [p|]; [|apply finishes_ret].
  destruct (dict_get _ _); [|apply finishes_raise].
  apply finishes_bind; [apply finishes_resolve_output_dir|]. intros dir.
  apply finishes_bind; [apply finishes_call|]. intros _.
  apply finishes_bind; [apply finishes_call|]. intros _.
  apply (finishes_bind_post _ _ (Forall (fun future => future <> OutOfFuel)));
    [apply finishes_run_pool|apply run_pool_futures|].
  intros futures Hfutures.
  apply finishes_bind; [apply finishes_lift, future_results_finishes, Hfutures|].
  intros completed.
  apply finishes_bind; [apply finishes_lift, join_chunks_finishes|]. intros data.
  destruct (if negb _ then _ else _) as [final verify].
  apply finishes_bind; [apply finishes_call|]. intros _.
  apply finishes_bind; [apply finishes_call|]. intros _. apply finishes_ret.
Qed.

Lemma download_bulk_loop_all output_dir verify_integrity actual : forall results w,
  exists results' w',
    Peekxtract.download_bulk_loop srv files_info current_display_mapping
      zlib_decompress bz2_decompress lzma_decompress binascii_crc32 schedule os
      output_dir verify_integrity actual results w
    = (Done results', w')
    /\ forall a, a ∈ dict_keys results' <-> a ∈ dict_keys results \/ a ∈ actual.
Proof.
  induction actual as [|a0 actual IH]; intros results w.
  - exists results, w. split; [reflexivity|]. intros a. rewrite elem_of_nil. tauto.
  - cbn [Peekxtract.download_bulk_loop]. unfold bind.
    destruct (download_file_returns (a0 + 1) output_dir Peekxtract.default_max_workers
                verify_integrity w) as (downloaded & w1 & ->).
    destruct (IH (dict_set results a0
                    match downloaded with Some _ => true | None => false end) w1)
      as (results' & w' & -> & Hkeys).
    exists results', w'. split; [reflexivity|]. intros a. rewrite Hkeys.
    rewrite dict_keys_set, elem_of_cons. tauto.
Qed.

Lemma report_failed_cases results :
  Peekxtract.report_failed files_info results = Done tt
  \/ Peekxtract.report_failed files_info results = Raised KeyError.
Proof.
  induction results as [|[file_num success] later IH]; cbn [Peekxtract.report_failed];
    [left; reflexivity|].
  destruct (negb success); [|exact IH]. destruct (dict_get _ _); [exact IH|].
  right. reflexivity.
Qed.

Lemma report_failed_keys results :
  (forall a, a ∈ dict_keys results -> exists info, dict_get files_info a = Some info) ->
  Peekxtract.report_failed files_info results = Done tt.
Proof.
  induction results as [|[file_num success] later IH]; intros Hkeys;
    cbn [Peekxtract.report_failed]; [reflexivity|].
  assert (Hlater : Peekxtract.report_failed files_info later = Done tt).
  { apply IH. intros a Ha. apply Hkeys. unfold dict_keys in *. cbn [map].
    apply list_elem_of_further, Ha. }
  destruct (negb success); [|exact Hlater].
  destruct (Hkeys file_num) as (info & ->); [|exact Hlater].
  unfold dict_keys. cbn [map fst]. apply list_elem_of_here.
Qed.

(** Whatever the server does, [download_file] answers [True] or [False]:
    no exception leaves it.  So [download_bulk] tries every number it is
    given, also after a failure, and records an outcome for each; it
    returns the outcomes, unless a number that failed is no key of the
    catalog, which ends the report of the failed files with a
    [KeyError]. *)
Theorem download_never_aborts display_file_numbers n output_dir max_workers
    verify_integrity w :
  let actual := map (fun num => Peekxtract._get_actual_file_index
                                  current_display_mapping (num - 1))
                    display_file_numbers in
  let bulk := Peekxtract.download_bulk srv files_info current_display_mapping
                zlib_decompress bz2_decompress lzma_decompress binascii_crc32 schedule os
                display_file_numbers output_dir verify_integrity w in
  (exists downloaded w',
     Peekxtract.download_file srv files_info current_display_mapping
       zlib_decompress bz2_decompress lzma_decompress binascii_crc32 schedule os
       n output_dir max_workers verify_integrity w
     = (Done downloaded, w'))
  /\ (exists results w',
        (forall a, a ∈ dict_keys results <-> a ∈ actual)
        /\ (bulk = (Done results, w') \/ bulk = (Raised KeyError, w'))
        /\ ((forall a, a ∈ actual -> exists info, dict_get files_info a = Some info) ->
            bulk = (Done results, w'))).
Proof.
  intros actual bulk. split; [apply download_file_returns|].
  destruct (download_bulk_loop_all output_dir verify_integrity actual [] w)
    as (results & w' & Hloop & Hkeys).
  assert (Hkeys' : forall a, a ∈ dict_keys results <-> a ∈ actual).
  { intros a. rewrite Hkeys. unfold dict_keys. cbn [map]. rewrite elem_of_nil. tauto. }
  exists results, w'. split; [exact Hkeys'|].
  assert (Hbulk : bulk
                  = (match (if len actual
                               - len (filter (fun kv : Z * bool => snd kv = true) results)
                               >? 0
                            then Peekxtract.report_failed files_info results
                            else Done tt) with
                     | Done _ => Done results
                     | Raised e => Raised e
                     | OutOfFuel => OutOfFuel
                     end, w')).
  { unfold bulk, Peekxtract.download_bulk. fold actual. unfold bind at 1.
    rewrite Hloop. unfold bind, lift, ret. destruct (_ >? 0); [|reflexivity].
    destruct (Peekxtract.report_failed files_info results); reflexivity. }
  rewrite Hbulk. split.
  - destruct (_ >? 0); [|left; reflexivity].
    destruct (report_failed_cases results) as [-> | ->]; [left|right]; reflexivity.
  - intros Hall. rewrite report_failed_keys; [destruct (_ >? 0); reflexivity|].
    intros a Ha. apply Hall, Hkeys', Ha.
Qed.

End Robust.

Example bulk_goes_on_after_failure :
  fst (Peekxtract.download_bulk (file_server hello_zip)
         [(0, FileInfo (lit "gone.txt") 11 11 0 50 0);
          (1, FileInfo (lit "hello.txt") 11 11 0 0 0x0d4a1185)] ∅
         no_codec no_codec no_codec zero_crc in_order_schedule willing_system
         [1; 2] None false world0)
  = Done [(0, false); (1, true)].
Proof. vm_compute. reflexivity. Qed.

(** ** The model at work *)

Example list_hello :
  Peekxtract._parse_central_directory (file_server hello_zip) (len hello_zip) world0
  = (Done hello_catalog, World [Range 0 126; Range 50 104] []).
Proof. vm_compute. reflexivity. Qed.

Example parse_range_example :
  Peekxtract.parse_range (lit "1-5,7,10-12") 12 = Done [1; 2; 3; 4; 5; 7; 10; 11; 12].
Proof. vm_compute. reflexivity. Qed.

Example parse_range_malformed :
  Peekxtract.parse_range (lit "3, x, 5-4, 9, 2-3, 0, 11-13, -1-2, 1_0") 12
  = Done [2; 3; 9; 10].
Proof. vm_compute. reflexivity. Qed.

Example flaky_read :
  Peekxtract._read_bytes (flaky_server 2 hello_zip) 0 4 world0
  = (Done [x50; x4b; x03; x04], World [Range 0 3; Range 0 3; Range 0 3] [1; 2]).
Proof. vm_compute. reflexivity. Qed.

Example search_filter :
  fst (Peekxtract.list_files_view str literal_compile literal_search ascii_lower
         img_catalog (Some (lit ".IMG")))
  = Done [(0, FileInfo (lit "boot.img") 100 200 8 0 1);
          (1, FileInfo (lit "system.img") 300 400 8 150 2)].
Proof. vm_compute. reflexivity. Qed.
